(** * SlimeTube: the local video blob store, the upload pipeline and the
      per-user lists

    A shallow embedding of the parts of the SlimeTube front end that carry
    state: [IndexedDBStorageService] (the blob store), [VideoService] (the
    in-memory catalog), [VideoUploadModal] ([handleVideoFileChange] and
    [handleSubmit], the upload pipeline), [UserService] (wishlist and watch
    history kept in localStorage), the [useVideoDatabase] hook, the
    [VideoPlayer] component's resolution of playback references, and the
    sign-in ([AuthService], the [AuthContext] provider and [AuthModal]).

    Asynchronous functions are state transformers that resolve with a value,
    reject with a thrown value or, when the event they wait for never fires,
    stay pending. Whatever the browser decides during a call (whether an
    IndexedDB request fires [onsuccess] or [onerror], what the clock and the
    random generator return, whether a media element loads, fails or stays
    silent) is read from an explicit record of browser outcomes. *)

From Stdlib Require Import ZArith NArith QArith String Ascii DecimalString List Sorted Lia.
From Stdlib Require DecimalPos DecimalZ.
From stdpp Require Import gmap strings list fin_maps.

Local Open Scope string_scope.
Local Open Scope Z_scope.
Local Open Scope list_scope.

(* ===================================================================== *)
(** ** JavaScript values used by the code *)
(* ===================================================================== *)

Module Js.

(** What a [throw] or a promise rejection carries: an [Error] object with
    its message, or some other value (a DOM event, for instance), which is
    what [error instanceof Error] tells apart. *)
Inductive Thrown : Type :=
| JsError (message : string)
| JsOther.

(** State of a promise: settled one way or the other, or left pending for
    good (the event that would settle it never fires). *)
Inductive Result (A : Type) : Type :=
| Resolved (a : A)
| Rejected (e : Thrown)
| Pending.
Arguments Resolved {A} a.
Arguments Rejected {A} e.
Arguments Pending {A}.

(** The promise is one that never settles. *)
Definition isPending {A} (r : Result A) : bool :=
  match r with
  | Pending => true
  | _ => false
  end.

(** An async function over a mutable state [S]. *)
Definition Async (S A : Type) : Type := S -> Result A * S.

Definition resolve {S A} (a : A) : Async S A := fun s => (Resolved a, s).
Definition reject {S A} (e : Thrown) : Async S A := fun s => (Rejected e, s).

(** [await] followed by the rest of the function body; the rest never runs
    when the awaited promise stays pending. *)
Definition bind {S A B} (c : Async S A) (k : A -> Async S B) : Async S B :=
  fun s => match c s with
           | (Resolved a, s') => k a s'
           | (Rejected e, s') => (Rejected e, s')
           | (Pending, s') => (Pending, s')
           end.

(** [try { c } catch (error) { h error }]. *)
Definition try_catch {S A} (c : Async S A) (h : Thrown -> Async S A) : Async S A :=
  fun s => match c s with
           | (Resolved a, s') => (Resolved a, s')
           | (Rejected e, s') => h e s'
           | (Pending, s') => (Pending, s')
           end.

(** [try { c } finally { f }]: [f] runs however [c] settles, and not at all
    when [c] stays pending. *)
Definition try_finally {S A} (c : Async S A) (f : Async S unit) : Async S A :=
  fun s => match c s with
           | (Pending, s') => (Pending, s')
           | (r, s') =>
               match f s' with
               | (Resolved _, s'') => (r, s'')
               | (Rejected e, s'') => (Rejected e, s'')
               | (Pending, s'') => (Pending, s'')
               end
           end.

(** [String.prototype.startsWith]. *)
Definition startsWith (s searchString : string) : bool :=
  String.prefix searchString s.

(** [String.prototype.includes]. *)
Fixpoint includes (s searchString : string) : bool :=
  String.prefix searchString s
  || match s with
     | EmptyString => false
     | String _ rest => includes rest searchString
     end.

(** A string of the development is the sequence of bytes that encodes the
    JavaScript string in UTF-8. A byte [b] that belongs to no well-formed
    UTF-8 sequence stands for the unpaired surrogate U+DC00 + [b] (one code
    unit, no white space), so that every sequence of bytes is a JavaScript
    string and different sequences are different strings; the no-break
    space, for one, is the two bytes 194 160, and a byte 160 on its own is
    not white space. Comparing, searching for and splitting at ASCII text
    can then be done on the bytes; [length] and [trim], which look at code
    units and at code points, are written out below. *)

(** The byte [c] lies between [low] and [high]. *)
Definition inRange (low high : nat) (c : ascii) : bool :=
  Nat.leb low (nat_of_ascii c) && Nat.leb (nat_of_ascii c) high.

(** The bytes [c1 c2] are well-formed UTF-8 (U+0080 to U+07FF). *)
Definition wellFormed2 (c1 c2 : ascii) : bool :=
  inRange 194 223 c1 && inRange 128 191 c2.

(** The bytes [c1 c2 c3] are well-formed UTF-8 (U+0800 to U+FFFF without
    the surrogates). *)
Definition wellFormed3 (c1 c2 c3 : ascii) : bool :=
  ((inRange 224 224 c1 && inRange 160 191 c2)
   || (inRange 225 236 c1 && inRange 128 191 c2)
   || (inRange 237 237 c1 && inRange 128 159 c2)
   || (inRange 238 239 c1 && inRange 128 191 c2))
  && inRange 128 191 c3.

(** The bytes [c1 c2 c3 c4] are well-formed UTF-8 (U+10000 to U+10FFFF). *)
Definition wellFormed4 (c1 c2 c3 c4 : ascii) : bool :=
  ((inRange 240 240 c1 && inRange 144 191 c2)
   || (inRange 241 243 c1 && inRange 128 191 c2)
   || (inRange 244 244 c1 && inRange 128 143 c2))
  && inRange 128 191 c3 && inRange 128 191 c4.

(** [s.length]: the number of UTF-16 code units. A code point up to U+FFFF
    is one unit, a code point above it is two, and a byte outside every
    well-formed sequence is one. *)
Fixpoint string_length (s : string) : nat :=
  match s with
  | EmptyString => O
  | String c1 rest1 =>
      match rest1 with
      | String c2 rest2 =>
          if wellFormed2 c1 c2 then S (string_length rest2)
          else
            match rest2 with
            | String c3 rest3 =>
                if wellFormed3 c1 c2 c3 then S (string_length rest3)
                else
                  match rest3 with
                  | String c4 rest4 =>
                      if wellFormed4 c1 c2 c3 c4 then S (S (string_length rest4))
                      else S (string_length rest1)
                  | EmptyString => S (string_length rest1)
                  end
            | EmptyString => S (string_length rest1)
            end
      | EmptyString => 1%nat
      end
  end.

(** White space and line terminators of one byte: tab, line feed, vertical
    tab, form feed, carriage return, space. *)
Definition isWhiteSpace (c : ascii) : bool :=
  let n := nat_of_ascii c in
  (Nat.leb 9 n && Nat.leb n 13) || Nat.eqb n 32.

(** Of two bytes: the no-break space U+00A0. *)
Definition isWhiteSpace2 (c1 c2 : ascii) : bool :=
  inRange 194 194 c1 && inRange 160 160 c2.

(** Of three bytes: U+1680, U+2000 to U+200A, the line and paragraph
    separators U+2028 and U+2029, U+202F, U+205F, U+3000 and the byte order
    mark U+FEFF. *)
Definition isWhiteSpace3 (c1 c2 c3 : ascii) : bool :=
  (inRange 225 225 c1 && inRange 154 154 c2 && inRange 128 128 c3)
  || (inRange 226 226 c1 && inRange 128 128 c2
      && (inRange 128 138 c3 || inRange 168 169 c3 || inRange 175 175 c3))
  || (inRange 226 226 c1 && inRange 129 129 c2 && inRange 159 159 c3)
  || (inRange 227 227 c1 && inRange 128 128 c2 && inRange 128 128 c3)
  || (inRange 239 239 c1 && inRange 187 187 c2 && inRange 191 191 c3).

(** What follows the white-space code point [s] starts with, if it starts
    with one. *)
Definition afterWhiteSpace (s : string) : option string :=
  match s with
  | EmptyString => None
  | String c1 rest1 =>
      if isWhiteSpace c1 then Some rest1
      else
        match rest1 with
        | String c2 rest2 =>
            if isWhiteSpace2 c1 c2 then Some rest2
            else
              match rest2 with
              | String c3 rest3 =>
                  if isWhiteSpace3 c1 c2 c3 then Some rest3 else None
              | EmptyString => None
              end
        | EmptyString => None
        end
  end.

(** [String.prototype.trimStart]: the white space at the head is dropped,
    one code point after the other. *)
Fixpoint trimStart (s : string) : string :=
  match s with
  | EmptyString => EmptyString
  | String c1 rest1 =>
      if isWhiteSpace c1 then trimStart rest1
      else
        match rest1 with
        | String c2 rest2 =>
            if isWhiteSpace2 c1 c2 then trimStart rest2
            else
              match rest2 with
              | String c3 rest3 =>
                  if isWhiteSpace3 c1 c2 c3 then trimStart rest3 else s
              | EmptyString => s
              end
        | EmptyString => s
        end
  end.

(** [String.prototype.trimEnd]: the string is cut where what remains is
    white space only. *)
Fixpoint trimEnd (s : string) : string :=
  match s with
  | EmptyString => EmptyString
  | String c rest =>
      match trimStart s with
      | EmptyString => EmptyString
      | _ => String c (trimEnd rest)
      end
  end.

(** [String.prototype.trim]. *)
Definition trim (s : string) : string := trimEnd (trimStart s).

(** Truthiness of a string: only the empty string is falsy. *)
Definition truthy (s : string) : bool :=
  match s with EmptyString => false | _ => true end.

(** [a || b] on strings. *)
Definition or_else (a b : string) : string := if truthy a then a else b.

(** [s.split(sep)] for a one-character separator. *)
Fixpoint split (sep : ascii) (s : string) : list string :=
  match s with
  | EmptyString => [EmptyString]
  | String c rest =>
      if Ascii.eqb c sep then EmptyString :: split sep rest
      else match split sep rest with
           | piece :: pieces => String c piece :: pieces
           | [] => [String c EmptyString]
           end
  end.

(** Decimal rendering of an integer, as a template literal does. *)
Definition toString (z : Z) : string := NilZero.string_of_int (Z.to_int z).

(** [Math.round(x / 1024 / 1024)] for an integer [x]: halves round up. *)
Definition roundMB (x : Z) : Z := (2 * x + 1048576) / 2097152.

End Js.

Export Js.

Declare Scope async_scope.
Delimit Scope async_scope with async.
Notation "x <- c ;; k" := (bind c (fun x => k))
  (at level 100, c at next level, right associativity) : async_scope.
Notation "c ;;; k" := (bind c (fun _ => k))
  (at level 100, right associativity) : async_scope.
Local Open Scope async_scope.

(* ===================================================================== *)
(** ** utils/videoUtils: the helpers the services import *)
(* ===================================================================== *)

(** utils/videoUtils is imported by the services but is not among the
    sources at hand. Its two pure formatters are parameters of the
    development; its two media-element helpers ([generateVideoThumbnail],
    [getVideoDuration]) return promises, whose outcome is read from the
    browser record of the upload. *)
Class VideoUtils : Type := {
  formatUploadDate : N -> string;   (* of the clock reading it is given *)
  formatDuration : Q -> string      (* of a duration in seconds *)
}.

(* ===================================================================== *)
(** ** services/IndexedDBStorageService *)
(* ===================================================================== *)

(** The browser's [File]: the code reads [type] and [size] only, and [size]
    is the byte length of the binary payload the object wraps. *)
Record File : Type := {
  file_name : string;
  file_type : string;
  file_size : N
}.

Record StoredVideo : Type := {
  sv_id : string;
  sv_file : File;
  sv_title : string;
  sv_description : string;
  sv_uploadDate : string;
  sv_duration : Q;
  sv_thumbnail : string;
  sv_size : N
}.

Record StorageStats : Type := {
  totalVideos : nat;
  totalSize : N;
  availableQuota : Z;
  usedQuota : Z
}.

(** [navigator.storage.estimate()], when the browser has it. *)
Inductive StorageManager : Type :=
| NoStorageManager
| EstimateRejects (e : Thrown)
| EstimateResolves (quota usage : option Z).

(** What the browser answers during one call of a service method. *)
Record Browser : Type := {
  idb_open_ok : bool;          (* indexedDB.open: onsuccess, else onerror *)
  idb_request_ok : bool;       (* the IDBRequest: onsuccess, else onerror *)
  storage : StorageManager;
  date_now : N;                (* Date.now() *)
  random_suffix : string;      (* Math.random().toString(36).substr(2, 9) *)
  createObjectURL : File -> string
}.

Module IndexedDBStorageService.

(** The service instance: the [db] handle (null until opened) and the
    content of the object store 'videos', whose key path is 'id'. *)
Record Service : Type := {
  db : bool;
  videos : gmap string StoredVideo
}.

Definition with_videos (s : Service) (m : gmap string StoredVideo) : Service :=
  {| db := db s; videos := m |}.

Definition initDB (b : Browser) : Async Service unit :=
  fun s =>
    if idb_open_ok b
    then (Resolved tt, {| db := true; videos := videos s |})
    else (Rejected (JsError "Failed to open IndexedDB"), s).

Definition ensureDB (b : Browser) : Async Service unit :=
  fun s => if db s then (Resolved tt, s) else initDB b s.

(** The literal [0.9] as a double: [nineTenths / 2^53]. *)
Definition nineTenths : Z := 8106479329266893.

(** The integer nearest to [p >= 0] that has at most 53 significant bits,
    ties to even: the rounding the result of an operation on doubles
    undergoes (with [p] counted in units of [2^-53] for the product
    below). *)
Definition roundToDouble (p : Z) : Z :=
  let n := Z.log2 p + 1 in
  if n <=? 53 then p
  else
    let shift := n - 53 in
    let q := Z.shiftr p shift in
    let r := Z.land p (Z.ones shift) in
    let half := Z.shiftl 1 (shift - 1) in
    let m := if half <? r then q + 1
             else if r <? half then q
             else q + Z.land q 1 in
    Z.shiftl m shift.

(** [(estimate.quota || 0) - (estimate.usage || 0)], a difference of two
    doubles that hold integers: the double nearest to the exact
    difference. *)
Definition availableSpace (quota usage : option Z) : Z :=
  let difference := default 0 quota - default 0 usage in
  if difference <? 0 then - roundToDouble (- difference)
  else roundToDouble difference.

(** [file.size > availableSpace * 0.9] in double arithmetic, both numbers
    being integers a double holds exactly. A product that is negative or
    zero is not rounded. *)
Definition overQuota (file : File) (available : Z) : bool :=
  let size := Z.of_N (file_size file) in
  if available <=? 0 then (available <? 0) || (0 <? size)
  else roundToDouble (available * nineTenths) <? Z.shiftl size 53.

Definition quotaMessage (file : File) (available : Z) : string :=
  "File too large. Available space: " +:+ toString (roundMB available)
    +:+ "MB, File size: " +:+ toString (roundMB (Z.of_N (file_size file))) +:+ "MB".

(** The quota check at the head of [storeVideoFile]. *)
Definition checkQuota (b : Browser) (file : File) : Async Service unit :=
  match storage b with
  | NoStorageManager => resolve tt
  | EstimateRejects e => reject e
  | EstimateResolves quota usage =>
      let available := availableSpace quota usage in
      if overQuota file available
      then reject (JsError (quotaMessage file available))
      else resolve tt
  end.

Definition newVideoId (b : Browser) : string :=
  "video_" +:+ toString (Z.of_N (date_now b)) +:+ "_" +:+ random_suffix b.

(** [store.add(videoData)]: the request fails when the key is taken. *)
Definition store_add (b : Browser) (v : StoredVideo) : Async Service unit :=
  fun s =>
    match videos s !! sv_id v with
    | Some _ => (Rejected (JsError "Failed to store video file"), s)
    | None =>
        if idb_request_ok b
        then (Resolved tt, with_videos s (<[sv_id v := v]> (videos s)))
        else (Rejected (JsError "Failed to store video file"), s)
    end.

Definition storeVideoFile `{VideoUtils} (b : Browser) (file : File)
    (title description : string) (duration : Q) (thumbnail : string)
  : Async Service string :=
  ensureDB b ;;;
  (fun s =>
     if negb (db s) then (Rejected (JsError "Database not initialized"), s)
     else
       (checkQuota b file ;;;
        let videoId := newVideoId b in
        let videoData :=
          {| sv_id := videoId;
             sv_file := file;
             sv_title := title;
             sv_description := description;
             sv_uploadDate := formatUploadDate (date_now b);
             sv_duration := duration;
             sv_thumbnail := thumbnail;
             sv_size := file_size file |} in
        store_add b videoData ;;;
        resolve videoId) s).

Definition getStoredVideo (b : Browser) (videoId : string)
  : Async Service (option StoredVideo) :=
  ensureDB b ;;;
  (fun s =>
     if negb (db s) then (Resolved None, s)
     else if idb_request_ok b
          then (Resolved (videos s !! videoId), s)
          else (Rejected (JsError "Failed to retrieve video"), s)).

(** [store.getAll()]: every record of the store (IndexedDB lists them in key
    order, the map in its own; only their number matters below). *)
Definition getAllStoredVideos (b : Browser) : Async Service (list StoredVideo) :=
  ensureDB b ;;;
  (fun s =>
     if negb (db s) then (Resolved [], s)
     else if idb_request_ok b
          then (Resolved (snd <$> map_to_list (videos s)), s)
          else (Rejected (JsError "Failed to retrieve videos"), s)).

Definition deleteStoredVideo (b : Browser) (videoId : string) : Async Service unit :=
  ensureDB b ;;;
  (fun s =>
     if negb (db s) then (Rejected (JsError "Database not initialized"), s)
     else if idb_request_ok b
          then (Resolved tt, with_videos s (delete videoId (videos s)))
          else (Rejected (JsError "Failed to delete video"), s)).

Definition getStoredVideoUrl (b : Browser) (videoId : string)
  : Async Service (option string) :=
  video <- getStoredVideo b videoId ;;
  match video with
  | None => resolve None
  | Some v => resolve (Some (createObjectURL b (sv_file v)))
  end.

(** [sum + video.size] on two doubles that hold integers: the double nearest
    to the sum. *)
Definition addSizes (sum size : N) : N :=
  Z.to_N (roundToDouble (Z.of_N (sum + size))).

(** [videos.reduce((sum, video) => sum + video.size, 0)]. *)
Definition sumSizes (vs : list StoredVideo) : N :=
  fold_left (fun sum video => addSizes sum (sv_size video)) vs 0%N.

Definition getStorageStats (b : Browser) : Async Service StorageStats :=
  vs <- getAllStoredVideos b ;;
  let estimate :=
    match storage b with
    | EstimateResolves quota usage => (default 0 quota, default 0 usage)
    | EstimateRejects _ | NoStorageManager => (0, 0)
    end in
  resolve {| totalVideos := length vs;
             totalSize := sumSizes vs;
             availableQuota := fst estimate;
             usedQuota := snd estimate |}.

Definition clearAllVideos (b : Browser) : Async Service unit :=
  ensureDB b ;;;
  (fun s =>
     if negb (db s) then (Rejected (JsError "Database not initialized"), s)
     else if idb_request_ok b
          then (Resolved tt, with_videos s ∅)
          else (Rejected (JsError "Failed to clear videos"), s)).

(** The record [storeVideoFile] builds and adds. *)
Definition recordOf `{VideoUtils} (b : Browser) (file : File)
    (title description : string) (duration : Q) (thumbnail : string) : StoredVideo :=
  {| sv_id := newVideoId b;
     sv_file := file;
     sv_title := title;
     sv_description := description;
     sv_uploadDate := formatUploadDate (date_now b);
     sv_duration := duration;
     sv_thumbnail := thumbnail;
     sv_size := file_size file |}.

(** The quota check of [storeVideoFile] lets the file through. *)
Definition quotaAllows (b : Browser) (file : File) : Prop :=
  match storage b with
  | NoStorageManager => True
  | EstimateRejects _ => False
  | EstimateResolves quota usage => overQuota file (availableSpace quota usage) = false
  end.

End IndexedDBStorageService.

(* ===================================================================== *)
(** ** types and services/VideoService: the in-memory catalog *)
(* ===================================================================== *)

Record Creator : Type := {
  creator_name : string;
  creator_avatar : string;
  creator_subscribers : Z
}.

Record Video : Type := {
  video_id : string;
  video_title : string;
  video_description : string;
  video_thumbnail : string;
  videoUrl : string;
  video_duration : string;
  views : Z;
  likes : Z;
  video_uploadDate : string;
  video_tags : list string;
  video_category : string;
  video_quality : list string;
  video_creator : Creator
}.

(** [Partial<Video>], with the fields [uploadVideo] reads. *)
Record PartialVideo : Type := {
  p_title : option string;
  p_description : option string;
  p_thumbnail : option string;
  p_videoUrl : option string;
  p_duration : option string;
  p_uploadDate : option string;
  p_tags : option (list string);
  p_category : option string;
  p_quality : option (list string);
  p_creator : option Creator
}.

Record AuthUser : Type := {
  user_id : string;
  user_name : string;
  user_email : string;
  user_avatar : option string;
  user_token : string
}.

Module VideoService.

(** [field || fallback] on an optional string field: undefined and the
    empty string both give the fallback. *)
Definition field_or (field : option string) (fallback : string) : string :=
  or_else (default "" field) fallback.

(** [uploadVideo]: builds the catalog entry and puts it at the head of
    [mockVideos]. [now] is the reading of [Date.now()]. *)
Definition uploadVideo `{VideoUtils} (now : N) (videoData : PartialVideo)
  : Async (list Video) Video :=
  fun mockVideos =>
    let newVideo :=
      {| video_id := toString (Z.of_N now);
         video_title := field_or (p_title videoData) "";
         video_description := field_or (p_description videoData) "";
         video_thumbnail := field_or (p_thumbnail videoData) "/default-thumbnail.jpg";
         videoUrl := field_or (p_videoUrl videoData) "";
         video_duration := field_or (p_duration videoData) "5:30";
         views := 0;
         likes := 0;
         video_uploadDate := field_or (p_uploadDate videoData) (formatUploadDate now);
         video_tags := default [] (p_tags videoData);
         video_category := field_or (p_category videoData) "Entertainment";
         video_quality := default ["1080p"] (p_quality videoData);
         video_creator :=
           default {| creator_name := "Unknown Creator";
                      creator_avatar := "/default-avatar.png";
                      creator_subscribers := 0 |} (p_creator videoData) |} in
    (Resolved newVideo, newVideo :: mockVideos).

(** [getAllVideos]: the catalog itself. *)
Definition getAllVideos : Async (list Video) (list Video) :=
  try_catch
    (fun mockVideos => (Resolved mockVideos, mockVideos))
    (fun _ => reject (JsError "Failed to fetch videos")).



(** Where a stable sort puts [video], which stood before everything in
    [sorted]: before the first entry that [compare] does not want in front
    of it. *)
Fixpoint insertSorted (compare : Video -> Video -> Z) (video : Video)
    (sorted : list Video) : list Video :=
  match sorted with
  | [] => [video]
  | other :: rest =>
      if compare video other <=? 0 then video :: sorted
      else other :: insertSorted compare video rest
  end.

(** [Array.prototype.sort(compare)], which is stable. *)
Definition sort (compare : Video -> Video -> Z) (array : list Video) : list Video :=
  fold_right (insertSorted compare) [] array.

(** The comparison [(a, b) => b.views - a.views]. *)
Definition byViews (a b : Video) : Z := views b - views a.

(** [getTrendingVideos]: a sorted copy of the catalog, cut at 6. *)
Definition getTrendingVideos : Async (list Video) (list Video) :=
  try_catch
    (fun mockVideos => (Resolved (take 6 (sort byViews mockVideos)), mockVideos))
    (fun _ => reject (JsError "Failed to fetch trending videos")).

End VideoService.

(* ===================================================================== *)
(** ** components/VideoUpload/VideoUploadModal: the upload pipeline *)
(* ===================================================================== *)

Module VideoUploadModal.

Import IndexedDBStorageService.

Record FormData : Type := {
  title : string;
  description : string;
  category : string;
  tags : string;
  quality : string
}.

(** The component's state. *)
Record Modal : Type := {
  formData : FormData;
  videoFile : option File;
  thumbnailFile : option File;
  isUploading : bool;
  uploadProgress : N
}.

(** Calls that leave the component, in the order they are made. *)
Inductive Effect : Type :=
| ToastError (message : string)
| ToastSuccess (message : string)
| ReadAsDataURL (thumbnail : File)        (* custom thumbnail, encoded inline *)
| GenerateVideoThumbnail (video : File)   (* a frame sampled from the video *)
| GetVideoDuration (video : File)
| TriggerRefresh
| OnVideoUploaded
| OnClose.

(** Everything [handleSubmit] can touch: the component, the blob store
    singleton, the catalog of [VideoService], and the calls made so far. *)
Record App : Type := {
  modal : Modal;
  store : Service;
  catalog : list Video;
  effects : list Effect
}.

(** What the browser answers during one run of [handleSubmit]. The promise
    made around the [FileReader] settles from its [onload] and [onerror],
    the two promises of [utils/videoUtils] from the events of a media
    element; when no event fires the promise stays [Pending]. *)
Record UploadBrowser : Type := {
  idb : Browser;                                 (* for storeVideoFile *)
  readAsDataURL : File -> Result string;         (* resolve(reader.result), or reject *)
  generateVideoThumbnail : File -> Result string;
  getVideoDuration : File -> Result Q;
  catalog_now : N;                               (* Date.now() in uploadVideo *)
  today : string                                 (* new Date().toISOString().split('T')[0] *)
}.

Definition setModal (f : Modal -> Modal) : Async App unit :=
  fun w => (Resolved tt,
            {| modal := f (modal w); store := store w;
               catalog := catalog w; effects := effects w |}).

Definition emit (e : Effect) : Async App unit :=
  fun w => (Resolved tt,
            {| modal := modal w; store := store w;
               catalog := catalog w; effects := (effects w ++ [e])%list |}).

(** [await] on a promise of the browser, which resolves, rejects or never
    settles. *)
Definition awaited {A} (r : Result A) : Async App A := fun w => (r, w).

(** A call into the blob store singleton. *)
Definition onStore {A} (c : Async Service A) : Async App A :=
  fun w => let '(r, s) := c (store w) in
           (r, {| modal := modal w; store := s;
                  catalog := catalog w; effects := effects w |}).

(** A call into [VideoService]. *)
Definition onCatalog {A} (c : Async (list Video) A) : Async App A :=
  fun w => let '(r, l) := c (catalog w) in
           (r, {| modal := modal w; store := store w;
                  catalog := l; effects := effects w |}).

Definition setVideoFile (f : option File) (m : Modal) : Modal :=
  {| formData := formData m; videoFile := f; thumbnailFile := thumbnailFile m;
     isUploading := isUploading m; uploadProgress := uploadProgress m |}.

Definition setThumbnailFile (f : option File) (m : Modal) : Modal :=
  {| formData := formData m; videoFile := videoFile m; thumbnailFile := f;
     isUploading := isUploading m; uploadProgress := uploadProgress m |}.

Definition setIsUploading (b : bool) (m : Modal) : Modal :=
  {| formData := formData m; videoFile := videoFile m;
     thumbnailFile := thumbnailFile m;
     isUploading := b; uploadProgress := uploadProgress m |}.

Definition setUploadProgress (p : N) (m : Modal) : Modal :=
  {| formData := formData m; videoFile := videoFile m;
     thumbnailFile := thumbnailFile m;
     isUploading := isUploading m; uploadProgress := p |}.

Definition setFormData (d : FormData) (m : Modal) : Modal :=
  {| formData := d; videoFile := videoFile m; thumbnailFile := thumbnailFile m;
     isUploading := isUploading m; uploadProgress := uploadProgress m |}.

Definition emptyForm : FormData :=
  {| title := ""; description := ""; category := "entertainment";
     tags := ""; quality := "1080p" |}.

(** The dialog-level ceiling of [handleVideoFileChange]: 500 * 1024 * 1024. *)
Definition dialogMaxSize : N := 524288000.

(** [maxSize] of [handleSubmit]: 100 * 1024 * 1024. *)
Definition maxSize : N := 104857600.

(** [handleVideoFileChange], given [e.target.files?.[0]]. *)
Definition handleVideoFileChange (file0 : option File) : Async App unit :=
  match file0 with
  | None => resolve tt
  | Some file =>
      if (dialogMaxSize <? file_size file)%N
      then emit (ToastError "Video file size should be less than 500MB")
      else if negb (startsWith (file_type file) "video/")
      then emit (ToastError "Please select a valid video file")
      else setModal (setVideoFile (Some file))
  end.

Definition handleThumbnailFileChange (file0 : option File) : Async App unit :=
  match file0 with
  | None => resolve tt
  | Some file =>
      if negb (startsWith (file_type file) "image/")
      then emit (ToastError "Please select a valid image file")
      else setModal (setThumbnailFile (Some file))
  end.

(** [simulateUpload]: the progress bar is driven up to 100 (by random
    increments on a timer, of which only the final value is kept here). *)
Definition simulateUpload : Async App unit := setModal (setUploadProgress 100).

(** The thumbnail step: a supplied image is encoded inline, otherwise a frame
    is sampled, with the placeholder when sampling fails. *)
Definition deriveThumbnail (b : UploadBrowser) (video : File)
    (thumbnail : option File) : Async App string :=
  match thumbnail with
  | Some image =>
      emit (ReadAsDataURL image) ;;;
      awaited (readAsDataURL b image)
  | None =>
      try_catch
        (emit (GenerateVideoThumbnail video) ;;;
         awaited (generateVideoThumbnail b video))
        (fun _ => resolve "/default-thumbnail.jpg")
  end.

(** The [catch] block of [handleSubmit]. *)
Definition uploadFailed (error : Thrown) : Async App unit :=
  match error with
  | JsError message =>
      if includes message "quota" || includes message "storage"
      then emit (ToastError ("Storage error: " +:+ message))
      else if includes message "thumbnail"
      then emit (ToastError "Failed to generate video thumbnail. Please try with a smaller video file.")
      else if includes message "duration"
      then emit (ToastError "Failed to extract video duration. Please try with a different video format.")
      else emit (ToastError ("Upload failed: " +:+ message))
  | JsOther => emit (ToastError "Failed to upload video. Please try again.")
  end.

(** The [try] block of [handleSubmit], for the video file, thumbnail file
    and form captured when the handler was created. *)
Definition upload `{VideoUtils} (user : AuthUser) (b : UploadBrowser)
    (video : File) (thumbnail : option File) (form : FormData) : Async App unit :=
  simulateUpload ;;;
  thumbnailUrl <- deriveThumbnail b video thumbnail ;;
  actualDuration <- (emit (GetVideoDuration video) ;;;
                     awaited (getVideoDuration b video)) ;;
  videoId <- onStore (storeVideoFile (idb b) video (title form) (description form)
                        actualDuration thumbnailUrl) ;;
  let storedVideoUrl := "stored://" +:+ videoId in
  let videoData :=
    {| p_title := Some (title form);
       p_description := Some (description form);
       p_category := Some (category form);
       p_tags := Some (List.filter (fun tag => truthy tag)
                         (List.map (fun tag => trim tag) (split "," (tags form))));
       p_quality := Some [quality form];
       p_creator := Some {| creator_name := user_name user;
                            creator_avatar :=
                              or_else (default "" (user_avatar user)) "/default-avatar.png";
                            creator_subscribers := 0 |};
       p_videoUrl := Some storedVideoUrl;
       p_thumbnail := Some thumbnailUrl;
       p_duration := Some (formatDuration actualDuration);
       p_uploadDate := Some (today b) |} in
  onCatalog (VideoService.uploadVideo (catalog_now b) videoData) ;;;
  emit (ToastSuccess "Video uploaded successfully!") ;;;
  emit TriggerRefresh ;;;
  setModal (setFormData emptyForm) ;;;
  setModal (setVideoFile None) ;;;
  setModal (setThumbnailFile None) ;;;
  setModal (setUploadProgress 0) ;;;
  emit OnVideoUploaded ;;;
  emit OnClose.

(** [handleSubmit], for the [user] the auth context gives. *)
Definition handleSubmit `{VideoUtils} (user : option AuthUser) (b : UploadBrowser)
  : Async App unit :=
  fun w =>
    match user with
    | None => emit (ToastError "Please log in to upload videos") w
    | Some u =>
        match videoFile (modal w) with
        | None => emit (ToastError "Please select a video file") w
        | Some video =>
            if negb (truthy (trim (title (formData (modal w)))))
            then emit (ToastError "Please enter a video title") w
            else if (maxSize <? file_size video)%N
            then emit (ToastError "Video file is too large. Maximum size is 100MB.") w
            else if negb (startsWith (file_type video) "video/")
            then emit (ToastError "Please select a valid video file") w
            else
              (setModal (setIsUploading true) ;;;
               setModal (setUploadProgress 0) ;;;
               try_finally
                 (try_catch
                    (upload u b video (thumbnailFile (modal w)) (formData (modal w)))
                    uploadFailed)
                 (setModal (setIsUploading false))) w
        end
    end.

(** The message of the first check of [handleSubmit] that turns the
    submission down, if one does. *)
Definition rejection (user : option AuthUser) (m : Modal) : option string :=
  match user with
  | None => Some "Please log in to upload videos"
  | Some _ =>
      match videoFile m with
      | None => Some "Please select a video file"
      | Some video =>
          if negb (truthy (trim (title (formData m))))
          then Some "Please enter a video title"
          else if (maxSize <? file_size video)%N
          then Some "Video file is too large. Maximum size is 100MB."
          else if negb (startsWith (file_type video) "video/")
          then Some "Please select a valid video file"
          else None
      end
  end.

(** The messages with which [handleSubmit] turns a submission down before
    it starts uploading. *)
Definition validationMessages : list string :=
  [ "Please log in to upload videos";
    "Please select a video file";
    "Please enter a video title";
    "Video file is too large. Maximum size is 100MB.";
    "Please select a valid video file" ].

(** The two calls that derive a thumbnail. *)
Definition derivesThumbnail (e : Effect) : bool :=
  match e with
  | ReadAsDataURL _ | GenerateVideoThumbnail _ => true
  | _ => false
  end.

(** The thumbnail [handleSubmit] ends up with, if it gets one: the inline
    encoding of the supplied image, else the sampled frame or, failing that,
    the placeholder. *)
Definition thumbnailOutcome (b : UploadBrowser) (video : File)
    (thumbnail : option File) : option string :=
  match thumbnail with
  | Some image =>
      match readAsDataURL b image with
      | Resolved dataUrl => Some dataUrl
      | _ => None
      end
  | None =>
      match generateVideoThumbnail b video with
      | Resolved url => Some url
      | Rejected _ => Some "/default-thumbnail.jpg"
      | Pending => None
      end
  end.

(** Whether [handleSubmit] waits for ever: on the reading of the supplied
    image or on the frame sampling or, the thumbnail step over without a
    throw, on the duration extraction. *)
Definition stalls (b : UploadBrowser) (video : File) (thumbnail : option File) : bool :=
  match thumbnail with
  | Some image =>
      match readAsDataURL b image with
      | Resolved _ => isPending (getVideoDuration b video)
      | Rejected _ => false
      | Pending => true
      end
  | None =>
      match generateVideoThumbnail b video with
      | Pending => true
      | _ => isPending (getVideoDuration b video)
      end
  end.

(** The call that derives it. *)
Definition thumbnailCall (video : File) (thumbnail : option File) : Effect :=
  match thumbnail with
  | Some image => ReadAsDataURL image
  | None => GenerateVideoThumbnail video
  end.

(** [formData.tags.split(',').map(tag => tag.trim()).filter(tag => tag)]. *)
Definition parsedTags (form : FormData) : list string :=
  List.filter (fun tag => truthy tag)
    (List.map (fun tag => trim tag) (split "," (tags form))).

(** The catalog entry [uploadVideo] builds for an upload by [user] of the
    form [form], stored under [videoId]. *)
Definition entryOf `{VideoUtils} (user : AuthUser) (b : UploadBrowser) (form : FormData)
    (videoId thumbnailUrl : string) (duration : Q) : Video :=
  {| video_id := toString (Z.of_N (catalog_now b));
     video_title := title form;
     video_description := description form;
     video_thumbnail := or_else thumbnailUrl "/default-thumbnail.jpg";
     videoUrl := "stored://" +:+ videoId;
     video_duration := or_else (formatDuration duration) "5:30";
     views := 0;
     likes := 0;
     video_uploadDate := or_else (today b) (formatUploadDate (catalog_now b));
     video_tags := parsedTags form;
     video_category := or_else (category form) "Entertainment";
     video_quality := [quality form];
     video_creator :=
       {| creator_name := user_name user;
          creator_avatar := or_else (default "" (user_avatar user)) "/default-avatar.png";
          creator_subscribers := 0 |} |}.

(** The dialog as it is left by an upload that went through. *)
Definition closedDialog : Modal :=
  {| formData := emptyForm; videoFile := None; thumbnailFile := None;
     isUploading := false; uploadProgress := 0 |}.

End VideoUploadModal.

(* ===================================================================== *)
(** ** services/UserService: wishlist and watch history in localStorage *)
(* ===================================================================== *)

Module UserService.

(** The entries of [localStorage] this service owns. Each holds the JSON
    text of an array of video ids, written by [JSON.stringify] and read back
    by [JSON.parse]; an entry is represented by the array it encodes. *)
Abbreviation LocalStorage := (gmap string (list string)).

(** [localStorage.setItem], which throws when the browser refuses the write
    (the quota is exhausted, say): [ok] tells which. *)
Definition setItem (ok : bool) (key : string) (value : list string)
  : Async LocalStorage unit :=
  fun ls => if ok then (Resolved tt, <[key := value]> ls)
            else (Rejected (JsError "QuotaExceededError"), ls).

(** [saved ? JSON.parse(saved) : []] on [localStorage.getItem(key)]. *)
Definition getItemOrEmpty (key : string) : Async LocalStorage (list string) :=
  fun ls => (Resolved (default [] (ls !! key)), ls).

(** [array.includes(x)]. *)
Definition array_includes (array : list string) (x : string) : bool :=
  bool_decide (x ∈ array).

(** [array.filter(id => id !== x)]. *)
Definition without (x : string) (array : list string) : list string :=
  List.filter (fun id => negb (String.eqb id x)) array.

Definition getUserWishlist (userId : string) : Async LocalStorage (list string) :=
  try_catch
    (getItemOrEmpty ("wishlist_" +:+ userId))
    (fun _ => reject (JsError "Failed to fetch wishlist")).

Definition addToWishlist (ok : bool) (userId videoId : string)
  : Async LocalStorage unit :=
  try_catch
    (wishlist <- getUserWishlist userId ;;
     if negb (array_includes wishlist videoId)
     then setItem ok ("wishlist_" +:+ userId) (wishlist ++ [videoId])%list
     else resolve tt)
    (fun _ => reject (JsError "Failed to add to wishlist")).

Definition removeFromWishlist (ok : bool) (userId videoId : string)
  : Async LocalStorage unit :=
  try_catch
    (wishlist <- getUserWishlist userId ;;
     setItem ok ("wishlist_" +:+ userId) (without videoId wishlist))
    (fun _ => reject (JsError "Failed to remove from wishlist")).

Definition getWatchHistory (userId : string) : Async LocalStorage (list string) :=
  try_catch
    (getItemOrEmpty ("watchHistory_" +:+ userId))
    (fun _ => reject (JsError "Failed to fetch watch history")).

Definition addToWatchHistory (ok : bool) (userId videoId : string)
  : Async LocalStorage unit :=
  try_catch
    (history <- getWatchHistory userId ;;
     let filteredHistory := without videoId history in
     let updatedHistory := take 50 (videoId :: filteredHistory) in
     setItem ok ("watchHistory_" +:+ userId) updatedHistory)
    (fun _ => reject (JsError "Failed to add to watch history")).

(** The wishlist [getUserWishlist] reads for a user. *)
Definition storedWishlist (userId : string) (ls : LocalStorage) : list string :=
  default [] (ls !! ("wishlist_" +:+ userId)).

(** The history [getWatchHistory] reads for a user. *)
Definition storedHistory (userId : string) (ls : LocalStorage) : list string :=
  default [] (ls !! ("watchHistory_" +:+ userId)).

(** Every list in storage is free of duplicates. *)
Definition allNoDup (ls : LocalStorage) : Prop :=
  forall key l, ls !! key = Some l -> NoDup l.

(** Calls that write a wishlist, and a run of them one after the other. *)
Inductive WishlistCall : Type :=
| Add (ok : bool) (userId videoId : string)
| Remove (ok : bool) (userId videoId : string).

Definition perform (c : WishlistCall) : Async LocalStorage unit :=
  match c with
  | Add ok userId videoId => addToWishlist ok userId videoId
  | Remove ok userId videoId => removeFromWishlist ok userId videoId
  end.

Fixpoint performAll (calls : list WishlistCall) (ls : LocalStorage) : LocalStorage :=
  match calls with
  | [] => ls
  | c :: rest => performAll rest (snd (perform c ls))
  end.

End UserService.

(* ===================================================================== *)
(** ** hooks/useVideoDatabase: the lists a page sees *)
(* ===================================================================== *)

Module useVideoDatabase.

Import UserService.

(** What [useAuth] gives the hook. *)
Record Auth : Type := {
  user : option AuthUser;
  isAuthenticated : bool
}.

(** The hook's two lists, with the localStorage behind [UserService] and
    the toasts shown. *)
Record Hook : Type := {
  wishlist : list string;
  watchHistory : list string;
  localStorage : LocalStorage;
  toasts : list (bool * string)      (* (is it an error, message) *)
}.

Definition setWishlist (f : list string -> list string) : Async Hook unit :=
  fun h => (Resolved tt,
            {| wishlist := f (wishlist h); watchHistory := watchHistory h;
               localStorage := localStorage h; toasts := toasts h |}).

Definition setWatchHistory (f : list string -> list string) : Async Hook unit :=
  fun h => (Resolved tt,
            {| wishlist := wishlist h; watchHistory := f (watchHistory h);
               localStorage := localStorage h; toasts := toasts h |}).

Definition toast (error : bool) (message : string) : Async Hook unit :=
  fun h => (Resolved tt,
            {| wishlist := wishlist h; watchHistory := watchHistory h;
               localStorage := localStorage h;
               toasts := (toasts h ++ [(error, message)])%list |}).

(** A call into [UserService]. *)
Definition onUserService {A} (c : Async LocalStorage A) : Async Hook A :=
  fun h => let '(r, ls) := c (localStorage h) in
           (r, {| wishlist := wishlist h; watchHistory := watchHistory h;
                  localStorage := ls; toasts := toasts h |}).

(** A read of [UserService] that took place when localStorage was
    [earlier]. *)
Definition readFrom {A} (earlier : LocalStorage) (c : Async LocalStorage A)
  : Async Hook A :=
  fun h => (fst (c earlier), h).

(** [loadUserData]. Its two reads wait on two timers: the wishlist is read
    first, from localStorage as it was then ([earlier]), the history last,
    in the task in which the two lists are set. *)
Definition loadUserDataFrom (earlier : LocalStorage) (a : Auth) : Async Hook unit :=
  match user a with
  | None => resolve tt
  | Some u =>
      try_catch
        (userWishlist <- readFrom earlier (getUserWishlist (user_id u)) ;;
         userHistory <- onUserService (getWatchHistory (user_id u)) ;;
         setWishlist (fun _ => userWishlist) ;;;
         setWatchHistory (fun _ => userHistory))
        (fun _ => resolve tt)
  end.

(** [loadUserData] with nothing written between its two reads. *)
Definition loadUserData (a : Auth) : Async Hook unit :=
  fun h => loadUserDataFrom (localStorage h) a h.

(** The effect that runs when the auth context changes. *)
Definition authEffect (a : Auth) : Async Hook unit :=
  match user a with
  | Some _ =>
      if isAuthenticated a then loadUserData a
      else (setWishlist (fun _ => []) ;;; setWatchHistory (fun _ => []))
  | None => setWishlist (fun _ => []) ;;; setWatchHistory (fun _ => [])
  end.

(** The hook's [addToWishlist]: a toggle. [ok] is whether localStorage
    takes the write. The handler tests the wishlist of the render it was
    made in, [shown]; when the call of [UserService] has returned, in the
    same task, it updates the wishlist the hook holds by then. *)
Definition addToWishlistFrom (shown : list string) (a : Auth) (ok : bool)
    (videoId : string) : Async Hook unit :=
  match user a with
  | Some u =>
      if negb (isAuthenticated a)
      then toast true "Please login to add videos to wishlist"
      else
        try_catch
          (if array_includes shown videoId
           then (onUserService (removeFromWishlist ok (user_id u) videoId) ;;;
                 setWishlist (fun prev => without videoId prev) ;;;
                 toast false "Removed from wishlist")
           else (onUserService (UserService.addToWishlist ok (user_id u) videoId) ;;;
                 setWishlist (fun prev => (prev ++ [videoId])%list) ;;;
                 toast false "Added to wishlist"))
          (fun _ => toast true "Failed to update wishlist")
  | None => toast true "Please login to add videos to wishlist"
  end.

(** The toggle made in the render that shows the wishlist the hook holds,
    with no other call under way. *)
Definition addToWishlist (a : Auth) (ok : bool) (videoId : string) : Async Hook unit :=
  fun h => addToWishlistFrom (wishlist h) a ok videoId h.

(** The hook's [addToWatchHistory]. *)
Definition addToWatchHistory (a : Auth) (ok : bool) (videoId : string) : Async Hook unit :=
  match user a with
  | Some u =>
      if negb (isAuthenticated a) then resolve tt
      else
        try_catch
          (onUserService (UserService.addToWatchHistory ok (user_id u) videoId) ;;;
           setWatchHistory (fun prev =>
             let filtered := without videoId prev in
             take 50 (videoId :: filtered)))
          (fun _ => resolve tt)
  | None => resolve tt
  end.

(** The component is mounted anew (a page load): the lists start empty,
    localStorage is what it was. *)
Definition remount : Async Hook unit :=
  setWishlist (fun _ => []) ;;; setWatchHistory (fun _ => []).

(** What can happen to the hook, one event at a time. *)
Inductive Event : Type :=
| Remounted
| AuthChanged (a : Auth)
| ToggleWishlist (a : Auth) (ok : bool) (videoId : string)
| Watched (a : Auth) (ok : bool) (videoId : string).

Definition handle (e : Event) : Async Hook unit :=
  match e with
  | Remounted => remount
  | AuthChanged a => authEffect a
  | ToggleWishlist a ok videoId => addToWishlist a ok videoId
  | Watched a ok videoId => addToWatchHistory a ok videoId
  end.

(** The hook as first rendered, over a browser profile that holds no list
    yet. *)
Definition initial : Hook :=
  {| wishlist := []; watchHistory := []; localStorage := ∅; toasts := [] |}.

(** A call of [UserService] made from elsewhere: by another component, or
    by a handler of this hook that was started before a remount. *)
Inductive ServiceCall : Type :=
| WishlistAdded (ok : bool) (userId videoId : string)
| WishlistRemoved (ok : bool) (userId videoId : string)
| HistoryAdded (ok : bool) (userId videoId : string).

Definition serve (c : ServiceCall) : Async Hook unit :=
  match c with
  | WishlistAdded ok userId videoId =>
      onUserService (UserService.addToWishlist ok userId videoId)
  | WishlistRemoved ok userId videoId =>
      onUserService (removeFromWishlist ok userId videoId)
  | HistoryAdded ok userId videoId =>
      onUserService (UserService.addToWatchHistory ok userId videoId)
  end.

(** The states the hook goes through. A handler takes effect in the task
    in which its call of [UserService] returns; what it read before (the
    wishlist of the render it was made in, the first read of a load) may by
    then be out of date, and is taken from any state reached. *)
Inductive reachable : Hook -> Prop :=
| reachable_initial : reachable initial
| reachable_step h e :
    reachable h -> reachable (snd (handle e h))
| reachable_toggle_late h0 h a ok videoId :
    reachable h0 -> reachable h ->
    reachable (snd (addToWishlistFrom (wishlist h0) a ok videoId h))
| reachable_load_late h0 h a :
    reachable h0 -> reachable h ->
    reachable (snd (loadUserDataFrom (localStorage h0) a h))
| reachable_elsewhere h c :
    reachable h -> reachable (snd (serve c h)).

(** A history key of localStorage. *)
Definition isHistoryKey (key : string) : Prop :=
  exists userId, key = "watchHistory_" +:+ userId.

(** What every list kept by [UserService] satisfies. *)
Definition wellKept (ls : LocalStorage) : Prop :=
  forall key l,
    ls !! key = Some l ->
    NoDup l /\ (isHistoryKey key -> (length l <= 50)%nat).

(** What the hook's history and the lists behind it satisfy. *)
Definition kept (h : Hook) : Prop :=
  NoDup (watchHistory h) /\
  (length (watchHistory h) <= 50)%nat /\
  wellKept (localStorage h).

Definition anonymous : Auth := {| user := None; isAuthenticated := false |}.

Definition loggedIn (u : AuthUser) : Auth :=
  {| user := Some u; isAuthenticated := true |}.

End useVideoDatabase.

(* ===================================================================== *)
(** ** Facts about text, used to tell what an error message contains *)
(* ===================================================================== *)

Module Text.

(** In [s] the character [first] is never followed by [second], and [s]
    does not end with [first]. *)
Fixpoint neverFollowedBy (first second : ascii) (s : string) : bool :=
  match s with
  | EmptyString => true
  | String c rest =>
      match rest with
      | EmptyString => negb (Ascii.eqb c first)
      | String d _ =>
          negb (Ascii.eqb c first && Ascii.eqb d second)
          && neverFollowedBy first second rest
      end
  end.

End Text.

(* ===================================================================== *)
(** ** components/VideoPlayer: from a playback reference to a playable URL *)
(* ===================================================================== *)

Module VideoPlayer.

Import IndexedDBStorageService.

Definition sampleVideos : list string :=
  [ "https://commondatastorage.googleapis.com/gtv-videos-bucket/sample/BigBuckBunny.mp4";
    "https://commondatastorage.googleapis.com/gtv-videos-bucket/sample/ElephantsDream.mp4";
    "https://commondatastorage.googleapis.com/gtv-videos-bucket/sample/ForBiggerBlazes.mp4";
    "https://commondatastorage.googleapis.com/gtv-videos-bucket/sample/ForBiggerEscapes.mp4";
    "https://commondatastorage.googleapis.com/gtv-videos-bucket/sample/ForBiggerFun.mp4";
    "https://commondatastorage.googleapis.com/gtv-videos-bucket/sample/SubpoenaFormerEscapes.mp4" ].

(** [sampleVideos[0]]. *)
Definition firstSample : string :=
  "https://commondatastorage.googleapis.com/gtv-videos-bucket/sample/BigBuckBunny.mp4".

(** [s] without its first [n] characters. *)
Fixpoint dropChars (n : nat) (s : string) : string :=
  match n, s with
  | O, _ => s
  | S n', String _ rest => dropChars n' rest
  | S _, EmptyString => EmptyString
  end.

(** [s.replace(pattern, '')] for a string [pattern]: the first occurrence of
    the pattern is taken out. *)
Fixpoint removeFirst (s pattern : string) : string :=
  if String.prefix pattern s then dropChars (String.length pattern) s
  else match s with
       | EmptyString => EmptyString
       | String c rest => String c (removeFirst rest pattern)
       end.

(** What the browser answers while a reference is resolved. *)
Record PlayerBrowser : Type := {
  player_idb : Browser;         (* for getStoredVideoUrl *)
  random_sample : nat           (* Math.floor(Math.random() * sampleVideos.length) *)
}.

Definition getVideoUrl (b : PlayerBrowser) (originalUrl : string) : Async Service string :=
  if startsWith originalUrl "stored://"
  then
    let videoId := removeFirst originalUrl "stored://" in
    (blobUrl <- getStoredVideoUrl (player_idb b) videoId ;;
     resolve (VideoService.field_or blobUrl firstSample))
  else if startsWith originalUrl "blob:" then resolve originalUrl
  else if startsWith originalUrl "http" then resolve originalUrl
  else resolve (nth (random_sample b mod 6) sampleVideos firstSample).

(** The part of the player's state the resolution writes, with the blob
    store it reads. *)
Record Player : Type := {
  resolvedVideoUrl : string;
  isLoading : bool;
  service : Service
}.

Definition onService {A} (c : Async Service A) : Async Player A :=
  fun p => let '(r, s) := c (service p) in
           (r, {| resolvedVideoUrl := resolvedVideoUrl p;
                  isLoading := isLoading p; service := s |}).

Definition setIsLoading (loading : bool) : Async Player unit :=
  fun p => (Resolved tt,
            {| resolvedVideoUrl := resolvedVideoUrl p;
               isLoading := loading; service := service p |}).

Definition setResolvedVideoUrl (url : string) : Async Player unit :=
  fun p => (Resolved tt,
            {| resolvedVideoUrl := url;
               isLoading := isLoading p; service := service p |}).

(** [resolveVideoUrl], run when the [videoUrl] prop changes. *)
Definition resolveVideoUrl (b : PlayerBrowser) (videoUrl : string) : Async Player unit :=
  setIsLoading true ;;;
  try_catch
    (url <- onService (getVideoUrl b videoUrl) ;;
     setResolvedVideoUrl url)
    (fun _ => setResolvedVideoUrl firstSample).

End VideoPlayer.

(* ===================================================================== *)
(** ** hooks/useVideoDatabase and services/VideoService: the video list and
       the objects it shares with the catalog *)
(* ===================================================================== *)

Module VideoList.

Import useVideoDatabase.

(** Video objects live on a heap; arrays and state variables hold
    references to them. A reference is an index into the heap, and a new
    object is put at its end. *)
Abbreviation Ref := nat.

(** The array the hook's [videos] state holds: the very array
    [VideoService.mockVideos] ([getAllVideos] returns it, not a copy), or an
    array of the hook's own. *)
Inductive VideosArray : Type :=
| ServiceArray
| OwnArray (items : list Ref).

Record World : Type := {
  objects : list Video;              (* the heap *)
  mockVideos : list Ref;             (* VideoService's array *)
  videos : VideosArray;              (* the hook's state *)
  loading : bool;
  toasts : list (bool * string)      (* (is it an error, message) *)
}.

(** The references in the hook's [videos]. *)
Definition items (w : World) : list Ref :=
  match videos w with
  | ServiceArray => mockVideos w
  | OwnArray refs => refs
  end.

(** [n + 1] and [n++] on a count: the double nearest to the sum. *)
Definition increment (n : Z) : Z :=
  Z.sgn (n + 1) * IndexedDBStorageService.roundToDouble (Z.abs (n + 1)).

(** [{ ...video, likes }]. *)
Definition withLikes (n : Z) (video : Video) : Video :=
  {| video_id := video_id video; video_title := video_title video;
     video_description := video_description video;
     video_thumbnail := video_thumbnail video; videoUrl := videoUrl video;
     video_duration := video_duration video; views := views video; likes := n;
     video_uploadDate := video_uploadDate video; video_tags := video_tags video;
     video_category := video_category video; video_quality := video_quality video;
     video_creator := video_creator video |}.

(** [{ ...video, views }]. *)
Definition withViews (n : Z) (video : Video) : Video :=
  {| video_id := video_id video; video_title := video_title video;
     video_description := video_description video;
     video_thumbnail := video_thumbnail video; videoUrl := videoUrl video;
     video_duration := video_duration video; views := n; likes := likes video;
     video_uploadDate := video_uploadDate video; video_tags := video_tags video;
     video_category := video_category video; video_quality := video_quality video;
     video_creator := video_creator video |}.

(** [v.id === id] on the object behind a reference. *)
Definition hasId (objs : list Video) (id : string) (r : Ref) : bool :=
  match objs !! r with
  | Some video => String.eqb (video_id video) id
  | None => false
  end.

Definition setObjects (objs : list Video) : Async World unit :=
  fun w => (Resolved tt,
            {| objects := objs; mockVideos := mockVideos w; videos := videos w;
               loading := loading w; toasts := toasts w |}).

Definition setVideos (array : VideosArray) : Async World unit :=
  fun w => (Resolved tt,
            {| objects := objects w; mockVideos := mockVideos w; videos := array;
               loading := loading w; toasts := toasts w |}).

Definition setLoading (flag : bool) : Async World unit :=
  fun w => (Resolved tt,
            {| objects := objects w; mockVideos := mockVideos w; videos := videos w;
               loading := flag; toasts := toasts w |}).

Definition toast (error : bool) (message : string) : Async World unit :=
  fun w => (Resolved tt,
            {| objects := objects w; mockVideos := mockVideos w; videos := videos w;
               loading := loading w;
               toasts := (toasts w ++ [(error, message)])%list |}).

(** The methods of [VideoService] that hand out or write the catalog's
    objects. *)
Module Service.

Definition getAllVideos : Async World VideosArray :=
  try_catch
    (resolve ServiceArray)
    (fun _ => reject (JsError "Failed to fetch videos")).

(** [likeVideo]: [video.likes++] on the first object with that id. *)
Definition likeVideo (videoId userId : string) : Async World unit :=
  try_catch
    (fun w =>
       match List.find (hasId (objects w) videoId) (mockVideos w) with
       | Some r =>
           setObjects
             (alter (fun video => withLikes (increment (likes video)) video) r (objects w))
             w
       | None => (Resolved tt, w)
       end)
    (fun _ => reject (JsError "Failed to like video")).

(** [incrementViews]: [video.views++] on the first object with that id. *)
Definition incrementViews (videoId : string) : Async World unit :=
  try_catch
    (fun w =>
       match List.find (hasId (objects w) videoId) (mockVideos w) with
       | Some r =>
           setObjects
             (alter (fun video => withViews (increment (views video)) video) r (objects w))
             w
       | None => (Resolved tt, w)
       end)
    (fun _ => reject (JsError "Failed to increment views")).

End Service.

(** [prev.map(video => video.id === videoId ? copy(video) : video)]: each
    object with that id is replaced by a new object, the others are kept. *)
Fixpoint mapCopy (videoId : string) (copy : Video -> Video) (refs : list Ref)
    (objs : list Video) : list Ref * list Video :=
  match refs with
  | [] => ([], objs)
  | r :: rest =>
      match objs !! r with
      | Some video =>
          if String.eqb (video_id video) videoId
          then let '(refs', objs') := mapCopy videoId copy rest (objs ++ [copy video])%list in
               (length objs :: refs', objs')
          else let '(refs', objs') := mapCopy videoId copy rest objs in
               (r :: refs', objs')
      | None =>
          let '(refs', objs') := mapCopy videoId copy rest objs in
          (r :: refs', objs')
      end
  end.

(** [setVideos(prev => prev.map(...))]. *)
Definition setVideosMap (videoId : string) (copy : Video -> Video) : Async World unit :=
  fun w =>
    let '(refs, objs) := mapCopy videoId copy (items w) (objects w) in
    (Resolved tt,
     {| objects := objs; mockVideos := mockVideos w; videos := OwnArray refs;
        loading := loading w; toasts := toasts w |}).

Definition loadVideos : Async World unit :=
  setLoading true ;;;
  try_finally
    (try_catch
       (data <- Service.getAllVideos ;;
        setVideos data)
       (fun _ => toast true "Failed to load videos"))
    (setLoading false).

(** The hook's [likeVideo]. *)
Definition likeVideo (a : Auth) (videoId : string) : Async World unit :=
  match user a with
  | Some u =>
      if negb (isAuthenticated a) then toast true "Please login to like videos"
      else
        try_catch
          (Service.likeVideo videoId (user_id u) ;;;
           setVideosMap videoId (fun video => withLikes (increment (likes video)) video) ;;;
           toast false "Video liked!")
          (fun _ => toast true "Failed to like video")
  | None => toast true "Please login to like videos"
  end.

(** The hook's [incrementViews]. *)
Definition incrementViews (videoId : string) : Async World unit :=
  try_catch
    (Service.incrementViews videoId ;;;
     setVideosMap videoId (fun video => withViews (increment (views video)) video))
    (fun _ => resolve tt).

(** The object the hook's [videos] shows in a place. *)
Definition shown (w : World) (place : nat) : option Video :=
  r ← items w !! place; objects w !! r.

(** The object the catalog holds in a place. *)
Definition inCatalog (w : World) (place : nat) : option Video :=
  r ← mockVideos w !! place; objects w !! r.

End VideoList.

(* ===================================================================== *)
(** ** services/AuthService: the mock sign-in *)
(* ===================================================================== *)

Module AuthService.

Record LoginCredentials : Type := {
  email : string;
  password : string
}.

Record RegisterCredentials : Type := {
  r_name : string;
  r_email : string;
  r_password : string;
  confirmPassword : string
}.

(** What the platform answers during a call. *)
Record Platform : Type := {
  now : N;                     (* Date.now(), read for the user's id *)
  tokenNow : N;                (* Date.now(), read for the payload's userId *)
  tokenTimestamp : N;          (* Date.now(), read for the payload's timestamp *)
  (* btoa(JSON.stringify({ userId, timestamp })) *)
  encodePayload : string -> N -> string;
  encodeURIComponent : string -> string;
  (* JSON.parse(atob(token)).userId: nothing when one of the three throws,
     else the field, if the payload has one *)
  payloadUserId : string -> option (option string)
}.

Definition generateMockToken (p : Platform) : string :=
  encodePayload p (toString (Z.of_N (tokenNow p))) (tokenTimestamp p).

Definition demoAvatar : string :=
  "https://images.pexels.com/photos/1040880/pexels-photo-1040880.jpeg?auto=compress&cs=tinysrgb&w=150&h=150&dpr=1".

Definition generatedAvatar (p : Platform) (name : string) : string :=
  "https://ui-avatars.com/api/?name=" +:+ encodeURIComponent p name
    +:+ "&background=0891b2&color=fff".

(** [email.split('@')[0]]. *)
Definition localPart (email : string) : string :=
  List.hd "" (split "@" email).

(** [catch (error) { throw new Error(error instanceof Error ? error.message
    : fallback) }]. *)
Definition rethrow {S A} (fallback : string) (error : Thrown) : Async S A :=
  reject (JsError (match error with JsError message => message | JsOther => fallback end)).

Definition login {S} (p : Platform) (credentials : LoginCredentials) : Async S AuthUser :=
  try_catch
    (if String.eqb (email credentials) "demo@streamflix.com"
        && String.eqb (password credentials) "demo123"
     then resolve {| user_id := "1"; user_name := "Demo User";
                     user_email := email credentials;
                     user_avatar := Some demoAvatar;
                     user_token := generateMockToken p |}
     else if includes (email credentials) "@"
             && Nat.leb 6 (string_length (password credentials))
     then resolve {| user_id := toString (Z.of_N (now p));
                     user_name := localPart (email credentials);
                     user_email := email credentials;
                     user_avatar :=
                       Some (generatedAvatar p (localPart (email credentials)));
                     user_token := generateMockToken p |}
     else reject (JsError "Invalid email or password"))
    (rethrow "Login failed").

Definition register {S} (p : Platform) (credentials : RegisterCredentials)
  : Async S AuthUser :=
  try_catch
    (if negb (String.eqb (r_password credentials) (confirmPassword credentials))
     then reject (JsError "Passwords do not match")
     else if Nat.ltb (string_length (r_password credentials)) 6
     then reject (JsError "Password must be at least 6 characters long")
     else if negb (includes (r_email credentials) "@")
     then reject (JsError "Please enter a valid email address")
     else resolve {| user_id := toString (Z.of_N (now p));
                     user_name := r_name credentials;
                     user_email := r_email credentials;
                     user_avatar := Some (generatedAvatar p (r_name credentials));
                     user_token := generateMockToken p |})
    (rethrow "Registration failed").

Definition decodeToken {S} (p : Platform) (token : string) : Async S AuthUser :=
  try_catch
    (match payloadUserId p token with
     | Some userId =>
         resolve {| user_id := VideoService.field_or userId "1";
                    user_name := "Demo User";
                    user_email := "demo@streamflix.com";
                    user_avatar := Some demoAvatar;
                    user_token := token |}
     | None => reject JsOther
     end)
    (fun _ => reject (JsError "Invalid token format")).

Definition validateToken {S} (p : Platform) (token : string) : Async S AuthUser :=
  try_catch
    (if negb (truthy token) || String.eqb token "invalid"
     then reject (JsError "Invalid token")
     else decodeToken p token)
    (fun _ => reject (JsError "Token validation failed")).

End AuthService.

(* ===================================================================== *)
(** ** contexts/AuthContext: the reducer and the provider *)
(* ===================================================================== *)

Module AuthContext.

Import AuthService.

Record AuthState : Type := {
  user : option AuthUser;
  isAuthenticated : bool;
  isLoading : bool;
  error : option string
}.

Inductive AuthAction : Type :=
| AUTH_START
| AUTH_SUCCESS (payload : AuthUser)
| AUTH_ERROR (payload : string)
| AUTH_LOGOUT
| CLEAR_ERROR.

Definition authReducer (state : AuthState) (action : AuthAction) : AuthState :=
  match action with
  | AUTH_START =>
      {| user := user state; isAuthenticated := isAuthenticated state;
         isLoading := true; error := None |}
  | AUTH_SUCCESS payload =>
      {| user := Some payload; isAuthenticated := true; isLoading := false;
         error := None |}
  | AUTH_ERROR payload =>
      {| user := None; isAuthenticated := false; isLoading := false;
         error := Some payload |}
  | AUTH_LOGOUT =>
      {| user := None; isAuthenticated := false; isLoading := false; error := None |}
  | CLEAR_ERROR =>
      {| user := user state; isAuthenticated := isAuthenticated state;
         isLoading := isLoading state; error := None |}
  end.

Definition initialState : AuthState :=
  {| user := None; isAuthenticated := false; isLoading := true; error := None |}.

(** The provider's reducer state, the [authToken] entry of localStorage and
    the toasts shown. *)
Record Provider : Type := {
  state : AuthState;
  authToken : option string;
  toasts : list (bool * string)      (* (is it an error, message) *)
}.

Definition dispatch (action : AuthAction) : Async Provider unit :=
  fun p => (Resolved tt,
            {| state := authReducer (state p) action; authToken := authToken p;
               toasts := toasts p |}).

(** [localStorage.setItem('authToken', token)]; [refused] is what the call
    throws when localStorage does not take the write. *)
Definition setItem (refused : option Thrown) (token : string) : Async Provider unit :=
  fun p => match refused with
           | None => (Resolved tt,
                      {| state := state p; authToken := Some token; toasts := toasts p |})
           | Some thrown => (Rejected thrown, p)
           end.

Definition removeItem : Async Provider unit :=
  fun p => (Resolved tt, {| state := state p; authToken := None; toasts := toasts p |}).

Definition toast (failure : bool) (message : string) : Async Provider unit :=
  fun p => (Resolved tt,
            {| state := state p; authToken := authToken p;
               toasts := (toasts p ++ [(failure, message)])%list |}).

(** [error instanceof Error ? error.message : fallback]. *)
Definition messageOf (thrown : Thrown) (fallback : string) : string :=
  match thrown with JsError message => message | JsOther => fallback end.

(** The effect run when the provider mounts. *)
Definition initAuth (p : Platform) : Async Provider unit :=
  try_catch
    (fun s =>
       match authToken s with
       | Some token =>
           if truthy token
           then (u <- validateToken p token ;;
                 dispatch (AUTH_SUCCESS u)) s
           else dispatch AUTH_LOGOUT s
       | None => dispatch AUTH_LOGOUT s
       end)
    (fun _ => removeItem ;;; dispatch AUTH_LOGOUT).

Definition login (p : Platform) (refused : option Thrown)
    (credentials : LoginCredentials) : Async Provider unit :=
  dispatch AUTH_START ;;;
  try_catch
    (u <- AuthService.login p credentials ;;
     setItem refused (user_token u) ;;;
     dispatch (AUTH_SUCCESS u) ;;;
     toast false ("Welcome back, " +:+ user_name u +:+ "!"))
    (fun thrown =>
       let errorMessage := messageOf thrown "Login failed" in
       dispatch (AUTH_ERROR errorMessage) ;;;
       toast true errorMessage).

Definition register (p : Platform) (refused : option Thrown)
    (credentials : RegisterCredentials) : Async Provider unit :=
  dispatch AUTH_START ;;;
  try_catch
    (u <- AuthService.register p credentials ;;
     setItem refused (user_token u) ;;;
     dispatch (AUTH_SUCCESS u) ;;;
     toast false ("Welcome to SlimeTube, " +:+ user_name u +:+ "!"))
    (fun thrown =>
       let errorMessage := messageOf thrown "Registration failed" in
       dispatch (AUTH_ERROR errorMessage) ;;;
       toast true errorMessage).

Definition logout : Async Provider unit :=
  removeItem ;;; dispatch AUTH_LOGOUT ;;; toast false "Logged out successfully".

Definition clearError : Async Provider unit := dispatch CLEAR_ERROR.

(** What [useAuth] hands to [useVideoDatabase]. *)
Definition useAuth (p : Provider) : useVideoDatabase.Auth :=
  {| useVideoDatabase.user := user (state p);
     useVideoDatabase.isAuthenticated := isAuthenticated (state p) |}.

(** What can happen to the provider, one call at a time. *)
Inductive Event : Type :=
| Mounted (p : Platform)
| Login (p : Platform) (refused : option Thrown) (credentials : LoginCredentials)
| Register (p : Platform) (refused : option Thrown) (credentials : RegisterCredentials)
| Logout
| ClearError.

Definition handle (e : Event) : Async Provider unit :=
  match e with
  | Mounted p => initAuth p
  | Login p refused credentials => login p refused credentials
  | Register p refused credentials => register p refused credentials
  | Logout => logout
  | ClearError => clearError
  end.

(** Who is signed in is marked so and has the token in localStorage, and
    no error is shown beside a user. *)
Definition consistent (p : Provider) : Prop :=
  (isAuthenticated (state p) = true <-> is_Some (user (state p))) /\
  (forall u, user (state p) = Some u -> authToken p = Some (user_token u)) /\
  (is_Some (error (state p)) -> user (state p) = None).

(** The provider as first rendered, over whatever localStorage holds. *)
Definition started (token : option string) : Provider :=
  {| state := initialState; authToken := token; toasts := [] |}.

(** The states the provider goes through. *)
Inductive reachable : Provider -> Prop :=
| reachable_started token : reachable (started token)
| reachable_handled p e : reachable p -> reachable (snd (handle e p)).

End AuthContext.

(* ===================================================================== *)
(** ** components/Auth/AuthModal: submitting the form *)
(* ===================================================================== *)

Module AuthModal.

Import AuthService AuthContext.

Record FormData : Type := {
  form_name : string;
  form_email : string;
  form_password : string;
  form_confirmPassword : string
}.

(** The provider with the parent's [isOpen], which [onClose] clears. *)
Record Modal : Type := {
  provider : Provider;
  isOpen : bool
}.

Definition onProvider {A} (c : Async Provider A) : Async Modal A :=
  fun m => let '(r, p) := c (provider m) in
           (r, {| provider := p; isOpen := isOpen m |}).

Definition onClose : Async Modal unit :=
  fun m => (Resolved tt, {| provider := provider m; isOpen := false |}).

(** [handleSubmit]. The [error] it tests at the end is the one of the
    render the handler was made in, that is, of the state before the
    submission. *)
Definition handleSubmit (p : Platform) (refused : option Thrown) (isLogin : bool)
    (formData : FormData) : Async Modal unit :=
  fun m =>
    let error := error (state (provider m)) in
    (onProvider clearError ;;;
     (if isLogin
      then onProvider (login p refused
                         {| email := form_email formData;
                            password := form_password formData |})
      else onProvider (register p refused
                         {| r_name := form_name formData;
                            r_email := form_email formData;
                            r_password := form_password formData;
                            confirmPassword := form_confirmPassword formData |})) ;;;
     match error with
     | None => onClose
     | Some _ => resolve tt
     end) m.

End AuthModal.

(* ===================================================================== *)
(** ** Sample inputs *)
(* ===================================================================== *)

Module Sample.

Import IndexedDBStorageService.

#[export] Instance utils : VideoUtils :=
  {| formatUploadDate := fun now => toString (Z.of_N now);
     formatDuration := fun _ => "1:05" |}.

(** A browser in which every request succeeds. *)
Definition browser : Browser :=
  {| idb_open_ok := true;
     idb_request_ok := true;
     storage := EstimateResolves (Some 1000000000) (Some 0);
     date_now := 1700000000000;
     random_suffix := "k3j9x0a1b";
     createObjectURL := fun _ => "blob:http://localhost/0" |}.

(** A browser in which the database cannot be opened. *)
Definition browser_closed : Browser :=
  {| idb_open_ok := false;
     idb_request_ok := true;
     storage := NoStorageManager;
     date_now := 1700000000000;
     random_suffix := "k3j9x0a1b";
     createObjectURL := fun _ => "blob:http://localhost/0" |}.

(** A 2MB MP4. *)
Definition clip : File :=
  {| file_name := "clip.mp4"; file_type := "video/mp4"; file_size := 2097152 |}.

(** The service before its first use. *)
Definition fresh : Service := {| db := false; videos := ∅ |}.

(** The service after [clip] was stored. *)
Definition after_put : Service :=
  snd (storeVideoFile browser clip "Test" "" (0 # 1)%Q "/default-thumbnail.jpg" fresh).

Definition clip_id : string := "video_1700000000000_k3j9x0a1b".

Import VideoUploadModal.

Definition demo : AuthUser :=
  {| user_id := "1"; user_name := "Demo User"; user_email := "demo@streamflix.com";
     user_avatar := None; user_token := "token" |}.

(** The dialog with [clip] selected, titled "Test", no custom thumbnail. *)
Definition dialog : Modal :=
  {| formData := {| title := "Test"; description := ""; category := "entertainment";
                    tags := ""; quality := "1080p" |};
     videoFile := Some clip;
     thumbnailFile := None;
     isUploading := false;
     uploadProgress := 0 |}.

Definition app : App :=
  {| modal := dialog; store := fresh; catalog := []; effects := [] |}.

(** Every request succeeds, a frame is sampled, the clip lasts 65 seconds. *)
Definition upload_ok : UploadBrowser :=
  {| idb := browser;
     readAsDataURL := fun _ => Resolved "data:image/png;base64,AAAA";
     generateVideoThumbnail := fun _ => Resolved "data:image/jpeg;base64,BBBB";
     getVideoDuration := fun _ => Resolved (65 # 1)%Q;
     catalog_now := 1700000003000;
     today := "2023-11-14" |}.

(** As [upload_ok], but no frame can be sampled. *)
Definition upload_no_frame : UploadBrowser :=
  {| idb := browser;
     readAsDataURL := fun _ => Resolved "data:image/png;base64,AAAA";
     generateVideoThumbnail := fun _ => Rejected (JsError "Failed to load video");
     getVideoDuration := fun _ => Resolved (65 # 1)%Q;
     catalog_now := 1700000003000;
     today := "2023-11-14" |}.

(** As [upload_ok], but the media element does not report a duration. *)
Definition upload_no_duration : UploadBrowser :=
  {| idb := browser;
     readAsDataURL := fun _ => Resolved "data:image/png;base64,AAAA";
     generateVideoThumbnail := fun _ => Resolved "data:image/jpeg;base64,BBBB";
     getVideoDuration := fun _ => Rejected (JsError "Failed to get video duration");
     catalog_now := 1700000003000;
     today := "2023-11-14" |}.

(** As [upload_ok], but the media element never reports a duration, nor an
    error. *)
Definition upload_stalled : UploadBrowser :=
  {| idb := browser;
     readAsDataURL := fun _ => Resolved "data:image/png;base64,AAAA";
     generateVideoThumbnail := fun _ => Resolved "data:image/jpeg;base64,BBBB";
     getVideoDuration := fun _ => Pending;
     catalog_now := 1700000003000;
     today := "2023-11-14" |}.

(** As [upload_ok], but the database cannot be opened. *)
Definition upload_store_closed : UploadBrowser :=
  {| idb := browser_closed;
     readAsDataURL := fun _ => Resolved "data:image/png;base64,AAAA";
     generateVideoThumbnail := fun _ => Resolved "data:image/jpeg;base64,BBBB";
     getVideoDuration := fun _ => Resolved (65 # 1)%Q;
     catalog_now := 1700000003000;
     today := "2023-11-14" |}.

(** A 200MB MP4 and a 2MB PDF. *)
Definition film : File :=
  {| file_name := "film.mp4"; file_type := "video/mp4"; file_size := 209715200 |}.

Definition paper : File :=
  {| file_name := "paper.pdf"; file_type := "application/pdf"; file_size := 2097152 |}.

Definition app_with (file : File) : App :=
  {| modal := setVideoFile (Some file) dialog;
     store := fresh; catalog := []; effects := [] |}.

(** A localStorage in which user "1" has video "7" on the wishlist. *)
Definition wished : gmap string (list string) := {[ "wishlist_1" := ["7"] ]}.

(** A browser whose storage manager fails to estimate, and one with hardly
    any room left. *)
Definition browser_no_estimate : Browser :=
  {| idb_open_ok := true;
     idb_request_ok := true;
     storage := EstimateRejects JsOther;
     date_now := 1700000000000;
     random_suffix := "k3j9x0a1b";
     createObjectURL := fun _ => "blob:http://localhost/0" |}.

Definition browser_full : Browser :=
  {| idb_open_ok := true;
     idb_request_ok := true;
     storage := EstimateResolves (Some 1000) (Some 0);
     date_now := 1700000000000;
     random_suffix := "k3j9x0a1b";
     createObjectURL := fun _ => "blob:http://localhost/0" |}.

(** A custom thumbnail. *)
Definition poster : File :=
  {| file_name := "poster.png"; file_type := "image/png"; file_size := 1024 |}.

(** The app with a custom thumbnail chosen, after an earlier upload that
    sampled a frame. *)
Definition app_with_poster : App :=
  {| modal := setThumbnailFile (Some poster) dialog;
     store := fresh; catalog := []; effects := [GenerateVideoThumbnail clip] |}.

(** The app with tags typed in. *)
Definition app_tagged : App :=
  {| modal :=
       {| formData := {| title := "Test"; description := ""; category := "entertainment";
                         tags := " cats, ,dogs "; quality := "1080p" |};
          videoFile := Some clip;
          thumbnailFile := None;
          isUploading := false;
          uploadProgress := 0 |};
     store := fresh; catalog := []; effects := [] |}.

(** The store after the upload of [clip] by [upload_ok]. *)
Definition after_upload : Service :=
  snd (storeVideoFile browser clip "Test" "" (65 # 1)%Q "data:image/jpeg;base64,BBBB" fresh).

(** A player over the store that holds [clip]. *)
Definition player_browser : VideoPlayer.PlayerBrowser :=
  {| VideoPlayer.player_idb := browser; VideoPlayer.random_sample := 4%nat |}.

Definition player : VideoPlayer.Player :=
  {| VideoPlayer.resolvedVideoUrl := ""; VideoPlayer.isLoading := false;
     VideoPlayer.service := after_put |}.

(** The hook of user "1" with video "7" on the wishlist, in memory and in
    localStorage. *)
Definition hook_wished : useVideoDatabase.Hook :=
  {| useVideoDatabase.wishlist := ["7"]; useVideoDatabase.watchHistory := [];
     useVideoDatabase.localStorage := wished; useVideoDatabase.toasts := [] |}.

(** Two videos of a catalog. *)
Definition mountain : Video :=
  {| video_id := "1"; video_title := "Epic Mountain Adventure Documentary";
     video_description := ""; video_thumbnail := "/default-thumbnail.jpg";
     videoUrl := "https://commondatastorage.googleapis.com/gtv-videos-bucket/sample/BigBuckBunny.mp4";
     video_duration := "45:32"; views := 2847593; likes := 85432;
     video_uploadDate := "2024-01-15"; video_tags := ["adventure"];
     video_category := "Documentary"; video_quality := ["1080p"];
     video_creator := {| creator_name := "Adventure Seekers"; creator_avatar := "";
                         creator_subscribers := 1250000 |} |}.

Definition tutorial : Video :=
  {| video_id := "2"; video_title := "Modern Web Development Tutorial";
     video_description := ""; video_thumbnail := "/default-thumbnail.jpg";
     videoUrl := "https://commondatastorage.googleapis.com/gtv-videos-bucket/sample/ElephantsDream.mp4";
     video_duration := "1:23:45"; views := 1547230; likes := 67891;
     video_uploadDate := "2024-01-20"; video_tags := ["programming"];
     video_category := "Education"; video_quality := ["1080p"];
     video_creator := {| creator_name := "Code Academy Pro"; creator_avatar := "";
                         creator_subscribers := 890000 |} |}.

(** The catalog's objects before the hook has loaded them. *)
Definition world : VideoList.World :=
  {| VideoList.objects := [mountain; tutorial];
     VideoList.mockVideos := [0%nat; 1%nat];
     VideoList.videos := VideoList.OwnArray [];
     VideoList.loading := false;
     VideoList.toasts := [] |}.

(** A platform whose tokens are the payload's userId behind a fixed head. *)
Definition platform : AuthService.Platform :=
  {| AuthService.now := 1700000000000;
     AuthService.tokenNow := 1700000000001;
     AuthService.tokenTimestamp := 1700000000001;
     AuthService.encodePayload := fun userId _ => "eyJ" +:+ userId;
     AuthService.encodeURIComponent := fun s => s;
     AuthService.payloadUserId :=
       fun token => if startsWith token "eyJ"
                    then Some (Some (VideoPlayer.dropChars 3 token))
                    else None |}.

Definition demo_login : AuthService.LoginCredentials :=
  {| AuthService.email := "demo@streamflix.com"; AuthService.password := "demo123" |}.


Definition newcomer : AuthService.RegisterCredentials :=
  {| AuthService.r_name := "Ada"; AuthService.r_email := "ada@example.org";
     AuthService.r_password := "secret1"; AuthService.confirmPassword := "secret1" |}.

Definition ada_login : AuthService.LoginCredentials :=
  {| AuthService.email := "ada@example.org"; AuthService.password := "secret1" |}.

(** Text outside ASCII, by its UTF-8 bytes: a no-break space (U+00A0)
    followed by an ideographic space (U+3000); the letter e with an acute
    accent (U+00E9); a grinning face (U+1F600). *)
Definition wide_blank : string :=
  String (ascii_of_nat 194) (String (ascii_of_nat 160)
    (String (ascii_of_nat 227) (String (ascii_of_nat 128)
       (String (ascii_of_nat 128) EmptyString)))).

Definition e_acute : string :=
  String (ascii_of_nat 195) (String (ascii_of_nat 169) EmptyString).

Definition grinning_face : string :=
  String (ascii_of_nat 240) (String (ascii_of_nat 159)
    (String (ascii_of_nat 152) (String (ascii_of_nat 128) EmptyString))).

(** The dialog with [clip] selected and a title of wide blanks only. *)
Definition app_wide_blank_title : VideoUploadModal.App :=
  {| VideoUploadModal.modal :=
       VideoUploadModal.setFormData
         {| VideoUploadModal.title := wide_blank +:+ " " +:+ wide_blank;
            VideoUploadModal.description := "";
            VideoUploadModal.category := "entertainment";
            VideoUploadModal.tags := ""; VideoUploadModal.quality := "1080p" |}
         dialog;
     VideoUploadModal.store := fresh;
     VideoUploadModal.catalog := [];
     VideoUploadModal.effects := [] |}.

(** A password of five letters, three of them accented: eight bytes. *)
Definition accented_login : AuthService.LoginCredentials :=
  {| AuthService.email := "ada@example.org";
     AuthService.password := e_acute +:+ e_acute +:+ e_acute +:+ "ab" |}.



End Sample.

(* ===================================================================== *)
(** ** The blob store *)
(* ===================================================================== *)

Section BlobStore.

Import IndexedDBStorageService.
Context `{VideoUtils}.

Lemma ensureDB_resolves b s s' :
  ensureDB b s = (Resolved tt, s') ->
  db s' = true /\ videos s' = videos s /\ (db s = true -> s' = s).
Proof.
  unfold ensureDB, initDB.
  destruct (db s) eqn:Hdb.
  - intros [= <-]. auto.
  - destruct (idb_open_ok b); intros [= <-]; cbn; auto.
    repeat split; auto. discriminate.
Qed.

Lemma ensureDB_opens b s :
  db s = true \/ idb_open_ok b = true ->
  ensureDB b s = (Resolved tt, {| db := true; videos := videos s |}).
Proof.
  unfold ensureDB, initDB. destruct s as [d m]; cbn.
  destruct d; [reflexivity|].
  intros [|Hopen]; [discriminate|]. now rewrite Hopen.
Qed.

(** When [storeVideoFile] resolves, it resolves with the id it generated,
    the id was free, and the store gained exactly the new record. *)
Lemma storeVideoFile_resolved b file title description duration thumbnail s videoId s' :
  storeVideoFile b file title description duration thumbnail s = (Resolved videoId, s') ->
  videoId = newVideoId b /\
  videos s !! videoId = None /\
  s' = {| db := true;
          videos := <[videoId := recordOf b file title description duration thumbnail]>
                      (videos s) |}.
Proof.
  unfold storeVideoFile, bind.
  destruct (ensureDB b s) as [[[]|e|] s1] eqn:He; [|discriminate..].
  apply ensureDB_resolves in He as (Hdb & Hv & _).
  rewrite Hdb; cbn.
  unfold checkQuota.
  destruct (storage b) as [|e|quota usage]; cbn; try discriminate.
  - unfold store_add, resolve; cbn.
    destruct (videos s1 !! newVideoId b) eqn:Hfree; [discriminate|].
    destruct (idb_request_ok b); [|discriminate].
    intros [= <- <-]. rewrite <- Hv. repeat split; auto.
    unfold with_videos, recordOf. now rewrite Hdb.
  - destruct (overQuota file (availableSpace quota usage)); cbn; [discriminate|].
    unfold store_add, resolve; cbn.
    destruct (videos s1 !! newVideoId b) eqn:Hfree; [discriminate|].
    destruct (idb_request_ok b); [|discriminate].
    intros [= <- <-]. rewrite <- Hv. repeat split; auto.
    unfold with_videos, recordOf. now rewrite Hdb.
Qed.

(** Every request to the database fires its success or its error event:
    [storeVideoFile] settles. *)
Lemma storeVideoFile_settles b file title description duration thumbnail s :
  fst (storeVideoFile b file title description duration thumbnail s) <> Pending.
Proof.
  unfold storeVideoFile, bind, ensureDB, initDB.
  destruct (db s) eqn:Hdb; [|destruct (idb_open_ok b); [|discriminate]];
    cbn [negb db]; rewrite ?Hdb; cbn [negb];
    unfold checkQuota, store_add, resolve, reject;
    (destruct (storage b) as [|e|quota usage];
       [|discriminate|
        destruct (overQuota file (availableSpace quota usage)); [discriminate|]]);
    cbn [sv_id videos];
    match goal with |- context [?m !! ?k] => destruct (m !! k) end;
    try discriminate;
    destruct (idb_request_ok b); discriminate.
Qed.

Lemma storeVideoFile_resolves b file title description duration thumbnail s :
  db s = true \/ idb_open_ok b = true ->
  quotaAllows b file ->
  idb_request_ok b = true ->
  videos s !! newVideoId b = None ->
  storeVideoFile b file title description duration thumbnail s =
    (Resolved (newVideoId b),
     {| db := true;
        videos := <[newVideoId b := recordOf b file title description duration thumbnail]>
                    (videos s) |}).
Proof.
  intros Hopen Hquota Hreq Hfree.
  unfold storeVideoFile, bind. rewrite (ensureDB_opens _ _ Hopen); cbn.
  unfold quotaAllows in Hquota. unfold checkQuota.
  destruct (storage b) as [|e|quota usage]; cbn; try contradiction.
  - unfold store_add; cbn. now rewrite Hfree, Hreq.
  - rewrite Hquota; cbn. unfold store_add; cbn. now rewrite Hfree, Hreq.
Qed.

Lemma getStoredVideo_open b videoId s :
  db s = true ->
  getStoredVideo b videoId s =
    (if idb_request_ok b then Resolved (videos s !! videoId)
     else Rejected (JsError "Failed to retrieve video"), s).
Proof.
  intros Hdb. unfold getStoredVideo, bind, ensureDB. rewrite Hdb; cbn.
  rewrite Hdb; cbn. now destruct (idb_request_ok b).
Qed.

(** C1. A put followed by a get with the returned id yields the record that
    was written, and its [size] field is the byte length of the file it
    holds. The first part says when the put resolves; the second holds for
    every put that resolved, whatever browser answers the get: the get
    either yields that record or fails as a request, it never yields
    another record or none. *)
Theorem storeVideoFile_then_getStoredVideo_size
    b file title description duration thumbnail s :
  (db s = true \/ idb_open_ok b = true ->
   quotaAllows b file ->
   idb_request_ok b = true ->
   videos s !! newVideoId b = None ->
   exists videoId s',
     storeVideoFile b file title description duration thumbnail s
       = (Resolved videoId, s')) /\
  (forall videoId s',
     storeVideoFile b file title description duration thumbnail s
       = (Resolved videoId, s') ->
     exists record,
       sv_id record = videoId /\
       sv_file record = file /\
       sv_size record = file_size (sv_file record) /\
       forall b',
         getStoredVideo b' videoId s' =
           (if idb_request_ok b' then Resolved (Some record)
            else Rejected (JsError "Failed to retrieve video"), s')).
Proof.
  split.
  - intros Hopen Hquota Hreq Hfree. eexists _, _.
    now apply storeVideoFile_resolves.
  - intros videoId s' Hput.
    apply storeVideoFile_resolved in Hput as (Hid & _ & ->).
    exists (recordOf b file title description duration thumbnail).
    repeat split; auto.
    intros b'. rewrite getStoredVideo_open by reflexivity. cbn.
    now rewrite lookup_insert_eq.
Qed.

Lemma getStoredVideo_outcome b videoId s :
  getStoredVideo b videoId s =
    if negb (db s) && negb (idb_open_ok b)
    then (Rejected (JsError "Failed to open IndexedDB"), s)
    else (if idb_request_ok b then Resolved (videos s !! videoId)
          else Rejected (JsError "Failed to retrieve video"),
          {| db := true; videos := videos s |}).
Proof.
  unfold getStoredVideo, bind, ensureDB, initDB.
  destruct s as [d m]; cbn.
  destruct d; cbn; [now destruct (idb_request_ok b)|].
  destruct (idb_open_ok b); cbn; [now destruct (idb_request_ok b)|reflexivity].
Qed.

Lemma getAllStoredVideos_outcome b s :
  getAllStoredVideos b s =
    if negb (db s) && negb (idb_open_ok b)
    then (Rejected (JsError "Failed to open IndexedDB"), s)
    else (if idb_request_ok b then Resolved (snd <$> map_to_list (videos s))
          else Rejected (JsError "Failed to retrieve videos"),
          {| db := true; videos := videos s |}).
Proof.
  unfold getAllStoredVideos, bind, ensureDB, initDB.
  destruct s as [d m]; cbn.
  destruct d; cbn; [now destruct (idb_request_ok b)|].
  destruct (idb_open_ok b); cbn; [now destruct (idb_request_ok b)|reflexivity].
Qed.

Lemma getAllStoredVideos_length b s vs s' :
  getAllStoredVideos b s = (Resolved vs, s') -> length vs = size (videos s).
Proof.
  rewrite getAllStoredVideos_outcome.
  destruct (negb (db s) && negb (idb_open_ok b)); [discriminate|].
  destruct (idb_request_ok b); [|discriminate].
  intros [= <- _]. now rewrite length_fmap, length_map_to_list.
Qed.

Lemma getStorageStats_resolved b s st s' :
  getStorageStats b s = (Resolved st, s') ->
  exists vs, getAllStoredVideos b s = (Resolved vs, s') /\ totalVideos st = length vs.
Proof.
  unfold getStorageStats, bind.
  destruct (getAllStoredVideos b s) as [[vs|e|] s1]; [|discriminate..].
  unfold resolve. intros [= <- <-]. now exists vs.
Qed.

Lemma deleteStoredVideo_resolved b videoId s s' :
  deleteStoredVideo b videoId s = (Resolved tt, s') ->
  s' = {| db := true; videos := delete videoId (videos s) |}.
Proof.
  unfold deleteStoredVideo, bind.
  destruct (ensureDB b s) as [[[]|e|] s1] eqn:He; [|discriminate..].
  apply ensureDB_resolves in He as (Hdb & Hv & _).
  rewrite Hdb; cbn. destruct (idb_request_ok b); [|discriminate].
  intros [= <-]. unfold with_videos. now rewrite Hdb, Hv.
Qed.

Lemma deleteStoredVideo_resolves b videoId s :
  db s = true \/ idb_open_ok b = true ->
  idb_request_ok b = true ->
  deleteStoredVideo b videoId s =
    (Resolved tt, {| db := true; videos := delete videoId (videos s) |}).
Proof.
  intros Hopen Hreq. unfold deleteStoredVideo, bind.
  rewrite (ensureDB_opens _ _ Hopen); cbn. now rewrite Hreq.
Qed.

(** C8. In one store state, the [totalVideos] of [getStorageStats] is the
    number of records [getAllStoredVideos] returns, which is the number of
    records the store holds: within the call (the statistics are computed
    from that very list, and the call fails exactly when the scan fails) and
    across two separate calls. *)
Theorem getStorageStats_totalVideos_getAllStoredVideos b s :
  match getAllStoredVideos b s with
  | (Resolved vs, s1) =>
      exists st, getStorageStats b s = (Resolved st, s1) /\
                 totalVideos st = length vs /\
                 length vs = size (videos s)
  | (Rejected e, s1) => getStorageStats b s = (Rejected e, s1)
  | (Pending, s1) => getStorageStats b s = (Pending, s1)
  end /\
  forall b' st s1 vs s2,
    getStorageStats b s = (Resolved st, s1) ->
    getAllStoredVideos b' s = (Resolved vs, s2) ->
    totalVideos st = length vs.
Proof.
  split.
  - destruct (getAllStoredVideos b s) as [[vs|e|] s1] eqn:Hall.
    + unfold getStorageStats, bind. rewrite Hall. unfold resolve.
      eexists; repeat split. cbn. eapply getAllStoredVideos_length; eauto.
    + unfold getStorageStats, bind. now rewrite Hall.
    + unfold getStorageStats, bind. now rewrite Hall.
  - intros b' st s1 vs s2 Hstats Hall.
    apply getStorageStats_resolved in Hstats as (vs' & Hall' & ->).
    apply getAllStoredVideos_length in Hall, Hall'. congruence.
Qed.

(** C6. Once [deleteStoredVideo] has resolved for an id the store held, a
    get with that id finds nothing (it resolves with null whenever the
    request itself succeeds, and never yields a record), and the record
    count reported by [getStorageStats] is one less than before. The first
    part says when the delete resolves. *)
Theorem deleteStoredVideo_then_absent_and_one_less b videoId s record :
  videos s !! videoId = Some record ->
  (db s = true \/ idb_open_ok b = true ->
   idb_request_ok b = true ->
   exists s', deleteStoredVideo b videoId s = (Resolved tt, s')) /\
  (forall s',
     deleteStoredVideo b videoId s = (Resolved tt, s') ->
     (forall b',
        getStoredVideo b' videoId s' =
          (if idb_request_ok b' then Resolved None
           else Rejected (JsError "Failed to retrieve video"), s')) /\
     (forall b1 b2,
        db s = true \/ idb_open_ok b1 = true ->
        idb_request_ok b1 = true -> idb_request_ok b2 = true ->
        exists before after s1 s2,
          getStorageStats b1 s = (Resolved before, s1) /\
          getStorageStats b2 s' = (Resolved after, s2) /\
          totalVideos before = S (totalVideos after)) /\
     (forall b1 b2 before after s1 s2,
        getStorageStats b1 s = (Resolved before, s1) ->
        getStorageStats b2 s' = (Resolved after, s2) ->
        totalVideos before = S (totalVideos after))).
Proof.
  intros Hin. split.
  - intros Hopen Hreq. eexists. now apply deleteStoredVideo_resolves.
  - intros s' Hdel. apply deleteStoredVideo_resolved in Hdel as ->.
    assert (Hsize : size (videos s) = S (size (delete videoId (videos s)))).
    { rewrite map_size_delete, Hin.
      assert (size (videos s) <> 0%nat).
      { intros Hz. apply map_size_empty_inv in Hz. rewrite Hz in Hin.
        now rewrite lookup_empty in Hin. }
      cbn. lia. }
    split; [|split].
    + intros b'. rewrite getStoredVideo_open by reflexivity. cbn.
      now rewrite lookup_delete_eq.
    + intros b1 b2 Hopen Hr1 Hr2.
      unfold getStorageStats, bind.
      rewrite !getAllStoredVideos_outcome. cbn. rewrite Hr1, Hr2.
      replace (negb (db s) && negb (idb_open_ok b1)) with false
        by (destruct Hopen as [-> | ->]; cbn; now rewrite ?andb_false_r).
      unfold resolve. do 4 eexists. repeat split; cbn.
      now rewrite !length_fmap, !length_map_to_list.
    + intros b1 b2 before after s1 s2 Hb Ha.
      apply getStorageStats_resolved in Hb as (vs1 & Hall1 & ->).
      apply getStorageStats_resolved in Ha as (vs2 & Hall2 & ->).
      apply getAllStoredVideos_length in Hall1, Hall2. cbn in Hall2. lia.
Qed.

(** C7, as the code has it. For an id the store does not hold,
    [getStoredVideoUrl] never yields a URL: it resolves with null whenever
    the database can be opened and the read request succeeds, and otherwise
    rejects with the failure of the open or of the read, which it passes on
    to its caller. *)
Theorem getStoredVideoUrl_missing b videoId s :
  videos s !! videoId = None ->
  fst (getStoredVideoUrl b videoId s) =
    if negb (db s) && negb (idb_open_ok b)
    then Rejected (JsError "Failed to open IndexedDB")
    else if idb_request_ok b then Resolved None
    else Rejected (JsError "Failed to retrieve video").
Proof.
  intros Hnone. unfold getStoredVideoUrl, bind.
  rewrite getStoredVideo_outcome.
  destruct (negb (db s) && negb (idb_open_ok b)); [reflexivity|].
  destruct (idb_request_ok b); [|reflexivity].
  now rewrite Hnone.
Qed.

End BlobStore.

(** C7, as stated, fails: the store holds no record under the id, the
    database cannot be opened, and [getStoredVideoUrl] rejects instead of
    resolving with null. *)
Lemma getStoredVideoUrl_missing_may_throw :
  IndexedDBStorageService.videos Sample.fresh !! "video_0_missing" = None /\
  IndexedDBStorageService.getStoredVideoUrl Sample.browser_closed "video_0_missing" Sample.fresh
    = (Rejected (JsError "Failed to open IndexedDB"), Sample.fresh).
Proof. split; reflexivity. Qed.

(* ===================================================================== *)
(** ** The upload pipeline *)
(* ===================================================================== *)

Section UploadPipeline.

Import IndexedDBStorageService VideoUploadModal.
Context `{VideoUtils}.

Lemma handleSubmit_rejection user b w message :
  rejection user (modal w) = Some message ->
  handleSubmit user b w = emit (ToastError message) w.
Proof.
  unfold rejection, handleSubmit.
  destruct user as [u|]; [|now intros [= <-]].
  destruct (videoFile (modal w)) as [video|]; [|now intros [= <-]].
  destruct (negb (truthy (trim (title (formData (modal w))))));
    [now intros [= <-]|].
  destruct (maxSize <? file_size video)%N; [now intros [= <-]|].
  destruct (negb (startsWith (file_type video) "video/"));
    [now intros [= <-]|discriminate].
Qed.

Lemma rejection_in_validationMessages user m message :
  rejection user m = Some message -> In message validationMessages.
Proof.
  unfold rejection, validationMessages.
  destruct user as [u|]; [|intros [= <-]; cbn; auto].
  destruct (videoFile m) as [video|]; [|intros [= <-]; cbn; auto].
  destruct (negb (truthy (trim (title (formData m))))); [intros [= <-]; cbn; auto|].
  destruct (maxSize <? file_size video)%N; [intros [= <-]; cbn; auto|].
  destruct (negb (startsWith (file_type video) "video/"));
    [intros [= <-]; cbn; auto 6|discriminate].
Qed.

Lemma filter_derivesThumbnail_toast (l : list Effect) message :
  List.filter derivesThumbnail (l ++ [ToastError message]) = List.filter derivesThumbnail l.
Proof. rewrite List.filter_app. cbn. apply app_nil_r. Qed.

(** C2. A file above the ceiling never reaches the store. Offered to the
    dialog above 500MB it is not even selected; selected and submitted above
    100MB, the submission is turned down by a toast and nothing else happens
    (store, catalog and component are as before, so the record count is
    unchanged), and the toast is the too-large one whenever the submission
    has a logged-in user and a title, that is whenever the size check is
    reached. *)
Theorem handleSubmit_too_large_rejected user b w video :
  ((dialogMaxSize < file_size video)%N ->
   handleVideoFileChange (Some video) w
     = emit (ToastError "Video file size should be less than 500MB") w) /\
  (videoFile (modal w) = Some video ->
   (maxSize < file_size video)%N ->
   exists message,
     handleSubmit user b w = emit (ToastError message) w /\
     store (snd (handleSubmit user b w)) = store w /\
     size (videos (store (snd (handleSubmit user b w)))) = size (videos (store w)) /\
     (is_Some user ->
      truthy (trim (title (formData (modal w)))) = true ->
      message = "Video file is too large. Maximum size is 100MB.")).
Proof.
  split.
  - intros Hbig. unfold handleVideoFileChange.
    apply N.ltb_lt in Hbig. now rewrite Hbig.
  - intros Hfile Hbig. apply N.ltb_lt in Hbig.
    destruct (rejection user (modal w)) as [message|] eqn:Hrej.
    + exists message. rewrite (handleSubmit_rejection _ _ _ _ Hrej).
      repeat split.
      intros [u ->] Htitle. unfold rejection in Hrej.
      rewrite Hfile, Htitle, Hbig in Hrej. cbn in Hrej. congruence.
    + exfalso. unfold rejection in Hrej.
      destruct user as [u|]; [|discriminate].
      rewrite Hfile, Hbig in Hrej.
      destruct (negb (truthy (trim (title (formData (modal w)))))); discriminate.
Qed.

(** C5. A file whose MIME type does not start with "video/" is turned down
    at validation and no thumbnail is derived. Offered to the dialog it is
    not selected; submitted, the submission ends with one of the validation
    toasts and nothing else happens (no thumbnail call is made, store and
    catalog are as before). In both places the toast is the invalid-file one
    whenever the type check is reached, that is unless an earlier check (the
    size, or in the submission the user and the title) already turned the
    file down. *)
Theorem handleSubmit_not_video_rejected user b w video :
  startsWith (file_type video) "video/" = false ->
  (exists message,
     handleVideoFileChange (Some video) w = emit (ToastError message) w /\
     ((file_size video <= dialogMaxSize)%N ->
      message = "Please select a valid video file")) /\
  (videoFile (modal w) = Some video ->
   exists message,
     handleSubmit user b w = emit (ToastError message) w /\
     In message validationMessages /\
     List.filter derivesThumbnail (effects (snd (handleSubmit user b w)))
       = List.filter derivesThumbnail (effects w) /\
     (is_Some user ->
      truthy (trim (title (formData (modal w)))) = true ->
      (file_size video <= maxSize)%N ->
      message = "Please select a valid video file")).
Proof.
  intros Htype. split.
  - unfold handleVideoFileChange. rewrite Htype. cbn.
    destruct (dialogMaxSize <? file_size video)%N eqn:Hbig.
    + eexists. split; [reflexivity|]. intros Hsmall.
      apply N.ltb_lt in Hbig. lia.
    + eexists. split; reflexivity.
  - intros Hfile.
    destruct (rejection user (modal w)) as [message|] eqn:Hrej.
    + exists message. rewrite (handleSubmit_rejection _ _ _ _ Hrej).
      split; [reflexivity|]. split; [eapply rejection_in_validationMessages; eauto|].
      split; [apply filter_derivesThumbnail_toast|].
      intros [u ->] Htitle Hsize. unfold rejection in Hrej.
      apply N.ltb_ge in Hsize.
      rewrite Hfile, Htitle, Hsize, Htype in Hrej. cbn in Hrej. congruence.
    + exfalso. unfold rejection in Hrej.
      destruct user as [u|]; [|discriminate].
      rewrite Hfile, Htype in Hrej.
      destruct (negb (truthy (trim (title (formData (modal w)))))); [discriminate|].
      destruct (maxSize <? file_size video)%N; discriminate.
Qed.

(** Runs the plumbing of the pipeline on a state given by its fields. *)
Ltac run :=
  cbv beta iota zeta delta
    [upload deriveThumbnail simulateUpload bind try_catch try_finally
     emit setModal onStore onCatalog awaited resolve reject
     VideoService.uploadVideo modal store catalog effects fst snd].

Lemma uploadFailed_toast error w :
  exists message, uploadFailed error w = emit (ToastError message) w.
Proof.
  unfold uploadFailed. destruct error as [message|]; [|eauto].
  destruct (includes message "quota" || includes message "storage"); [eauto|].
  destruct (includes message "thumbnail"); [eauto|].
  destruct (includes message "duration"); eauto.
Qed.

Lemma handleSubmit_accepted user b w :
  rejection user (modal w) = None ->
  exists u video,
    user = Some u /\ videoFile (modal w) = Some video /\
    handleSubmit user b w =
      try_finally
        (try_catch
           (upload u b video (thumbnailFile (modal w)) (formData (modal w)))
           uploadFailed)
        (setModal (setIsUploading false))
        {| modal := setUploadProgress 0 (setIsUploading true (modal w));
           store := store w; catalog := catalog w; effects := effects w |}.
Proof.
  unfold rejection, handleSubmit.
  destruct user as [u|]; [|discriminate].
  destruct (videoFile (modal w)) as [video|]; [|discriminate].
  destruct (negb (truthy (trim (title (formData (modal w)))))); [discriminate|].
  destruct (maxSize <? file_size video)%N; [discriminate|].
  destruct (negb (startsWith (file_type video) "video/")); [discriminate|].
  intros _. exists u, video. repeat split.
Qed.

(** What a run of the [try] block leaves behind: either it resolved, the put
    had resolved with some id and the catalog gained one entry that points
    at that id; or it rejected and the catalog is as before. *)
Lemma upload_outcome u b video thumbnail form w0 :
  match upload u b video thumbnail form w0 with
  | (Resolved _, w1) =>
      exists thumbnailUrl duration videoId entry,
        storeVideoFile (idb b) video (title form) (description form)
          duration thumbnailUrl (store w0) = (Resolved videoId, store w1) /\
        catalog w1 = entry :: catalog w0 /\
        videoUrl entry = "stored://" +:+ videoId
  | (Rejected _, w1) => catalog w1 = catalog w0
  | (Pending, w1) => catalog w1 = catalog w0
  end.
Proof.
  destruct w0 as [m0 s0 c0 ef0]. run.
  destruct thumbnail as [image|].
  - destruct (readAsDataURL b image) as [dataUrl|e1|]; [|reflexivity..].
    destruct (getVideoDuration b video) as [d|e|]; [|reflexivity..].
    destruct (storeVideoFile (idb b) video (title form) (description form) d dataUrl s0)
      as [[videoId|e|] s1] eqn:Hput; [|reflexivity..].
    eexists dataUrl, d, videoId, _. repeat split. exact Hput.
  - destruct (generateVideoThumbnail b video) as [url|e0|].
    + destruct (getVideoDuration b video) as [d|e|]; [|reflexivity..].
      destruct (storeVideoFile (idb b) video (title form) (description form) d url s0)
        as [[videoId|e|] s1] eqn:Hput; [|reflexivity..].
      eexists url, d, videoId, _. repeat split. exact Hput.
    + destruct (getVideoDuration b video) as [d|e|]; [|reflexivity..].
      destruct (storeVideoFile (idb b) video (title form) (description form) d
                  "/default-thumbnail.jpg" s0)
        as [[videoId|e|] s1] eqn:Hput; [|reflexivity..].
      eexists "/default-thumbnail.jpg", d, videoId, _. repeat split. exact Hput.
    + reflexivity.
Qed.

(** Whether [storeVideoFile] resolves does not depend on the metadata. *)
Lemma storeVideoFile_rejects_whatever_metadata
    b file title description duration thumbnail duration' thumbnail' s e s1 :
  storeVideoFile b file title description duration thumbnail s = (Rejected e, s1) ->
  storeVideoFile b file title description duration' thumbnail' s = (Rejected e, s1).
Proof.
  unfold storeVideoFile, bind, checkQuota, store_add, resolve, reject.
  destruct (ensureDB b s) as [[[]|e0|] s0]; [|auto..].
  destruct (negb (db s0)); [auto|].
  destruct (storage b) as [|e1|quota usage]; cbn; auto.
  - destruct (videos s0 !! newVideoId b); [auto|].
    destruct (idb_request_ok b); [discriminate|auto].
  - destruct (overQuota file (availableSpace quota usage)); cbn; [auto|].
    destruct (videos s0 !! newVideoId b); [auto|].
    destruct (idb_request_ok b); [discriminate|auto].
Qed.

(** C3. [handleSubmit] inserts a catalog entry only after the put into the
    blob store has resolved: either the catalog is as before, or the put
    made for the selected file resolved with an id, the store is the one
    that put left, and the catalog gained, at its head, one entry whose
    [videoUrl] is "stored://" followed by exactly that id. If the put
    rejects, the catalog is as before. *)
Theorem handleSubmit_catalog_entry_after_put user b w :
  (catalog (snd (handleSubmit user b w)) = catalog w \/
   exists u video thumbnailUrl duration videoId entry,
     user = Some u /\
     videoFile (modal w) = Some video /\
     storeVideoFile (idb b) video (title (formData (modal w)))
       (description (formData (modal w))) duration thumbnailUrl (store w)
       = (Resolved videoId, store (snd (handleSubmit user b w))) /\
     catalog (snd (handleSubmit user b w)) = entry :: catalog w /\
     videoUrl entry = "stored://" +:+ videoId) /\
  (forall video duration thumbnailUrl e s1,
     videoFile (modal w) = Some video ->
     storeVideoFile (idb b) video (title (formData (modal w)))
       (description (formData (modal w))) duration thumbnailUrl (store w)
       = (Rejected e, s1) ->
     catalog (snd (handleSubmit user b w)) = catalog w).
Proof.
  assert (Hmain :
    catalog (snd (handleSubmit user b w)) = catalog w \/
    exists u video thumbnailUrl duration videoId entry,
      user = Some u /\
      videoFile (modal w) = Some video /\
      storeVideoFile (idb b) video (title (formData (modal w)))
        (description (formData (modal w))) duration thumbnailUrl (store w)
        = (Resolved videoId, store (snd (handleSubmit user b w))) /\
      catalog (snd (handleSubmit user b w)) = entry :: catalog w /\
      videoUrl entry = "stored://" +:+ videoId).
  { destruct (rejection user (modal w)) as [message|] eqn:Hrej.
    - left. now rewrite (handleSubmit_rejection _ _ _ _ Hrej).
    - destruct (handleSubmit_accepted user b w Hrej) as (u & video & -> & Hfile & ->).
      pose proof (upload_outcome u b video (thumbnailFile (modal w)) (formData (modal w))
                    {| modal := setUploadProgress 0 (setIsUploading true (modal w));
                       store := store w; catalog := catalog w; effects := effects w |})
        as Hout.
      unfold try_finally, try_catch.
      destruct (upload u b video (thumbnailFile (modal w)) (formData (modal w)) _)
        as [[[]|e|] w1]; cbn in *.
      + right. destruct Hout as (thumbnailUrl & duration & videoId & entry & Hput & Hcat & Hurl).
        exists u, video, thumbnailUrl, duration, videoId, entry. auto.
      + left. destruct (uploadFailed_toast e w1) as (message & ->). exact Hout.
      + left. exact Hout. }
  split; [exact Hmain|].
  intros video duration thumbnailUrl e s1 Hfile Hput.
  destruct Hmain as [Hsame | (u & video' & thumbnailUrl' & duration' & videoId & entry
                               & _ & Hfile' & Hput' & _)]; [exact Hsame|].
  rewrite Hfile in Hfile'. injection Hfile' as <-.
  rewrite (storeVideoFile_rejects_whatever_metadata _ _ _ _ _ _ duration' thumbnailUrl' _ _ _ Hput)
    in Hput'.
  discriminate.
Qed.

(** C4, as the code has it. For a submission that passes validation: when
    no frame can be sampled the placeholder thumbnail is used and the upload
    goes on to the put (and, the put resolving, both the stored record and
    the catalog entry carry the placeholder); when the duration cannot be
    extracted (the thumbnail step, which comes first, having given a
    thumbnail), or a supplied thumbnail image cannot be read, the upload is
    given up with an error toast, nothing is written to the store and no
    catalog entry is inserted. *)
Theorem handleSubmit_derivation_failures u b w video :
  rejection (Some u) (modal w) = None ->
  videoFile (modal w) = Some video ->
  (forall e d,
     thumbnailFile (modal w) = None ->
     generateVideoThumbnail b video = Rejected e ->
     getVideoDuration b video = Resolved d ->
     store (snd (handleSubmit (Some u) b w))
       = snd (storeVideoFile (idb b) video (title (formData (modal w)))
                (description (formData (modal w))) d "/default-thumbnail.jpg" (store w)) /\
     forall videoId s1,
       storeVideoFile (idb b) video (title (formData (modal w)))
         (description (formData (modal w))) d "/default-thumbnail.jpg" (store w)
         = (Resolved videoId, s1) ->
       exists entry record,
         catalog (snd (handleSubmit (Some u) b w)) = entry :: catalog w /\
         video_thumbnail entry = "/default-thumbnail.jpg" /\
         videos (store (snd (handleSubmit (Some u) b w))) !! videoId = Some record /\
         sv_thumbnail record = "/default-thumbnail.jpg") /\
  (forall e,
     getVideoDuration b video = Rejected e ->
     thumbnailOutcome b video (thumbnailFile (modal w)) <> None ->
     store (snd (handleSubmit (Some u) b w)) = store w /\
     catalog (snd (handleSubmit (Some u) b w)) = catalog w /\
     exists message,
       last (effects (snd (handleSubmit (Some u) b w))) = Some (ToastError message)) /\
  (forall image e,
     thumbnailFile (modal w) = Some image ->
     readAsDataURL b image = Rejected e ->
     store (snd (handleSubmit (Some u) b w)) = store w /\
     catalog (snd (handleSubmit (Some u) b w)) = catalog w /\
     exists message,
       last (effects (snd (handleSubmit (Some u) b w))) = Some (ToastError message) /\
       (e = JsOther -> message = "Failed to upload video. Please try again.")).
Proof.
  intros Hrej Hfile.
  destruct (handleSubmit_accepted (Some u) b w Hrej) as (u' & video' & [= <-] & Hfile' & ->).
  rewrite Hfile in Hfile'. injection Hfile' as <-.
  destruct w as [m s c ef]. cbn [modal store catalog effects] in *.
  split; [|split].
  - intros e d Hthumb Hgen Hdur. rewrite Hthumb. run. rewrite Hgen. run.
    rewrite Hdur. run.
    destruct (storeVideoFile (idb b) video (title (formData m))
                (description (formData m)) d "/default-thumbnail.jpg" s)
      as [[videoId|e1|] s1] eqn:Hput.
    + split; [reflexivity|]. intros videoId' s1' [= <- <-].
      apply storeVideoFile_resolved in Hput as (_ & _ & ->).
      do 2 eexists. split; [reflexivity|]. split; [reflexivity|].
      split; [apply lookup_insert_eq|reflexivity].
    + split; [|discriminate].
      match goal with |- context [uploadFailed e1 ?w0] =>
        destruct (uploadFailed_toast e1 w0) as (message & ->) end.
      reflexivity.
    + split; [reflexivity|discriminate].
  - intros e Hdur Hthumbnail. unfold thumbnailOutcome in Hthumbnail. run.
    destruct (thumbnailFile m) as [image|].
    + destruct (readAsDataURL b image) as [dataUrl|e1|];
        [|now destruct Hthumbnail..].
      run. rewrite Hdur. run.
      match goal with |- context [uploadFailed ?e' ?w0] =>
        destruct (uploadFailed_toast e' w0) as (message & ->) end.
      run. repeat split. exists message. apply last_snoc.
    + destruct (generateVideoThumbnail b video) as [url|e0|];
        [| |now destruct Hthumbnail]; rewrite Hdur; run;
        match goal with |- context [uploadFailed ?e' ?w0] =>
          destruct (uploadFailed_toast e' w0) as (message & ->) end;
        run; repeat split; exists message; apply last_snoc.
  - intros image e Hthumb Hread. rewrite Hthumb. run. rewrite Hread. run.
    destruct e as [text|].
    + match goal with |- context [uploadFailed ?e' ?w0] =>
        destruct (uploadFailed_toast e' w0) as (message & ->) end.
      run. repeat split. exists message. split; [apply last_snoc|discriminate].
    + cbn [uploadFailed]. run. repeat split.
      eexists. split; [apply last_snoc|reflexivity].
Qed.

End UploadPipeline.

(** C4, as stated, fails: the submission is valid, a frame is sampled, the
    duration cannot be extracted, and the upload is given up: the store
    holds no record, the catalog has no entry, and the user is told that the
    duration could not be extracted. *)
Lemma handleSubmit_duration_failure_aborts :
  VideoUploadModal.rejection (Some Sample.demo) (VideoUploadModal.modal Sample.app) = None /\
  VideoUploadModal.getVideoDuration Sample.upload_no_duration Sample.clip
    = Rejected (JsError "Failed to get video duration") /\
  let w' := snd (VideoUploadModal.handleSubmit (H := Sample.utils) (Some Sample.demo)
                   Sample.upload_no_duration Sample.app) in
  IndexedDBStorageService.videos (VideoUploadModal.store w')
    = (∅ : gmap string StoredVideo) /\
  VideoUploadModal.catalog w' = [] /\
  VideoUploadModal.effects w' =
    [ VideoUploadModal.GenerateVideoThumbnail Sample.clip;
      VideoUploadModal.GetVideoDuration Sample.clip;
      VideoUploadModal.ToastError
        "Failed to extract video duration. Please try with a different video format." ].
Proof. repeat split. Qed.

(* ===================================================================== *)
(** ** Wishlist and watch history *)
(* ===================================================================== *)

Section UserLists.

Import UserService.

Lemma elem_of_without (x y : string) l : y ∈ without x l <-> y ∈ l /\ y <> x.
Proof.
  unfold without. rewrite !list_elem_of_In, List.filter_In.
  rewrite negb_true_iff, String.eqb_neq. reflexivity.
Qed.

Lemma NoDup_without (x : string) l : NoDup l -> NoDup (without x l).
Proof.
  induction 1 as [|y l Hnotin Hnodup IH]; [constructor|].
  unfold without in *. cbn. destruct (negb (y =? x)%string); [|exact IH].
  constructor; [|exact IH].
  intros Hin. apply Hnotin. now apply (elem_of_without x y l) in Hin as [Hin _].
Qed.

Lemma NoDup_front (x : string) l : NoDup l -> NoDup (take 50 (x :: without x l)).
Proof.
  intros Hnodup.
  assert (Hfull : NoDup (x :: without x l)).
  { constructor.
    - rewrite elem_of_without. now intros [_ Hne].
    - now apply NoDup_without. }
  exact (sublist_NoDup _ _ Hfull (sublist_take _ _)).
Qed.

Lemma NoDup_push (x : string) l : NoDup l -> x ∉ l -> NoDup (l ++ [x]).
Proof.
  intros Hnodup Hnotin. apply NoDup_app. split; [exact Hnodup|]. split.
  - intros y Hy Hyx. apply list_elem_of_singleton in Hyx. now subst.
  - apply NoDup_singleton.
Qed.

Lemma addToWishlist_outcome ok userId videoId (ls : LocalStorage) :
  addToWishlist ok userId videoId ls =
    if bool_decide (videoId ∈ storedWishlist userId ls) then (Resolved tt, ls)
    else if ok
         then (Resolved tt,
               <["wishlist_" +:+ userId := storedWishlist userId ls ++ [videoId]]> ls)
         else (Rejected (JsError "Failed to add to wishlist"), ls).
Proof.
  unfold addToWishlist, getUserWishlist, getItemOrEmpty, try_catch, bind,
    array_includes, storedWishlist, setItem, resolve, reject.
  destruct (bool_decide (videoId ∈ default [] (ls !! ("wishlist_" +:+ userId))));
    [reflexivity|].
  destruct ok; reflexivity.
Qed.

Lemma removeFromWishlist_outcome ok userId videoId (ls : LocalStorage) :
  removeFromWishlist ok userId videoId ls =
    if ok
    then (Resolved tt,
          <["wishlist_" +:+ userId := without videoId (storedWishlist userId ls)]> ls)
    else (Rejected (JsError "Failed to remove from wishlist"), ls).
Proof.
  unfold removeFromWishlist, getUserWishlist, getItemOrEmpty, try_catch, bind,
    storedWishlist, setItem, resolve, reject.
  destruct ok; reflexivity.
Qed.

Lemma addToWatchHistory_outcome ok userId videoId (ls : LocalStorage) :
  UserService.addToWatchHistory ok userId videoId ls =
    if ok
    then (Resolved tt,
          <["watchHistory_" +:+ userId :=
              take 50 (videoId :: without videoId (storedHistory userId ls))]> ls)
    else (Rejected (JsError "Failed to add to watch history"), ls).
Proof.
  unfold UserService.addToWatchHistory, getWatchHistory, getItemOrEmpty, try_catch,
    bind, storedHistory, setItem, resolve, reject.
  destruct ok; reflexivity.
Qed.

Lemma allNoDup_stored userId ls : allNoDup ls -> NoDup (storedWishlist userId ls).
Proof.
  intros Hall. unfold storedWishlist.
  destruct (ls !! ("wishlist_" +:+ userId)) as [l|] eqn:Hl; cbn.
  - eapply Hall; eauto.
  - constructor.
Qed.

Lemma allNoDup_insert key l (ls : LocalStorage) :
  allNoDup ls -> NoDup l -> allNoDup (<[key := l]> ls).
Proof.
  intros Hall Hl key' l'. rewrite lookup_insert.
  case_decide; [now intros [= <-]|apply Hall].
Qed.

Lemma perform_allNoDup c ls : allNoDup ls -> allNoDup (snd (perform c ls)).
Proof.
  intros Hall. destruct c as [ok userId videoId|ok userId videoId]; cbn.
  - rewrite addToWishlist_outcome. case_bool_decide as Hin; [exact Hall|].
    destruct ok; [|exact Hall]. cbn.
    apply allNoDup_insert; [exact Hall|].
    apply NoDup_push; [now apply allNoDup_stored|exact Hin].
  - rewrite removeFromWishlist_outcome. destruct ok; [|exact Hall]. cbn.
    apply allNoDup_insert; [exact Hall|].
    apply NoDup_without. now apply allNoDup_stored.
Qed.

Lemma performAll_allNoDup calls ls : allNoDup ls -> allNoDup (performAll calls ls).
Proof.
  revert ls. induction calls as [|c rest IH]; intros ls Hall; [exact Hall|].
  cbn. apply IH. now apply perform_allNoDup.
Qed.

(** C9. [addToWishlist] is idempotent and keeps the stored wishlist free of
    duplicates: with the id already in the user's stored wishlist the call
    leaves localStorage as it is; a call made again after one that resolved
    changes nothing; a wishlist without duplicates stays so; and no run of
    wishlist calls, from an empty localStorage, ever stores a wishlist with a
    duplicate entry. *)
Theorem addToWishlist_idempotent_no_duplicates userId videoId :
  (forall ok (ls : LocalStorage),
     videoId ∈ storedWishlist userId ls ->
     addToWishlist ok userId videoId ls = (Resolved tt, ls)) /\
  (forall ok ok' (ls ls' : LocalStorage),
     addToWishlist ok userId videoId ls = (Resolved tt, ls') ->
     videoId ∈ storedWishlist userId ls' /\
     addToWishlist ok' userId videoId ls' = (Resolved tt, ls')) /\
  (forall ok (ls : LocalStorage),
     NoDup (storedWishlist userId ls) ->
     NoDup (storedWishlist userId (snd (addToWishlist ok userId videoId ls)))) /\
  (forall calls, NoDup (storedWishlist userId (performAll calls ∅))).
Proof.
  assert (Hpresent : forall ok (ls : LocalStorage),
            videoId ∈ storedWishlist userId ls ->
            addToWishlist ok userId videoId ls = (Resolved tt, ls)).
  { intros ok ls Hin. rewrite addToWishlist_outcome.
    now rewrite bool_decide_eq_true_2. }
  split; [exact Hpresent|]. split; [|split].
  - intros ok ok' ls ls' Hadd.
    assert (Hin : videoId ∈ storedWishlist userId ls').
    { rewrite addToWishlist_outcome in Hadd.
      case_bool_decide as Hin; [now injection Hadd as <-|].
      destruct ok; [|discriminate]. injection Hadd as <-.
      unfold storedWishlist at 1. rewrite lookup_insert_eq. cbn.
      apply elem_of_app. right. now apply list_elem_of_singleton. }
    split; [exact Hin|now apply Hpresent].
  - intros ok ls Hnodup. rewrite addToWishlist_outcome.
    case_bool_decide as Hin; [exact Hnodup|].
    destruct ok; [|exact Hnodup]. cbn.
    unfold storedWishlist at 1. rewrite lookup_insert_eq. cbn.
    now apply NoDup_push.
  - intros calls. apply allNoDup_stored, performAll_allNoDup.
    intros key l. now rewrite lookup_empty.
Qed.

End UserLists.

Section WatchHistory.

Import UserService useVideoDatabase.

Lemma wishlist_key_not_history userId : ~ isHistoryKey ("wishlist_" +:+ userId).
Proof. intros [userId' Heq]. cbn in Heq. discriminate Heq. Qed.

Lemma wellKept_empty : wellKept ∅.
Proof. intros key l. now rewrite lookup_empty. Qed.

Lemma wellKept_allNoDup ls : wellKept ls -> allNoDup ls.
Proof. intros Hkept key l Hl. now apply (Hkept key l). Qed.

Lemma wellKept_insert key l (ls : LocalStorage) :
  wellKept ls -> NoDup l -> (isHistoryKey key -> (length l <= 50)%nat) ->
  wellKept (<[key := l]> ls).
Proof.
  intros Hkept Hnodup Hlen key' l'. rewrite lookup_insert.
  case_decide as Hkey; [|apply Hkept].
  intros [= <-]. subst key'. auto.
Qed.

Lemma wellKept_storedHistory userId ls :
  wellKept ls ->
  NoDup (storedHistory userId ls) /\ (length (storedHistory userId ls) <= 50)%nat.
Proof.
  intros Hkept. unfold storedHistory.
  destruct (ls !! ("watchHistory_" +:+ userId)) as [l|] eqn:Hl; cbn.
  - destruct (Hkept _ _ Hl) as [Hnodup Hlen]. split; [exact Hnodup|].
    apply Hlen. now exists userId.
  - split; [constructor|lia].
Qed.

Lemma length_front (x : string) l : (length (take 50 (x :: without x l)) <= 50)%nat.
Proof. rewrite length_take. lia. Qed.

Lemma wellKept_addToWishlist ok userId videoId ls :
  wellKept ls -> wellKept (snd (UserService.addToWishlist ok userId videoId ls)).
Proof.
  intros Hkept. rewrite addToWishlist_outcome.
  case_bool_decide as Hin; [exact Hkept|]. destruct ok; [|exact Hkept]. cbn.
  apply wellKept_insert; [exact Hkept| |].
  - apply NoDup_push; [|exact Hin]. now apply allNoDup_stored, wellKept_allNoDup.
  - intros Hkey. now apply wishlist_key_not_history in Hkey.
Qed.

Lemma wellKept_removeFromWishlist ok userId videoId ls :
  wellKept ls -> wellKept (snd (removeFromWishlist ok userId videoId ls)).
Proof.
  intros Hkept. rewrite removeFromWishlist_outcome.
  destruct ok; [|exact Hkept]. cbn.
  apply wellKept_insert; [exact Hkept| |].
  - apply NoDup_without. now apply allNoDup_stored, wellKept_allNoDup.
  - intros Hkey. now apply wishlist_key_not_history in Hkey.
Qed.

Lemma wellKept_addToWatchHistory ok userId videoId ls :
  wellKept ls -> wellKept (snd (UserService.addToWatchHistory ok userId videoId ls)).
Proof.
  intros Hkept. rewrite addToWatchHistory_outcome.
  destruct ok; [|exact Hkept]. cbn.
  apply wellKept_insert; [exact Hkept| |].
  - apply NoDup_front. now apply wellKept_storedHistory.
  - intros _. apply length_front.
Qed.

(** The hook's [addToWatchHistory], case by case. *)
Lemma addToWatchHistory_outcome_hook a ok videoId h :
  useVideoDatabase.addToWatchHistory a ok videoId h =
    match user a with
    | Some u =>
        if isAuthenticated a && ok
        then (Resolved tt,
              {| wishlist := wishlist h;
                 watchHistory := take 50 (videoId :: without videoId (watchHistory h));
                 localStorage :=
                   snd (UserService.addToWatchHistory true (user_id u) videoId
                          (localStorage h));
                 toasts := toasts h |})
        else (Resolved tt, h)
    | None => (Resolved tt, h)
    end.
Proof.
  unfold useVideoDatabase.addToWatchHistory.
  destruct (user a) as [u|]; [|reflexivity].
  destruct (isAuthenticated a); [|reflexivity].
  unfold try_catch, bind, onUserService, setWatchHistory, resolve.
  rewrite !addToWatchHistory_outcome.
  destruct h as [wl wh ls ts]. destruct ok; reflexivity.
Qed.

Lemma kept_addToWatchHistory a ok videoId h :
  kept h -> kept (snd (useVideoDatabase.addToWatchHistory a ok videoId h)).
Proof.
  intros (Hnodup & Hlen & Hls). rewrite addToWatchHistory_outcome_hook.
  destruct (user a) as [u|]; [|exact (conj Hnodup (conj Hlen Hls))].
  destruct (isAuthenticated a && ok); [|exact (conj Hnodup (conj Hlen Hls))].
  split; [|split]; cbn [snd watchHistory localStorage].
  - now apply NoDup_front.
  - apply length_front.
  - now apply wellKept_addToWatchHistory.
Qed.

Lemma kept_remount h : kept h -> kept (snd (remount h)).
Proof. intros (_ & _ & Hls). split; [|split]; cbn; [constructor|lia|exact Hls]. Qed.

Lemma kept_loadUserDataFrom earlier a h :
  kept h -> kept (snd (loadUserDataFrom earlier a h)).
Proof.
  intros (Hnodup & Hlen & Hls). unfold loadUserDataFrom.
  destruct (user a) as [u|]; [|exact (conj Hnodup (conj Hlen Hls))].
  destruct (wellKept_storedHistory (user_id u) _ Hls) as [Hnodup' Hlen'].
  destruct h as [wl wh ls ts]. split; [|split]; cbn in *; assumption.
Qed.

Lemma kept_authEffect a h : kept h -> kept (snd (authEffect a h)).
Proof.
  intros Hkept. unfold authEffect.
  destruct (user a) as [u|] eqn:Hu; [|now apply kept_remount].
  destruct (isAuthenticated a); [|now apply kept_remount].
  now apply kept_loadUserDataFrom.
Qed.

Lemma kept_addToWishlistFrom shown a ok videoId h :
  kept h -> kept (snd (addToWishlistFrom shown a ok videoId h)).
Proof.
  intros (Hnodup & Hlen & Hls). unfold addToWishlistFrom.
  destruct (user a) as [u|]; [|exact (conj Hnodup (conj Hlen Hls))].
  destruct (isAuthenticated a); [|exact (conj Hnodup (conj Hlen Hls))]. cbn [negb].
  destruct h as [wl wh ls ts]; cbn [wishlist watchHistory localStorage toasts] in *.
  pose proof (wellKept_removeFromWishlist ok (user_id u) videoId ls Hls) as Hremove.
  pose proof (wellKept_addToWishlist ok (user_id u) videoId ls Hls) as Hadd.
  destruct (array_includes shown videoId);
    cbv beta iota zeta delta
      [try_catch bind onUserService setWishlist toast resolve
       wishlist watchHistory localStorage toasts snd] in *.
  - destruct (removeFromWishlist ok (user_id u) videoId ls) as [[[]|e|] ls'];
      split; [|split| |split| |split]; assumption.
  - destruct (UserService.addToWishlist ok (user_id u) videoId ls) as [[[]|e|] ls'];
      split; [|split| |split| |split]; assumption.
Qed.

Lemma kept_addToWishlist a ok videoId h :
  kept h -> kept (snd (useVideoDatabase.addToWishlist a ok videoId h)).
Proof. apply kept_addToWishlistFrom. Qed.

Lemma kept_serve c h : kept h -> kept (snd (serve c h)).
Proof.
  intros (Hnodup & Hlen & Hls).
  destruct h as [wl wh ls ts]; cbn [wishlist watchHistory localStorage toasts] in *.
  destruct c as [ok userId videoId|ok userId videoId|ok userId videoId];
    unfold serve, onUserService; cbn [localStorage wishlist watchHistory toasts].
  - pose proof (wellKept_addToWishlist ok userId videoId ls Hls) as Hserved.
    destruct (UserService.addToWishlist ok userId videoId ls) as [r ls'].
    split; [|split]; assumption.
  - pose proof (wellKept_removeFromWishlist ok userId videoId ls Hls) as Hserved.
    destruct (removeFromWishlist ok userId videoId ls) as [r ls'].
    split; [|split]; assumption.
  - pose proof (wellKept_addToWatchHistory ok userId videoId ls Hls) as Hserved.
    destruct (UserService.addToWatchHistory ok userId videoId ls) as [r ls'].
    split; [|split]; assumption.
Qed.

Lemma reachable_kept h : reachable h -> kept h.
Proof.
  induction 1 as [|h e _ IH|h0 h a ok videoId _ _ _ IH|h0 h a _ _ _ IH|h c _ IH].
  - split; [|split]; cbn; [constructor|lia|apply wellKept_empty].
  - destruct e as [|a|a ok videoId|a ok videoId]; cbn.
    + now apply kept_remount.
    + now apply kept_authEffect.
    + now apply kept_addToWishlist.
    + now apply kept_addToWatchHistory.
  - now apply kept_addToWishlistFrom.
  - now apply kept_loadUserDataFrom.
  - now apply kept_serve.
Qed.

(** C10, as the code has it. In every state the hook can reach, a call of
    [addToWatchHistory] leaves a history with no duplicate ids and at most
    50 entries. When the call is made for a logged-in user and localStorage
    takes the write, the history is the just-watched id followed by the
    earlier entries without it, cut at 50, so the id is in first position;
    without a logged-in user, or when the write fails, the call leaves the
    hook as it was. *)
Theorem addToWatchHistory_front_bounded_no_duplicates h a ok videoId :
  reachable h ->
  NoDup (watchHistory (snd (useVideoDatabase.addToWatchHistory a ok videoId h))) /\
  (length (watchHistory (snd (useVideoDatabase.addToWatchHistory a ok videoId h))) <= 50)%nat /\
  (is_Some (user a) -> isAuthenticated a = true -> ok = true ->
   watchHistory (snd (useVideoDatabase.addToWatchHistory a ok videoId h))
     = take 50 (videoId :: without videoId (watchHistory h)) /\
   head (watchHistory (snd (useVideoDatabase.addToWatchHistory a ok videoId h)))
     = Some videoId) /\
  (user a = None \/ isAuthenticated a = false \/ ok = false ->
   useVideoDatabase.addToWatchHistory a ok videoId h = (Resolved tt, h)).
Proof.
  intros Hreach. apply reachable_kept in Hreach.
  destruct (kept_addToWatchHistory a ok videoId h Hreach) as (Hnodup & Hlen & _).
  split; [exact Hnodup|]. split; [exact Hlen|]. split.
  - intros [u Hu] Hauth ->. rewrite addToWatchHistory_outcome_hook, Hu, Hauth. cbn.
    split; reflexivity.
  - intros Hoff. rewrite addToWatchHistory_outcome_hook.
    destruct (user a) as [u|]; [|reflexivity].
    destruct Hoff as [Hu | [-> | ->]]; [discriminate|reflexivity|].
    now rewrite andb_false_r.
Qed.

End WatchHistory.

(** C10, as stated, fails: called without a logged-in user on the hook as
    first rendered, [addToWatchHistory] leaves the history empty, so the id
    just watched is not in first position; and for a logged-in user whose
    write localStorage refuses, the history is not updated either. *)
Lemma addToWatchHistory_may_leave_history_unchanged :
  head (useVideoDatabase.watchHistory
          (snd (useVideoDatabase.addToWatchHistory useVideoDatabase.anonymous true "1"
                  useVideoDatabase.initial))) = None /\
  head (useVideoDatabase.watchHistory
          (snd (useVideoDatabase.addToWatchHistory
                  (useVideoDatabase.loggedIn Sample.demo) false "1"
                  useVideoDatabase.initial))) = None.
Proof. split; reflexivity. Qed.

(* ===================================================================== *)
(** ** The theorems at sample inputs *)
(* ===================================================================== *)

Section Witnesses.

Import IndexedDBStorageService VideoUploadModal UserService useVideoDatabase Sample.

(** C1 at the 2MB clip, stored into the fresh service and read back. *)
Lemma storeVideoFile_then_getStoredVideo_size_witness :
  storeVideoFile browser clip "Test" "" (0 # 1)%Q "/default-thumbnail.jpg" fresh
    = (Resolved clip_id, after_put) /\
  exists record,
    sv_id record = clip_id /\
    sv_file record = clip /\
    sv_size record = file_size (sv_file record) /\
    forall b',
      getStoredVideo b' clip_id after_put =
        (if idb_request_ok b' then Resolved (Some record)
         else Rejected (JsError "Failed to retrieve video"), after_put).
Proof.
  split; [vm_compute; reflexivity|].
  apply (proj2 (storeVideoFile_then_getStoredVideo_size
                  browser clip "Test" "" (0 # 1)%Q "/default-thumbnail.jpg" fresh)).
  vm_compute; reflexivity.
Defined.

(** C2 at the 200MB film, selected and submitted by a logged-in user. *)
Lemma handleSubmit_too_large_rejected_witness :
  videoFile (modal (app_with film)) = Some film /\
  (maxSize < file_size film)%N /\
  exists message,
    handleSubmit (Some demo) upload_ok (app_with film)
      = emit (ToastError message) (app_with film) /\
    store (snd (handleSubmit (Some demo) upload_ok (app_with film)))
      = store (app_with film) /\
    size (videos (store (snd (handleSubmit (Some demo) upload_ok (app_with film)))))
      = size (videos (store (app_with film))) /\
    (is_Some (Some demo) ->
     truthy (trim (title (formData (modal (app_with film))))) = true ->
     message = "Video file is too large. Maximum size is 100MB.").
Proof.
  split; [reflexivity|]. split; [reflexivity|].
  apply (proj2 (handleSubmit_too_large_rejected (Some demo) upload_ok (app_with film) film));
    reflexivity.
Defined.

(** C3 at the 2MB clip: uploaded, the catalog gains the entry that points
    at the stored id; with the database closed, the put rejects and the
    catalog stays empty. *)
Lemma handleSubmit_catalog_entry_after_put_witness :
  (exists entry,
     catalog (snd (handleSubmit (Some demo) upload_ok app)) = [entry] /\
     videoUrl entry = "stored://" +:+ clip_id /\
     is_Some (videos (store (snd (handleSubmit (Some demo) upload_ok app))) !! clip_id)) /\
  (videoFile (modal app) = Some clip /\
   storeVideoFile browser_closed clip "Test" "" (65 # 1)%Q "data:image/jpeg;base64,BBBB" fresh
     = (Rejected (JsError "Failed to open IndexedDB"), fresh) /\
   catalog (snd (handleSubmit (Some demo) upload_store_closed app)) = catalog app).
Proof.
  split.
  - destruct (proj1 (handleSubmit_catalog_entry_after_put (Some demo) upload_ok app))
      as [Hsame | (u & video & thumbnailUrl & duration & videoId & entry
                   & _ & _ & Hput & Hcatalog & Hurl)].
    + vm_compute in Hsame. discriminate Hsame.
    + exists entry. apply storeVideoFile_resolved in Hput as (-> & _ & Hstore).
      split; [exact Hcatalog|]. split; [exact Hurl|].
      rewrite Hstore. cbn [videos]. rewrite lookup_insert_eq. eexists; reflexivity.
  - split; [reflexivity|]. split; [vm_compute; reflexivity|].
    apply (proj2 (handleSubmit_catalog_entry_after_put (Some demo) upload_store_closed app)
             clip (65 # 1)%Q "data:image/jpeg;base64,BBBB"
             (JsError "Failed to open IndexedDB") fresh);
      [reflexivity|vm_compute; reflexivity].
Defined.

(** C4 at the 2MB clip: with no frame to sample the upload goes on with the
    placeholder; with no duration it is given up. *)
Lemma handleSubmit_derivation_failures_witness :
  rejection (Some demo) (modal app) = None /\
  videoFile (modal app) = Some clip /\
  (thumbnailFile (modal app) = None /\
   generateVideoThumbnail upload_no_frame clip = Rejected (JsError "Failed to load video") /\
   getVideoDuration upload_no_frame clip = Resolved (65 # 1)%Q /\
   store (snd (handleSubmit (Some demo) upload_no_frame app))
     = snd (storeVideoFile browser clip "Test" "" (65 # 1)%Q "/default-thumbnail.jpg" fresh)) /\
  (getVideoDuration upload_no_duration clip
     = Rejected (JsError "Failed to get video duration") /\
   store (snd (handleSubmit (Some demo) upload_no_duration app)) = store app /\
   catalog (snd (handleSubmit (Some demo) upload_no_duration app)) = catalog app).
Proof.
  split; [reflexivity|]. split; [reflexivity|]. split.
  - split; [reflexivity|]. split; [reflexivity|]. split; [reflexivity|].
    apply (proj1 (handleSubmit_derivation_failures demo upload_no_frame app clip
                    eq_refl eq_refl)
             (JsError "Failed to load video") (65 # 1)%Q eq_refl eq_refl eq_refl).
  - split; [reflexivity|].
    destruct (proj1 (proj2 (handleSubmit_derivation_failures demo upload_no_duration app clip
                               eq_refl eq_refl))
                (JsError "Failed to get video duration") eq_refl
                ltac:(discriminate))
      as (Hstore & Hcatalog & _).
    split; assumption.
Defined.

(** C5 at the 2MB PDF, offered to the dialog and, were it selected,
    submitted. *)
Lemma handleSubmit_not_video_rejected_witness :
  startsWith (file_type paper) "video/" = false /\
  videoFile (modal (app_with paper)) = Some paper /\
  exists message,
    handleSubmit (Some demo) upload_ok (app_with paper)
      = emit (ToastError message) (app_with paper) /\
    In message validationMessages /\
    List.filter derivesThumbnail
      (effects (snd (handleSubmit (Some demo) upload_ok (app_with paper))))
      = List.filter derivesThumbnail (effects (app_with paper)) /\
    (is_Some (Some demo) ->
     truthy (trim (title (formData (modal (app_with paper))))) = true ->
     (file_size paper <= maxSize)%N ->
     message = "Please select a valid video file").
Proof.
  split; [reflexivity|]. split; [reflexivity|].
  apply (proj2 (handleSubmit_not_video_rejected (Some demo) upload_ok (app_with paper) paper
                  eq_refl)).
  reflexivity.
Defined.

(** C6 at the service that holds the clip. *)
Lemma deleteStoredVideo_then_absent_and_one_less_witness :
  is_Some (videos after_put !! clip_id) /\
  exists s',
    deleteStoredVideo browser clip_id after_put = (Resolved tt, s') /\
    getStoredVideo browser clip_id s' = (Resolved None, s') /\
    exists before after s1 s2,
      getStorageStats browser after_put = (Resolved before, s1) /\
      getStorageStats browser s' = (Resolved after, s2) /\
      totalVideos before = S (totalVideos after).
Proof.
  assert (Hheld : videos after_put !! clip_id
                  = Some (recordOf browser clip "Test" "" (0 # 1)%Q "/default-thumbnail.jpg"))
    by (vm_compute; reflexivity).
  split; [rewrite Hheld; eexists; reflexivity|].
  destruct (deleteStoredVideo_then_absent_and_one_less browser clip_id after_put _ Hheld)
    as [Hresolves Hafter].
  destruct (Hresolves (or_introl eq_refl) eq_refl) as [s' Hdelete].
  destruct (Hafter s' Hdelete) as (Hget & Hstats & _).
  exists s'. split; [exact Hdelete|]. split; [exact (Hget browser)|].
  exact (Hstats browser browser (or_introl eq_refl) eq_refl eq_refl).
Defined.

(** C7 at the fresh service, in a browser where every request succeeds. *)
Lemma getStoredVideoUrl_missing_witness :
  videos fresh !! "video_0_missing" = None /\
  fst (getStoredVideoUrl browser "video_0_missing" fresh) = Resolved None.
Proof.
  split; [reflexivity|].
  exact (getStoredVideoUrl_missing browser "video_0_missing" fresh eq_refl).
Defined.

(** C8 at the service that holds the clip. *)
Lemma getStorageStats_totalVideos_getAllStoredVideos_witness :
  exists st s1 vs s2,
    getStorageStats browser after_put = (Resolved st, s1) /\
    getAllStoredVideos browser after_put = (Resolved vs, s2) /\
    totalVideos st = length vs /\
    length vs = 1%nat.
Proof.
  destruct (getStorageStats browser after_put) as [[st|e|] s1] eqn:Hstats;
    [|vm_compute in Hstats; discriminate Hstats..].
  destruct (getAllStoredVideos browser after_put) as [[vs|e|] s2] eqn:Hall;
    [|vm_compute in Hall; discriminate Hall..].
  exists st, s1, vs, s2. split; [reflexivity|]. split; [reflexivity|]. split.
  - exact (proj2 (getStorageStats_totalVideos_getAllStoredVideos browser after_put)
             browser st s1 vs s2 Hstats Hall).
  - vm_compute in Hall. injection Hall as <- _. reflexivity.
Defined.

(** C9 for user "1" and video "7", already on the stored wishlist. *)
Lemma addToWishlist_idempotent_no_duplicates_witness :
  "7" ∈ storedWishlist "1" wished /\
  UserService.addToWishlist true "1" "7" wished = (Resolved tt, wished).
Proof.
  assert (Hin : "7" ∈ storedWishlist "1" wished) by (vm_compute; constructor).
  split; [exact Hin|].
  exact (proj1 (addToWishlist_idempotent_no_duplicates "1" "7") true wished Hin).
Defined.

(** C10 on the hook as first rendered, for a logged-in user. *)
Lemma addToWatchHistory_front_bounded_no_duplicates_witness :
  reachable initial /\
  head (watchHistory (snd (useVideoDatabase.addToWatchHistory (loggedIn demo) true "1" initial)))
    = Some "1".
Proof.
  split; [constructor|].
  destruct (addToWatchHistory_front_bounded_no_duplicates initial (loggedIn demo) true "1"
              reachable_initial) as (_ & _ & Hfront & _).
  destruct (Hfront (ex_intro _ demo eq_refl) eq_refl eq_refl) as [_ Hhead].
  exact Hhead.
Defined.

End Witnesses.

(* ===================================================================== *)
(** ** More on the blob store *)
(* ===================================================================== *)

Section BlobStoreMore.

Import IndexedDBStorageService.
Context `{VideoUtils}.

(** Below 2^53 every integer is a double. *)
Lemma roundToDouble_exact p : 0 <= p < 2 ^ 53 -> roundToDouble p = p.
Proof.
  intros Hp. unfold roundToDouble. cbv zeta.
  destruct (Z.eq_dec p 0) as [-> | Hpos]; [reflexivity|].
  assert (Hlog : Z.log2 p < 53) by (apply Z.log2_lt_pow2; lia).
  now rewrite (proj2 (Z.leb_le _ _)) by lia.
Qed.

(** From 2^53 on, rounding stays at or above 2^53. *)
Lemma roundToDouble_large p : 2 ^ 53 <= p -> 2 ^ 53 <= roundToDouble p.
Proof.
  intros Hp. unfold roundToDouble. cbv zeta.
  assert (Hlog : 53 <= Z.log2 p) by (apply Z.log2_le_pow2; lia).
  rewrite (proj2 (Z.leb_gt _ _)) by lia.
  set (shift := Z.log2 p + 1 - 53).
  assert (Hshift : 1 <= shift) by (unfold shift; lia).
  assert (Hq : 2 ^ 52 <= Z.shiftr p shift).
  { rewrite Z.shiftr_div_pow2 by lia.
    replace (2 ^ 52) with (2 ^ (Z.log2 p - shift)) by (unfold shift; f_equal; lia).
    rewrite Z.pow_sub_r by (unfold shift; lia).
    apply Z.div_le_mono; [apply Z.pow_pos_nonneg; lia|].
    apply Z.log2_spec. lia. }
  assert (Hm : Z.shiftr p shift
               <= (if Z.shiftl 1 (shift - 1) <? Z.land p (Z.ones shift)
                   then Z.shiftr p shift + 1
                   else if Z.land p (Z.ones shift) <? Z.shiftl 1 (shift - 1)
                        then Z.shiftr p shift
                        else Z.shiftr p shift + Z.land (Z.shiftr p shift) 1)).
  { destruct (_ <? _); [lia|]. destruct (_ <? _); [lia|].
    assert (0 <= Z.land (Z.shiftr p shift) 1) by (apply Z.land_nonneg; lia). lia. }
  rewrite Z.shiftl_mul_pow2 by lia.
  assert (Hpow : 2 ^ 1 <= 2 ^ shift) by (apply Z.pow_le_mono_r; lia).
  change (2 ^ 53) with (2 ^ 52 * 2 ^ 1).
  apply Z.mul_le_mono_nonneg; lia.
Qed.

Lemma addSizes_exact sum size :
  (sum + size < 2 ^ 53)%N -> addSizes sum size = (sum + size)%N.
Proof.
  intros Hsmall. unfold addSizes. rewrite roundToDouble_exact; [apply N2Z.id|].
  split; [lia|]. change (2 ^ 53) with (Z.of_N (2 ^ 53)). lia.
Qed.

Lemma addSizes_large sum size :
  (2 ^ 53 <= sum + size)%N -> (2 ^ 53 <= addSizes sum size)%N.
Proof.
  intros Hlarge. unfold addSizes.
  assert (Hrounded : 2 ^ 53 <= roundToDouble (Z.of_N (sum + size))).
  { apply roundToDouble_large. change (2 ^ 53) with (Z.of_N (2 ^ 53)). lia. }
  change (2 ^ 53)%N with (Z.to_N (2 ^ 53)). lia.
Qed.

(** A total that has reached 2^53 stays there. *)
Lemma sumSizes_large (vs : list StoredVideo) (start : N) :
  (2 ^ 53 <= start)%N ->
  (2 ^ 53 <= fold_left (fun sum video => addSizes sum (sv_size video)) vs start)%N.
Proof.
  revert start. induction vs as [|v vs IH]; intros start Hstart; cbn [fold_left].
  - exact Hstart.
  - apply IH, addSizes_large. lia.
Qed.

(** While the sizes add up to less than 2^53, the total is their sum. *)
Lemma sumSizes_exact (vs : list StoredVideo) (start : N) :
  (start + foldr N.add 0 (sv_size <$> vs) < 2 ^ 53)%N ->
  fold_left (fun sum video => addSizes sum (sv_size video)) vs start
    = (start + foldr N.add 0 (sv_size <$> vs))%N.
Proof.
  revert start. induction vs as [|v vs IH]; intros start Hsmall; cbn [fold_left].
  - cbn. lia.
  - cbn [fmap list_fmap foldr] in *. rewrite addSizes_exact by lia.
    rewrite IH by lia. lia.
Qed.

(** A total below 2^53 is the sum of the sizes. *)
Lemma sumSizes_small (vs : list StoredVideo) (start : N) :
  (fold_left (fun sum video => addSizes sum (sv_size video)) vs start < 2 ^ 53)%N ->
  fold_left (fun sum video => addSizes sum (sv_size video)) vs start
    = (start + foldr N.add 0 (sv_size <$> vs))%N.
Proof.
  revert start. induction vs as [|v vs IH]; intros start Hsmall; cbn [fold_left] in *.
  - cbn. lia.
  - cbn [fmap list_fmap foldr].
    destruct (N.lt_ge_cases (start + sv_size v) (2 ^ 53)) as [Hfits | Hlarge].
    + rewrite addSizes_exact in * by exact Hfits. rewrite IH by exact Hsmall. lia.
    + apply addSizes_large in Hlarge.
      pose proof (sumSizes_large vs _ Hlarge). lia.
Qed.

Lemma sum_Permutation (sizes sizes' : list N) :
  sizes ≡ₚ sizes' -> foldr N.add 0%N sizes = foldr N.add 0%N sizes'.
Proof.
  induction 1 as [|x l l' _ IH|x y l|l l' l'' _ IH1 _ IH2]; cbn; lia.
Qed.

(** The total after one more record, while it stays below 2^53. *)
Lemma sumSizes_insert (m : gmap string StoredVideo) id v :
  m !! id = None ->
  (sumSizes (snd <$> map_to_list m) + sv_size v < 2 ^ 53)%N ->
  sumSizes (snd <$> map_to_list (<[id := v]> m))
    = (sumSizes (snd <$> map_to_list m) + sv_size v)%N.
Proof.
  intros Hfree Hsmall. unfold sumSizes in *.
  rewrite (sumSizes_small (snd <$> map_to_list m) 0) in * by lia.
  assert (Hsum : foldr N.add 0%N (sv_size <$> (snd <$> map_to_list (<[id := v]> m)))
                 = (sv_size v + foldr N.add 0%N (sv_size <$> (snd <$> map_to_list m)))%N).
  { rewrite (sum_Permutation _ (sv_size <$> (snd <$> ((id, v) :: map_to_list m)))).
    - reflexivity.
    - apply fmap_Permutation, fmap_Permutation. now apply map_to_list_insert. }
  rewrite sumSizes_exact; rewrite Hsum; lia.
Qed.

Lemma getStorageStats_outcome b s :
  getStorageStats b s =
    if negb (db s) && negb (idb_open_ok b)
    then (Rejected (JsError "Failed to open IndexedDB"), s)
    else if idb_request_ok b
         then (Resolved
                 {| totalVideos := size (videos s);
                    totalSize := sumSizes (snd <$> map_to_list (videos s));
                    availableQuota :=
                      match storage b with
                      | EstimateResolves quota _ => default 0 quota
                      | _ => 0
                      end;
                    usedQuota :=
                      match storage b with
                      | EstimateResolves _ usage => default 0 usage
                      | _ => 0
                      end |},
               {| db := true; videos := videos s |})
         else (Rejected (JsError "Failed to retrieve videos"),
               {| db := true; videos := videos s |}).
Proof.
  unfold getStorageStats, bind. rewrite getAllStoredVideos_outcome.
  destruct (negb (db s) && negb (idb_open_ok b)); [reflexivity|].
  destruct (idb_request_ok b); [|reflexivity].
  unfold resolve. rewrite length_fmap, length_map_to_list.
  destruct (storage b); reflexivity.
Qed.

Lemma clearAllVideos_outcome b s :
  clearAllVideos b s =
    if negb (db s) && negb (idb_open_ok b)
    then (Rejected (JsError "Failed to open IndexedDB"), s)
    else if idb_request_ok b
         then (Resolved tt, {| db := true; videos := ∅ |})
         else (Rejected (JsError "Failed to clear videos"),
               {| db := true; videos := videos s |}).
Proof.
  unfold clearAllVideos, bind, ensureDB, initDB, with_videos.
  destruct s as [d m]; cbn.
  destruct d; cbn; [now destruct (idb_request_ok b)|].
  destruct (idb_open_ok b); cbn; [now destruct (idb_request_ok b)|reflexivity].
Qed.

Lemma deleteStoredVideo_outcome b videoId s :
  deleteStoredVideo b videoId s =
    if negb (db s) && negb (idb_open_ok b)
    then (Rejected (JsError "Failed to open IndexedDB"), s)
    else if idb_request_ok b
         then (Resolved tt, {| db := true; videos := delete videoId (videos s) |})
         else (Rejected (JsError "Failed to delete video"),
               {| db := true; videos := videos s |}).
Proof.
  unfold deleteStoredVideo, bind, ensureDB, initDB, with_videos.
  destruct s as [d m]; cbn.
  destruct d; cbn; [now destruct (idb_request_ok b)|].
  destruct (idb_open_ok b); cbn; [now destruct (idb_request_ok b)|reflexivity].
Qed.

Lemma getStoredVideoUrl_outcome b videoId s :
  getStoredVideoUrl b videoId s =
    if negb (db s) && negb (idb_open_ok b)
    then (Rejected (JsError "Failed to open IndexedDB"), s)
    else (if idb_request_ok b
          then Resolved ((fun v => createObjectURL b (sv_file v)) <$> videos s !! videoId)
          else Rejected (JsError "Failed to retrieve video"),
          {| db := true; videos := videos s |}).
Proof.
  unfold getStoredVideoUrl, bind. rewrite getStoredVideo_outcome.
  destruct (negb (db s) && negb (idb_open_ok b)); [reflexivity|].
  destruct (idb_request_ok b); [|reflexivity].
  now destruct (videos s !! videoId).
Qed.


Lemma ensureDB_rejected b s e s' : ensureDB b s = (Rejected e, s') -> s' = s.
Proof.
  unfold ensureDB, initDB. destruct (db s); [discriminate|].
  destruct (idb_open_ok b); [discriminate|]. now intros [= _ <-].
Qed.

Lemma storeVideoFile_rejected b file title description duration thumbnail s e s' :
  storeVideoFile b file title description duration thumbnail s = (Rejected e, s') ->
  videos s' = videos s.
Proof.
  unfold storeVideoFile, bind.
  destruct (ensureDB b s) as [[[]|e0|] s0] eqn:He.
  - apply ensureDB_resolves in He as (Hdb & Hv & _). rewrite Hdb. cbn.
    unfold checkQuota, store_add, resolve, reject.
    destruct (storage b) as [|e1|quota usage]; cbn;
      try destruct (overQuota file (availableSpace quota usage)); cbn;
      try destruct (videos s0 !! newVideoId b);
      try destruct (idb_request_ok b);
      intros Heq; inversion Heq; subst; assumption.
  - apply ensureDB_rejected in He as ->. intros Heq. now inversion Heq.
  - discriminate.
Qed.

(** X1. Once [clearAllVideos] has resolved the store is empty: a get with
    any id finds nothing, the scan returns no record and the statistics
    count no video and no byte. It resolves whenever the database opens and
    the clear request succeeds. *)
Theorem clearAllVideos_empties_store b s :
  (db s = true \/ idb_open_ok b = true ->
   idb_request_ok b = true ->
   exists s', clearAllVideos b s = (Resolved tt, s')) /\
  (forall s',
     clearAllVideos b s = (Resolved tt, s') ->
     (forall b' videoId,
        getStoredVideo b' videoId s' =
          (if idb_request_ok b' then Resolved None
           else Rejected (JsError "Failed to retrieve video"), s')) /\
     (forall b',
        idb_request_ok b' = true ->
        getAllStoredVideos b' s' = (Resolved [], s') /\
        exists st,
          getStorageStats b' s' = (Resolved st, s') /\
          totalVideos st = 0%nat /\ totalSize st = 0%N)).
Proof.
  split.
  - intros Hopen Hreq. rewrite clearAllVideos_outcome, Hreq.
    replace (negb (db s) && negb (idb_open_ok b)) with false
      by (destruct Hopen as [-> | ->]; cbn; now rewrite ?andb_false_r).
    eauto.
  - intros s' Hclear. rewrite clearAllVideos_outcome in Hclear.
    destruct (negb (db s) && negb (idb_open_ok b)); [discriminate|].
    destruct (idb_request_ok b); [|discriminate]. injection Hclear as <-.
    split.
    + intros b' videoId. rewrite getStoredVideo_open by reflexivity. cbn.
      now rewrite lookup_empty.
    + intros b' Hreq. split.
      * rewrite getAllStoredVideos_outcome. cbn. rewrite Hreq.
        now rewrite map_to_list_empty.
      * rewrite getStorageStats_outcome. cbn. rewrite Hreq.
        eexists. split; [reflexivity|]. cbn. rewrite map_to_list_empty.
        split; [apply map_size_empty|reflexivity].
Qed.

(** X2. A put that resolved added exactly one record: every other id reads
    as before, and between statistics taken before and after the put the
    video count grows by one and the byte total by the size of the file, as
    long as the total stays below 2^53 (beyond which the sum, made in
    doubles, is rounded). *)
Theorem storeVideoFile_adds_exactly_one
    b file title description duration thumbnail s videoId s' :
  storeVideoFile b file title description duration thumbnail s = (Resolved videoId, s') ->
  (forall other, other <> videoId -> videos s' !! other = videos s !! other) /\
  (forall b1 b2 before after s1 s2,
     getStorageStats b1 s = (Resolved before, s1) ->
     getStorageStats b2 s' = (Resolved after, s2) ->
     totalVideos after = S (totalVideos before) /\
     ((totalSize before + file_size file < 2 ^ 53)%N ->
      totalSize after = (totalSize before + file_size file)%N)).
Proof.
  intros Hput. apply storeVideoFile_resolved in Hput as (_ & Hfree & ->).
  split.
  - intros other Hother. cbn. now rewrite lookup_insert_ne.
  - intros b1 b2 before after s1 s2 Hbefore Hafter.
    rewrite getStorageStats_outcome in Hbefore, Hafter. cbn in Hafter.
    destruct (negb (db s) && negb (idb_open_ok b1)); [discriminate|].
    destruct (idb_request_ok b1); [|discriminate].
    destruct (idb_request_ok b2); [|discriminate].
    injection Hbefore as <- _. injection Hafter as <- _. cbn.
    split.
    + now apply map_size_insert_None.
    + intros Hsmall. now apply sumSizes_insert.
Qed.

(** X3. A put that rejects writes nothing. It rejects with the quota
    message when the estimate leaves too little room, and with 'Failed to
    store video file' when the generated id is already taken, in which case
    the record already stored under that id is kept. *)
Theorem storeVideoFile_rejected_writes_nothing
    b file title description duration thumbnail s :
  (forall e s',
     storeVideoFile b file title description duration thumbnail s = (Rejected e, s') ->
     videos s' = videos s) /\
  (forall quota usage,
     db s = true \/ idb_open_ok b = true ->
     storage b = EstimateResolves quota usage ->
     overQuota file (availableSpace quota usage) = true ->
     exists s',
       storeVideoFile b file title description duration thumbnail s
         = (Rejected (JsError (quotaMessage file (availableSpace quota usage))), s')) /\
  (forall held,
     db s = true \/ idb_open_ok b = true ->
     quotaAllows b file ->
     videos s !! newVideoId b = Some held ->
     exists s',
       storeVideoFile b file title description duration thumbnail s
         = (Rejected (JsError "Failed to store video file"), s') /\
       videos s' !! newVideoId b = Some held).
Proof.
  split; [|split].
  - intros e s'. apply storeVideoFile_rejected.
  - intros quota usage Hopen Hstorage Hover.
    unfold storeVideoFile, bind. rewrite (ensureDB_opens _ _ Hopen). cbn.
    unfold checkQuota. rewrite Hstorage, Hover. cbn. eauto.
  - intros held Hopen Hquota Hheld.
    unfold storeVideoFile, bind. rewrite (ensureDB_opens _ _ Hopen). cbn.
    unfold quotaAllows in Hquota. unfold checkQuota.
    destruct (storage b) as [|e|quota usage]; cbn; try contradiction.
    + unfold store_add; cbn. rewrite Hheld. eauto.
    + rewrite Hquota; cbn. unfold store_add; cbn. rewrite Hheld. eauto.
Qed.

(** Reading never writes: whatever the browser answers,
    [getStoredVideo], [getAllStoredVideos], [getStoredVideoUrl] and
    [getStorageStats] leave every record of the store as it was. *)
Theorem reads_leave_the_records b videoId s :
  videos (snd (getStoredVideo b videoId s)) = videos s /\
  videos (snd (getAllStoredVideos b s)) = videos s /\
  videos (snd (getStoredVideoUrl b videoId s)) = videos s /\
  videos (snd (getStorageStats b s)) = videos s.
Proof.
  rewrite getStoredVideo_outcome, getAllStoredVideos_outcome,
    getStoredVideoUrl_outcome, getStorageStats_outcome.
  destruct (negb (db s) && negb (idb_open_ok b)); [now repeat split|].
  destruct (idb_request_ok b); now repeat split.
Qed.

(** X4. [deleteStoredVideo] removes the record under the given id and no
    other: every other id reads as before; for an id the store does not
    hold the delete still resolves and the store keeps all its records; and
    deleting again changes nothing. *)
Theorem deleteStoredVideo_only_that_id b videoId s s' :
  deleteStoredVideo b videoId s = (Resolved tt, s') ->
  (forall other, other <> videoId -> videos s' !! other = videos s !! other) /\
  (videos s !! videoId = None -> videos s' = videos s) /\
  (forall b' s'',
     deleteStoredVideo b' videoId s' = (Resolved tt, s'') -> s'' = s').
Proof.
  intros Hdelete. apply deleteStoredVideo_resolved in Hdelete as ->.
  split; [|split].
  - intros other Hother. cbn. now rewrite lookup_delete_ne.
  - intros Hnone. cbn. now apply delete_id.
  - intros b' s'' Hagain. apply deleteStoredVideo_resolved in Hagain as ->.
    cbn. now rewrite delete_delete_eq.
Qed.

Lemma getStoredVideoUrl_stored
    b file title description duration thumbnail s videoId s' :
  storeVideoFile b file title description duration thumbnail s = (Resolved videoId, s') ->
  forall b',
    getStoredVideoUrl b' videoId s' =
      (if idb_request_ok b' then Resolved (Some (createObjectURL b' file))
       else Rejected (JsError "Failed to retrieve video"), s').
Proof.
  intros Hput b'. apply storeVideoFile_resolved in Hput as (_ & _ & ->).
  rewrite getStoredVideoUrl_outcome. cbn. rewrite lookup_insert_eq.
  now destruct (idb_request_ok b').
Qed.

(** X5. After a put that resolved, [getStoredVideoUrl] with the returned id
    yields the object URL the browser makes for the very file that was
    stored (or fails as a request); it never answers null. *)
Theorem getStoredVideoUrl_after_put
    b file title description duration thumbnail s videoId s' :
  storeVideoFile b file title description duration thumbnail s = (Resolved videoId, s') ->
  forall b',
    getStoredVideoUrl b' videoId s' =
      (if idb_request_ok b' then Resolved (Some (createObjectURL b' file))
       else Rejected (JsError "Failed to retrieve video"), s').
Proof.
  intros Hput b'. apply storeVideoFile_resolved in Hput as (_ & _ & ->).
  rewrite getStoredVideoUrl_outcome. cbn [videos]. rewrite lookup_insert_eq.
  cbn [recordOf sv_file]. now destruct (idb_request_ok b').
Qed.

(** X6. A storage estimate that rejects is handled differently by the two
    methods that ask for it: [getStorageStats] swallows the failure and
    reports both quota figures as 0, next to the true record count, while
    [storeVideoFile] passes the failure on to its caller and stores
    nothing. *)
Theorem estimate_failure_swallowed_by_stats_not_by_put
    b file title description duration thumbnail s e :
  storage b = EstimateRejects e ->
  db s = true \/ idb_open_ok b = true ->
  (idb_request_ok b = true ->
   exists st s',
     getStorageStats b s = (Resolved st, s') /\
     availableQuota st = 0 /\ usedQuota st = 0 /\
     totalVideos st = size (videos s)) /\
  (exists s',
     storeVideoFile b file title description duration thumbnail s = (Rejected e, s') /\
     videos s' = videos s).
Proof.
  intros Hstorage Hopen. split.
  - intros Hreq. rewrite getStorageStats_outcome, Hreq, Hstorage.
    replace (negb (db s) && negb (idb_open_ok b)) with false
      by (destruct Hopen as [-> | ->]; cbn; now rewrite ?andb_false_r).
    do 2 eexists. repeat split.
  - unfold storeVideoFile, bind. rewrite (ensureDB_opens _ _ Hopen). cbn.
    unfold checkQuota. rewrite Hstorage. cbn. eauto.
Qed.

(** X7. The database is opened lazily by whichever method runs first. When
    that open fails every method rejects with 'Failed to open IndexedDB' and
    leaves the service as it was, so the next call tries to open again; when
    a method has resolved the handle is open, and from then on no method
    depends on whether the database could be opened. *)
Theorem lazy_open_failure_and_reuse b file title description duration thumbnail videoId s :
  (db s = false -> idb_open_ok b = false ->
   let failed {A} : Result A * Service :=
     (Rejected (JsError "Failed to open IndexedDB"), s) in
   storeVideoFile b file title description duration thumbnail s = failed /\
   getStoredVideo b videoId s = failed /\
   getAllStoredVideos b s = failed /\
   deleteStoredVideo b videoId s = failed /\
   getStoredVideoUrl b videoId s = failed /\
   getStorageStats b s = failed /\
   clearAllVideos b s = failed) /\
  (forall s',
     (exists r, storeVideoFile b file title description duration thumbnail s = (Resolved r, s')) \/
     (exists r, getStoredVideo b videoId s = (Resolved r, s')) \/
     (exists r, getAllStoredVideos b s = (Resolved r, s')) \/
     deleteStoredVideo b videoId s = (Resolved tt, s') \/
     clearAllVideos b s = (Resolved tt, s') ->
     db s' = true /\
     forall b', ensureDB b' s' = (Resolved tt, s')).
Proof.
  split.
  - intros Hdb Hopen failed. subst failed.
    rewrite getStoredVideo_outcome, getAllStoredVideos_outcome, deleteStoredVideo_outcome,
      getStoredVideoUrl_outcome, getStorageStats_outcome, clearAllVideos_outcome.
    rewrite Hdb, Hopen. cbn. repeat split.
    unfold storeVideoFile, bind, ensureDB, initDB. now rewrite Hdb, Hopen.
  - intros s' Hresolved.
    assert (Hdb : db s' = true).
    { destruct Hresolved as [[r Hr] | [[r Hr] | [[r Hr] | [Hr | Hr]]]].
      - now apply storeVideoFile_resolved in Hr as (_ & _ & ->).
      - rewrite getStoredVideo_outcome in Hr.
        destruct (negb (db s) && negb (idb_open_ok b)); [discriminate|].
        now injection Hr as _ <-.
      - rewrite getAllStoredVideos_outcome in Hr.
        destruct (negb (db s) && negb (idb_open_ok b)); [discriminate|].
        now injection Hr as _ <-.
      - now apply deleteStoredVideo_resolved in Hr as ->.
      - rewrite clearAllVideos_outcome in Hr.
        destruct (negb (db s) && negb (idb_open_ok b)); [discriminate|].
        destruct (idb_request_ok b); [|discriminate]. now injection Hr as <-. }
    split; [exact Hdb|]. intros b'. unfold ensureDB. now rewrite Hdb.
Qed.

End BlobStoreMore.

(* ===================================================================== *)
(** ** More on the upload pipeline *)
(* ===================================================================== *)

Section UploadPipelineMore.

Import IndexedDBStorageService VideoUploadModal.
Context `{VideoUtils}.

Ltac run :=
  cbv beta iota zeta delta
    [upload deriveThumbnail simulateUpload bind try_catch try_finally
     emit setModal onStore onCatalog awaited resolve reject
     VideoService.uploadVideo modal store catalog effects fst snd].

Lemma or_else_empty s : or_else s "" = s.
Proof. now destruct s. Qed.

(** The [try] block, when every step goes through. *)
Lemma upload_resolves u b video thumbnail form m s c ef thumbnailUrl d videoId s1 :
  thumbnailOutcome b video thumbnail = Some thumbnailUrl ->
  getVideoDuration b video = Resolved d ->
  storeVideoFile (idb b) video (title form) (description form) d thumbnailUrl s
    = (Resolved videoId, s1) ->
  upload u b video thumbnail form
    {| modal := m; store := s; catalog := c; effects := ef |}
  = (Resolved tt,
     {| modal := setUploadProgress 0
                   (setThumbnailFile None
                      (setVideoFile None
                         (setFormData emptyForm (setUploadProgress 100 m))));
        store := s1;
        catalog := entryOf u b form videoId thumbnailUrl d :: c;
        effects := ef ++ [thumbnailCall video thumbnail; GetVideoDuration video;
                          ToastSuccess "Video uploaded successfully!";
                          TriggerRefresh; OnVideoUploaded; OnClose] |}).
Proof.
  intros Hthumb Hdur Hput. unfold thumbnailOutcome in Hthumb.
  destruct thumbnail as [image|]; run.
  - destruct (readAsDataURL b image) as [dataUrl|e|];
      [injection Hthumb as <-|discriminate..].
    run. rewrite Hdur. run. rewrite Hput. run.
    unfold entryOf, parsedTags, VideoService.field_or. cbn [default].
    rewrite !or_else_empty. rewrite <- !app_assoc. reflexivity.
  - destruct (generateVideoThumbnail b video) as [url|e|];
      [injection Hthumb as <-..|discriminate]; run; rewrite Hdur; run;
      rewrite Hput; run;
      unfold entryOf, parsedTags, VideoService.field_or; cbn [default];
      rewrite !or_else_empty; rewrite <- !app_assoc; reflexivity.
Qed.

(** X8. [handleSubmit] never rejects: whatever is thrown is turned into a
    toast. A submission turned down at validation resolves and leaves the
    dialog as it was. One that started uploading resolves with [isUploading]
    reset, whether the upload went through or was given up, as long as the
    file reader and the media element answer; when the reading of the
    supplied image, the frame sampling or the duration extraction never
    settles, [handleSubmit] never settles either, the [finally] block does
    not run, [isUploading] stays set, and nothing is stored or added to the
    catalog. *)
Theorem handleSubmit_never_rejects user b w :
  (forall e, fst (handleSubmit user b w) <> Rejected e) /\
  (forall message,
     rejection user (modal w) = Some message ->
     fst (handleSubmit user b w) = Resolved tt /\
     modal (snd (handleSubmit user b w)) = modal w) /\
  (forall video,
     rejection user (modal w) = None ->
     videoFile (modal w) = Some video ->
     if stalls b video (thumbnailFile (modal w))
     then fst (handleSubmit user b w) = Pending /\
          isUploading (modal (snd (handleSubmit user b w))) = true /\
          store (snd (handleSubmit user b w)) = store w /\
          catalog (snd (handleSubmit user b w)) = catalog w
     else fst (handleSubmit user b w) = Resolved tt /\
          isUploading (modal (snd (handleSubmit user b w))) = false).
Proof.
  destruct (rejection user (modal w)) as [message|] eqn:Hrej.
  - rewrite (handleSubmit_rejection _ _ _ _ Hrej).
    split; [intros e; cbn; discriminate|].
    split; [intros ? _; split; reflexivity|intros ? [=]].
  - destruct (handleSubmit_accepted user b w Hrej) as (u & video & -> & Hfile & Hsubmit).
    assert (Hcases :
              if stalls b video (thumbnailFile (modal w))
              then fst (handleSubmit (Some u) b w) = Pending /\
                   isUploading (modal (snd (handleSubmit (Some u) b w))) = true /\
                   store (snd (handleSubmit (Some u) b w)) = store w /\
                   catalog (snd (handleSubmit (Some u) b w)) = catalog w
              else fst (handleSubmit (Some u) b w) = Resolved tt /\
                   isUploading (modal (snd (handleSubmit (Some u) b w))) = false).
    { rewrite Hsubmit. clear Hsubmit Hrej Hfile.
      destruct w as [m s c ef]. cbn [modal store catalog effects].
      unfold stalls, isPending.
      destruct (thumbnailFile m) as [image|]; run.
      - destruct (readAsDataURL b image) as [dataUrl|e1|]; [| |repeat split].
        + destruct (getVideoDuration b video) as [d|e|].
          * pose proof (storeVideoFile_settles (idb b) video (title (formData m))
                          (description (formData m)) d dataUrl s) as Hsettles.
            destruct (storeVideoFile (idb b) video (title (formData m))
                        (description (formData m)) d dataUrl s) as [[videoId|e|] s1];
              [| |now destruct Hsettles].
            -- split; reflexivity.
            -- match goal with |- context [uploadFailed ?e' ?w0] =>
                 destruct (uploadFailed_toast e' w0) as (message & ->) end.
               split; reflexivity.
          * match goal with |- context [uploadFailed ?e' ?w0] =>
              destruct (uploadFailed_toast e' w0) as (message & ->) end.
            split; reflexivity.
          * repeat split.
        + match goal with |- context [uploadFailed ?e' ?w0] =>
            destruct (uploadFailed_toast e' w0) as (message & ->) end.
          split; reflexivity.
      - destruct (generateVideoThumbnail b video) as [url|e0|]; [| |repeat split].
        + destruct (getVideoDuration b video) as [d|e|].
          * pose proof (storeVideoFile_settles (idb b) video (title (formData m))
                          (description (formData m)) d url s) as Hsettles.
            destruct (storeVideoFile (idb b) video (title (formData m))
                        (description (formData m)) d url s) as [[videoId|e|] s1];
              [| |now destruct Hsettles].
            -- split; reflexivity.
            -- match goal with |- context [uploadFailed ?e' ?w0] =>
                 destruct (uploadFailed_toast e' w0) as (message & ->) end.
               split; reflexivity.
          * match goal with |- context [uploadFailed ?e' ?w0] =>
              destruct (uploadFailed_toast e' w0) as (message & ->) end.
            split; reflexivity.
          * repeat split.
        + destruct (getVideoDuration b video) as [d|e|].
          * pose proof (storeVideoFile_settles (idb b) video (title (formData m))
                          (description (formData m)) d "/default-thumbnail.jpg" s)
              as Hsettles.
            destruct (storeVideoFile (idb b) video (title (formData m))
                        (description (formData m)) d "/default-thumbnail.jpg" s)
              as [[videoId|e|] s1]; [| |now destruct Hsettles].
            -- split; reflexivity.
            -- match goal with |- context [uploadFailed ?e' ?w0] =>
                 destruct (uploadFailed_toast e' w0) as (message & ->) end.
               split; reflexivity.
          * match goal with |- context [uploadFailed ?e' ?w0] =>
              destruct (uploadFailed_toast e' w0) as (message & ->) end.
            split; reflexivity.
          * repeat split. }
    split; [|split].
    + intros e He. destruct (stalls b video (thumbnailFile (modal w)));
        destruct Hcases as [Hfst _]; rewrite Hfst in He; discriminate.
    + discriminate.
    + intros video' _ Hfile'. rewrite Hfile in Hfile'. injection Hfile' as <-.
      exact Hcases.
Qed.

(** X9. An upload that goes through, end to end. For a submission that
    passes validation, with the thumbnail derived, the duration read and the
    put resolved with an id: the store is the one the put left (the record
    holds the title as typed, the duration and the thumbnail), the catalog
    gains at its head the entry built from the form, which points at
    "stored://" followed by the id, the user sees the success toast after
    the two derivation calls, and the dialog is reset and closed. *)
Theorem handleSubmit_upload_goes_through u b w video thumbnailUrl d videoId s1 :
  rejection (Some u) (modal w) = None ->
  videoFile (modal w) = Some video ->
  thumbnailOutcome b video (thumbnailFile (modal w)) = Some thumbnailUrl ->
  getVideoDuration b video = Resolved d ->
  storeVideoFile (idb b) video (title (formData (modal w)))
    (description (formData (modal w))) d thumbnailUrl (store w) = (Resolved videoId, s1) ->
  handleSubmit (Some u) b w =
    (Resolved tt,
     {| modal := closedDialog;
        store := s1;
        catalog := entryOf u b (formData (modal w)) videoId thumbnailUrl d :: catalog w;
        effects := effects w ++
                     [thumbnailCall video (thumbnailFile (modal w));
                      GetVideoDuration video;
                      ToastSuccess "Video uploaded successfully!";
                      TriggerRefresh; OnVideoUploaded; OnClose] |}) /\
  videos s1 !! videoId
    = Some (recordOf (idb b) video (title (formData (modal w)))
              (description (formData (modal w))) d thumbnailUrl).
Proof.
  intros Hrej Hfile Hthumb Hdur Hput.
  destruct (handleSubmit_accepted (Some u) b w Hrej) as (u' & video' & [= <-] & Hfile' & ->).
  rewrite Hfile in Hfile'. injection Hfile' as <-.
  split.
  - unfold try_finally, try_catch.
    rewrite (upload_resolves _ _ _ _ _ _ _ _ _ _ _ _ _ Hthumb Hdur Hput).
    reflexivity.
  - apply storeVideoFile_resolved in Hput as (_ & _ & ->). cbn.
    apply lookup_insert_eq.
Qed.

(** X10. With a thumbnail image supplied no frame is ever sampled from the
    video: whatever happens afterwards, [handleSubmit] makes no
    [generateVideoThumbnail] call. *)
Theorem handleSubmit_custom_thumbnail_samples_no_frame user b w image sampled :
  thumbnailFile (modal w) = Some image ->
  In (GenerateVideoThumbnail sampled) (effects (snd (handleSubmit user b w))) ->
  In (GenerateVideoThumbnail sampled) (effects w).
Proof.
  intros Hthumb.
  destruct (rejection user (modal w)) as [message|] eqn:Hrej.
  - rewrite (handleSubmit_rejection _ _ _ _ Hrej). cbn.
    rewrite in_app_iff. intros [Hin | [Hin | []]]; [exact Hin|discriminate].
  - destruct (handleSubmit_accepted user b w Hrej) as (u & video & -> & Hfile & ->).
    rewrite Hthumb. destruct w as [m s c ef]. cbn [modal store catalog effects] in *.
    run.
    destruct (readAsDataURL b image) as [dataUrl|e1|].
    + destruct (getVideoDuration b video) as [d|e|].
      * destruct (storeVideoFile (idb b) video (title (formData m))
                    (description (formData m)) d dataUrl s) as [[videoId|e|] s1].
        -- run. rewrite !in_app_iff. cbn.
           intros [[[[[[Hin|Hin]|Hin]|Hin]|Hin]|Hin]|Hin];
             try exact Hin; destruct Hin as [Hin|[]]; discriminate.
        -- match goal with |- context [uploadFailed ?e' ?w0] =>
             destruct (uploadFailed_toast e' w0) as (message & ->) end.
           run. rewrite !in_app_iff. cbn.
           intros [[[Hin|Hin]|Hin]|Hin];
             try exact Hin; destruct Hin as [Hin|[]]; discriminate.
        -- run. rewrite !in_app_iff. cbn.
           intros [[Hin|Hin]|Hin];
             try exact Hin; destruct Hin as [Hin|[]]; discriminate.
      * match goal with |- context [uploadFailed ?e' ?w0] =>
          destruct (uploadFailed_toast e' w0) as (message & ->) end.
        run. rewrite !in_app_iff. cbn.
        intros [[[Hin|Hin]|Hin]|Hin];
          try exact Hin; destruct Hin as [Hin|[]]; discriminate.
      * run. rewrite !in_app_iff. cbn.
        intros [[Hin|Hin]|Hin];
          try exact Hin; destruct Hin as [Hin|[]]; discriminate.
    + match goal with |- context [uploadFailed ?e' ?w0] =>
        destruct (uploadFailed_toast e' w0) as (message & ->) end.
      run. rewrite !in_app_iff. cbn.
      intros [[Hin|Hin]|Hin];
        try exact Hin; destruct Hin as [Hin|[]]; discriminate.
    + run. rewrite !in_app_iff. cbn.
      intros [Hin|Hin];
        try exact Hin; destruct Hin as [Hin|[]]; discriminate.
Qed.

(** X11. The two size ceilings do not agree. A video file of more than 100MB
    and at most 500MB is taken by the dialog without a word, and becomes the
    selected file; submitting it, with a user logged in and a title typed,
    is then turned down as too large, and the store and the catalog are not
    touched. *)
Theorem dialog_accepts_what_submit_refuses u b w file :
  startsWith (file_type file) "video/" = true ->
  (maxSize < file_size file)%N ->
  (file_size file <= dialogMaxSize)%N ->
  truthy (trim (title (formData (modal w)))) = true ->
  exists w1,
    handleVideoFileChange (Some file) w = (Resolved tt, w1) /\
    videoFile (modal w1) = Some file /\
    effects w1 = effects w /\
    handleSubmit (Some u) b w1
      = emit (ToastError "Video file is too large. Maximum size is 100MB.") w1 /\
    store w1 = store w /\ catalog w1 = catalog w.
Proof.
  intros Htype Hbig Hsmall Htitle.
  apply N.ltb_lt in Hbig. apply N.ltb_ge in Hsmall.
  unfold handleVideoFileChange. rewrite Hsmall, Htype. cbn [negb].
  eexists. split; [reflexivity|].
  split; [reflexivity|]. split; [reflexivity|]. split; [|split; reflexivity].
  apply handleSubmit_rejection. unfold rejection. cbn.
  now rewrite Htitle, Hbig.
Qed.

End UploadPipelineMore.

(* ===================================================================== *)
(** ** Strings: trimming, tags, and what the error messages contain *)
(* ===================================================================== *)

Section Strings.

Lemma append_cons c (a b : string) : String c a +:+ b = String c (a +:+ b).
Proof. reflexivity. Qed.

Lemma append_empty (b : string) : "" +:+ b = b.
Proof. reflexivity. Qed.

(** [trimStart] drops one white-space code point after the other. *)
Lemma trimStart_step s :
  trimStart s = match afterWhiteSpace s with
                | Some rest => trimStart rest
                | None => s
                end.
Proof.
  destruct s as [|c1 [|c2 [|c3 rest3]]]; cbn [trimStart afterWhiteSpace];
    try reflexivity.
  - now destruct (isWhiteSpace c1).
  - destruct (isWhiteSpace c1); [reflexivity|]. now destruct (isWhiteSpace2 c1 c2).
  - destruct (isWhiteSpace c1); [reflexivity|].
    destruct (isWhiteSpace2 c1 c2); [reflexivity|].
    now destruct (isWhiteSpace3 c1 c2 c3).
Qed.

Lemma afterWhiteSpace_shorter s rest :
  afterWhiteSpace s = Some rest -> (String.length rest < String.length s)%nat.
Proof.
  destruct s as [|c1 [|c2 [|c3 rest3]]]; cbn [afterWhiteSpace]; try discriminate.
  - destruct (isWhiteSpace c1); [|discriminate]. intros [= <-]. cbn. lia.
  - destruct (isWhiteSpace c1); [intros [= <-]; cbn; lia|].
    destruct (isWhiteSpace2 c1 c2); [|discriminate]. intros [= <-]. cbn. lia.
  - destruct (isWhiteSpace c1); [intros [= <-]; cbn; lia|].
    destruct (isWhiteSpace2 c1 c2); [intros [= <-]; cbn; lia|].
    destruct (isWhiteSpace3 c1 c2 c3); [|discriminate]. intros [= <-]. cbn. lia.
Qed.

Lemma afterWhiteSpace_app a rest b :
  afterWhiteSpace a = Some rest -> afterWhiteSpace (a +:+ b) = Some (rest +:+ b).
Proof.
  destruct a as [|c1 [|c2 [|c3 rest3]]]; cbn [afterWhiteSpace]; try discriminate;
    rewrite ?append_cons, ?append_empty.
  - destruct (isWhiteSpace c1) eqn:H1; [|discriminate]. intros [= <-].
    destruct b; cbn [afterWhiteSpace]; now rewrite H1.
  - destruct (isWhiteSpace c1) eqn:H1.
    + intros [= <-]. cbn [afterWhiteSpace]. now rewrite H1.
    + destruct (isWhiteSpace2 c1 c2) eqn:H2; [|discriminate]. intros [= <-].
      cbn [afterWhiteSpace]. now rewrite H1, H2.
  - destruct (isWhiteSpace c1) eqn:H1.
    + intros [= <-]. cbn [afterWhiteSpace]. now rewrite H1.
    + destruct (isWhiteSpace2 c1 c2) eqn:H2.
      * intros [= <-]. cbn [afterWhiteSpace]. now rewrite H1, H2.
      * destruct (isWhiteSpace3 c1 c2 c3) eqn:H3; [|discriminate]. intros [= <-].
        cbn [afterWhiteSpace]. now rewrite H1, H2, H3.
Qed.

(** White space in front of a string is dropped with it. *)
Lemma trimStart_blank_app a b : trimStart a = "" -> trimStart (a +:+ b) = trimStart b.
Proof.
  remember (String.length a) as n eqn:Hn. revert a Hn.
  induction n as [n IH] using lt_wf_ind. intros a Hn Hblank.
  rewrite trimStart_step in Hblank.
  destruct (afterWhiteSpace a) as [rest|] eqn:Hafter.
  - rewrite (trimStart_step (a +:+ b)), (afterWhiteSpace_app _ _ _ Hafter).
    apply (IH (String.length rest)); [|reflexivity|exact Hblank].
    subst n. now apply afterWhiteSpace_shorter.
  - now subst a.
Qed.

(** What [trimStart] leaves does not start with white space. *)
Lemma trimStart_head s : afterWhiteSpace (trimStart s) = None.
Proof.
  remember (String.length s) as n eqn:Hn. revert s Hn.
  induction n as [n IH] using lt_wf_ind. intros s Hn.
  rewrite trimStart_step. destruct (afterWhiteSpace s) as [rest|] eqn:Hafter.
  - apply (IH (String.length rest)); [|reflexivity].
    subst n. now apply afterWhiteSpace_shorter.
  - exact Hafter.
Qed.

Lemma trimEnd_cons c rest :
  trimEnd (String c rest) =
    match trimStart (String c rest) with
    | EmptyString => EmptyString
    | _ => String c (trimEnd rest)
    end.
Proof. reflexivity. Qed.

(** What [trimEnd] cuts off is white space. *)
Lemma trimEnd_cut s : exists tail, s = trimEnd s +:+ tail /\ trimStart tail = "".
Proof.
  induction s as [|c rest (tail & Hrest & Htail)]; [now exists ""|].
  rewrite trimEnd_cons. destruct (trimStart (String c rest)) eqn:Hblank.
  - exists (String c rest). now rewrite append_empty.
  - exists tail. rewrite append_cons, <- Hrest. now split.
Qed.

Lemma trimEnd_idempotent s : trimEnd (trimEnd s) = trimEnd s.
Proof.
  induction s as [|c rest IH]; [reflexivity|].
  rewrite trimEnd_cons. destruct (trimStart (String c rest)) eqn:Hfull; [reflexivity|].
  rewrite trimEnd_cons. destruct (trimStart (String c (trimEnd rest))) eqn:Hblank.
  - exfalso. destruct (trimEnd_cut rest) as (tail & Hrest & Htail).
    rewrite Hrest, <- append_cons in Hfull.
    rewrite (trimStart_blank_app _ _ Hblank), Htail in Hfull. discriminate Hfull.
  - now rewrite IH.
Qed.

(** Cutting the end off brings no white space to the head. *)
Lemma trimStart_trimEnd s : afterWhiteSpace s = None -> trimStart (trimEnd s) = trimEnd s.
Proof.
  intros Hhead. rewrite trimStart_step.
  destruct (afterWhiteSpace (trimEnd s)) as [rest|] eqn:Hafter; [|reflexivity].
  destruct (trimEnd_cut s) as (tail & Hs & _).
  rewrite Hs, (afterWhiteSpace_app _ _ tail Hafter) in Hhead. discriminate Hhead.
Qed.

(** Trimming twice is trimming once. *)
Lemma trim_idempotent s : trim (trim s) = trim s.
Proof.
  unfold trim. rewrite (trimStart_trimEnd _ (trimStart_head s)).
  apply trimEnd_idempotent.
Qed.

Lemma parsedTags_clean form tag :
  In tag (VideoUploadModal.parsedTags form) -> tag <> "" /\ trim tag = tag.
Proof.
  unfold VideoUploadModal.parsedTags. rewrite List.filter_In, List.in_map_iff.
  intros [(raw & <- & _) Htruthy]. split.
  - intros Hempty. rewrite Hempty in Htruthy. discriminate.
  - apply trim_idempotent.
Qed.

(** The characters of a decimal rendering. *)
Lemma string_of_uint_digits d c :
  In c (list_ascii_of_string (NilEmpty.string_of_uint d)) ->
  In c (list_ascii_of_string "-0123456789").
Proof.
  induction d as [|d IH|d IH|d IH|d IH|d IH|d IH|d IH|d IH|d IH|d IH]; cbn;
    [tauto| | | | | | | | | | ];
    (intros [<- | Hin]; [cbn; tauto|exact (IH Hin)]).
Qed.

Lemma toString_digits z c :
  In c (list_ascii_of_string (toString z)) ->
  In c (list_ascii_of_string "-0123456789").
Proof.
  unfold toString, NilZero.string_of_int, NilZero.string_of_uint.
  destruct (Z.to_int z) as [d|d].
  - destruct d; try apply string_of_uint_digits. cbn. tauto.
  - cbn [list_ascii_of_string]. intros [<- | Hin]; [cbn; tauto|].
    destruct d; try exact (string_of_uint_digits _ _ Hin). cbn in *. tauto.
Qed.

Lemma includes_cons c s searched :
  includes (String c s) searched = String.prefix searched (String c s) || includes s searched.
Proof. reflexivity. Qed.

(** A search does not start inside a stretch of text that lacks the first
    character searched for. *)
Lemma includes_skip skipped rest first more :
  (forall c, In c (list_ascii_of_string skipped) -> c <> first) ->
  includes (skipped +:+ rest) (String first more) = includes rest (String first more).
Proof.
  induction skipped as [|c skipped IH]; intros Hnone; [reflexivity|].
  change (String c skipped +:+ rest) with (String c (skipped +:+ rest)).
  rewrite includes_cons. cbn [String.prefix].
  destruct (ascii_dec first c) as [Heq|Hne].
  - exfalso. apply (Hnone c); [cbn; tauto|congruence].
  - cbn [orb]. apply IH. intros c' Hc'. apply Hnone. cbn. tauto.
Qed.

Lemma includes_skip_number z rest first more :
  ~ In first (list_ascii_of_string "-0123456789") ->
  includes (toString z +:+ rest) (String first more) = includes rest (String first more).
Proof.
  intros Hfirst. apply includes_skip. intros c Hc ->.
  apply Hfirst. now apply toString_digits in Hc.
Qed.

Lemma lacks_character first s :
  forallb (fun c => negb (Ascii.eqb c first)) (list_ascii_of_string s) = true ->
  forall c, In c (list_ascii_of_string s) -> c <> first.
Proof.
  rewrite forallb_forall. intros Hall c Hc ->.
  apply Hall in Hc. now rewrite Ascii.eqb_refl in Hc.
Qed.

(** Nor inside a stretch in which that character is never followed by the
    second one searched for. *)
Lemma includes_skip_pair skipped rest first second more :
  Text.neverFollowedBy first second skipped = true ->
  includes (skipped +:+ rest) (String first (String second more))
    = includes rest (String first (String second more)).
Proof.
  induction skipped as [|c skipped IH]; intros Hnever; [reflexivity|].
  change (String c skipped +:+ rest) with (String c (skipped +:+ rest)).
  rewrite includes_cons.
  assert (Hhere : String.prefix (String first (String second more))
                    (String c (skipped +:+ rest)) = false).
  { cbn [String.prefix]. destruct (ascii_dec first c) as [<-|Hne]; [|reflexivity].
    destruct skipped as [|d skipped].
    - cbn in Hnever. now rewrite Ascii.eqb_refl in Hnever.
    - change (String d skipped +:+ rest) with (String d (skipped +:+ rest)).
      cbn [String.prefix]. destruct (ascii_dec second d) as [<-|Hne]; [|reflexivity].
      cbn [Text.neverFollowedBy] in Hnever. now rewrite !Ascii.eqb_refl in Hnever. }
  rewrite Hhere. cbn [orb]. apply IH.
  destruct skipped as [|d skipped]; [reflexivity|].
  cbn [Text.neverFollowedBy] in Hnever. now apply andb_prop in Hnever as [_ Hnever].
Qed.

(** The quota message holds none of the words the [catch] block of
    [handleSubmit] looks for. *)
Lemma quotaMessage_words file available :
  includes (IndexedDBStorageService.quotaMessage file available) "quota" = false /\
  includes (IndexedDBStorageService.quotaMessage file available) "storage" = false /\
  includes (IndexedDBStorageService.quotaMessage file available) "thumbnail" = false /\
  includes (IndexedDBStorageService.quotaMessage file available) "duration" = false.
Proof.
  unfold IndexedDBStorageService.quotaMessage.
  split; [|split; [|split]].
  - rewrite includes_skip by (apply lacks_character; reflexivity).
    rewrite includes_skip_number by (cbn; intuition discriminate).
    rewrite includes_skip by (apply lacks_character; reflexivity).
    rewrite includes_skip_number by (cbn; intuition discriminate).
    reflexivity.
  - rewrite includes_skip_pair by reflexivity.
    rewrite includes_skip_number by (cbn; intuition discriminate).
    rewrite includes_skip_pair by reflexivity.
    rewrite includes_skip_number by (cbn; intuition discriminate).
    reflexivity.
  - rewrite includes_skip_pair by reflexivity.
    rewrite includes_skip_number by (cbn; intuition discriminate).
    rewrite includes_skip_pair by reflexivity.
    rewrite includes_skip_number by (cbn; intuition discriminate).
    reflexivity.
  - rewrite includes_skip by (apply lacks_character; reflexivity).
    rewrite includes_skip_number by (cbn; intuition discriminate).
    rewrite includes_skip by (apply lacks_character; reflexivity).
    rewrite includes_skip_number by (cbn; intuition discriminate).
    reflexivity.
Qed.

End Strings.

Section UploadReports.

Import IndexedDBStorageService VideoUploadModal.
Context `{VideoUtils}.

Ltac run :=
  cbv beta iota zeta delta
    [upload deriveThumbnail simulateUpload bind try_catch try_finally
     emit setModal onStore onCatalog awaited resolve reject
     VideoService.uploadVideo modal store catalog effects fst snd].

(** What the [try] block leaves in the catalog. *)
Lemma upload_catalog u b video thumbnail form m s c ef :
  match upload u b video thumbnail form
          {| modal := m; store := s; catalog := c; effects := ef |} with
  | (Resolved _, w1) =>
      exists videoId thumbnailUrl d,
        catalog w1 = entryOf u b form videoId thumbnailUrl d :: c
  | (Rejected _, w1) => catalog w1 = c
  | (Pending, w1) => catalog w1 = c
  end.
Proof.
  assert (Hgiven : forall thumbnailUrl,
            thumbnailOutcome b video thumbnail = Some thumbnailUrl ->
            (forall w0 : App,
               deriveThumbnail b video thumbnail w0
               = (Resolved thumbnailUrl,
                  snd (emit (thumbnailCall video thumbnail) w0))) ->
            match upload u b video thumbnail form
                    {| modal := m; store := s; catalog := c; effects := ef |} with
            | (Resolved _, w1) =>
                exists videoId thumbnailUrl d,
                  catalog w1 = entryOf u b form videoId thumbnailUrl d :: c
            | (Rejected _, w1) => catalog w1 = c
            | (Pending, w1) => catalog w1 = c
            end).
  { intros thumbnailUrl Hthumb Hderive.
    destruct (getVideoDuration b video) as [d|e|] eqn:Hdur;
      [|unfold upload, simulateUpload, bind, setModal; rewrite Hderive;
        cbv beta iota zeta delta [emit awaited snd modal store catalog effects];
        now rewrite Hdur..].
    destruct (storeVideoFile (idb b) video (title form) (description form) d thumbnailUrl s)
      as [[videoId|e|] s1] eqn:Hput;
      [|unfold upload, simulateUpload, bind, setModal; rewrite Hderive;
        cbv beta iota zeta delta [emit awaited onStore snd modal store catalog effects];
        rewrite Hdur;
        cbv beta iota zeta delta [emit awaited onStore snd modal store catalog effects];
        now rewrite Hput..].
    rewrite (upload_resolves _ _ _ _ _ _ _ _ _ _ _ _ _ Hthumb Hdur Hput). cbn. eauto. }
  destruct thumbnail as [image|].
  - destruct (readAsDataURL b image) as [dataUrl|e1|] eqn:Hread;
      [|run; now rewrite Hread..].
    apply (Hgiven dataUrl).
    + unfold thumbnailOutcome. now rewrite Hread.
    + intros w0. unfold deriveThumbnail, bind, emit, awaited. now rewrite Hread.
  - destruct (generateVideoThumbnail b video) as [url|e0|] eqn:Hgen;
      [| |run; now rewrite Hgen].
    + apply (Hgiven url).
      * unfold thumbnailOutcome. now rewrite Hgen.
      * intros w0. unfold deriveThumbnail, try_catch, bind, emit, awaited.
        now rewrite Hgen.
    + apply (Hgiven "/default-thumbnail.jpg").
      * unfold thumbnailOutcome. now rewrite Hgen.
      * intros w0. unfold deriveThumbnail, try_catch, bind, emit, awaited, resolve.
        now rewrite Hgen.
Qed.

Lemma list_not_cons_self {A} (x : A) l : l <> x :: l.
Proof.
  intros Heq. apply (f_equal (@length A)) in Heq. cbn in Heq. lia.
Qed.

(** X12. The tags of a catalog entry made by an upload are those typed in
    the form, split at the commas, each trimmed, the empty ones dropped: no
    tag of the entry is empty and none starts or ends with white space. *)
Theorem handleSubmit_entry_tags_clean user b w entry :
  catalog (snd (handleSubmit user b w)) = entry :: catalog w ->
  video_tags entry = parsedTags (formData (modal w)) /\
  forall tag, In tag (video_tags entry) -> tag <> "" /\ trim tag = tag.
Proof.
  intros Hcatalog.
  assert (Htags : video_tags entry = parsedTags (formData (modal w))).
  { destruct (rejection user (modal w)) as [message|] eqn:Hrej.
    - rewrite (handleSubmit_rejection _ _ _ _ Hrej) in Hcatalog. cbn in Hcatalog.
      now apply list_not_cons_self in Hcatalog.
    - destruct (handleSubmit_accepted user b w Hrej) as (u & video & -> & Hfile & Hrun).
      rewrite Hrun in Hcatalog. clear Hrun.
      unfold try_finally, try_catch in Hcatalog.
      pose proof (upload_catalog u b video (thumbnailFile (modal w)) (formData (modal w))
                    (setUploadProgress 0 (setIsUploading true (modal w)))
                    (store w) (catalog w) (effects w)) as Hout.
      destruct (upload u b video (thumbnailFile (modal w)) (formData (modal w)) _)
        as [[[]|e|] w1].
      + destruct Hout as (videoId & thumbnailUrl & d & Hout). cbn in Hcatalog.
        rewrite Hout in Hcatalog. now injection Hcatalog as <-.
      + destruct (uploadFailed_toast e w1) as (message & Hfail).
        rewrite Hfail in Hcatalog. cbn in Hcatalog. rewrite Hout in Hcatalog.
        now apply list_not_cons_self in Hcatalog.
      + cbn in Hcatalog. rewrite Hout in Hcatalog.
        now apply list_not_cons_self in Hcatalog. }
  split; [exact Htags|]. rewrite Htags. intros tag. apply parsedTags_clean.
Qed.

(** Why a put made by the service itself rejects. *)
Lemma storeVideoFile_rejection_message b file title description duration thumbnail s e s' :
  storeVideoFile b file title description duration thumbnail s = (Rejected e, s') ->
  (forall e0, storage b <> EstimateRejects e0) ->
  exists message,
    e = JsError message /\
    includes message "quota" = false /\ includes message "storage" = false /\
    includes message "thumbnail" = false /\ includes message "duration" = false.
Proof.
  intros Hput Hestimate. revert Hput.
  unfold storeVideoFile, bind.
  destruct (ensureDB b s) as [[[]|e0|] s0] eqn:He; [| |discriminate].
  - apply ensureDB_resolves in He as (Hdb & _ & _). rewrite Hdb. cbn.
    unfold checkQuota, store_add, resolve, reject.
    destruct (storage b) as [|e1|quota usage] eqn:Hstorage; cbn.
    + destruct (videos s0 !! newVideoId b);
        [|destruct (idb_request_ok b); [discriminate|]];
        intros [= <- _]; eexists; repeat split.
    + now destruct (Hestimate e1).
    + destruct (overQuota file (availableSpace quota usage)); cbn.
      * intros [= <- _]. eexists. split; [reflexivity|]. apply quotaMessage_words.
      * destruct (videos s0 !! newVideoId b);
          [|destruct (idb_request_ok b); [discriminate|]];
          intros [= <- _]; eexists; repeat split.
  - unfold ensureDB, initDB in He. destruct (db s); [discriminate|].
    destruct (idb_open_ok b); [discriminate|]. injection He as <- _.
    intros [= <- _]. eexists; repeat split.
Qed.

(** X13. A failure of the blob store itself is never shown to the user as a
    storage error. When the put rejects on its own account (the database
    cannot be opened, the quota check refuses the file, the id is taken or
    the add request fails), the message holds neither 'quota' nor 'storage',
    so the toast reads 'Upload failed: ' followed by the message; the
    catalog gains nothing and the store keeps its records. *)
Theorem store_failure_shown_as_upload_failed u b w video thumbnailUrl d e s1 :
  rejection (Some u) (modal w) = None ->
  videoFile (modal w) = Some video ->
  thumbnailOutcome b video (thumbnailFile (modal w)) = Some thumbnailUrl ->
  getVideoDuration b video = Resolved d ->
  storeVideoFile (idb b) video (title (formData (modal w)))
    (description (formData (modal w))) d thumbnailUrl (store w) = (Rejected e, s1) ->
  (forall e0, storage (idb b) <> EstimateRejects e0) ->
  exists message,
    e = JsError message /\
    last (effects (snd (handleSubmit (Some u) b w)))
      = Some (ToastError ("Upload failed: " +:+ message)) /\
    catalog (snd (handleSubmit (Some u) b w)) = catalog w /\
    videos (store (snd (handleSubmit (Some u) b w))) = videos (store w).
Proof.
  intros Hrej Hfile Hthumb Hdur Hput Hestimate.
  destruct (storeVideoFile_rejection_message _ _ _ _ _ _ _ _ _ Hput Hestimate)
    as (message & -> & Hquota & Hstorage & Hthumbnail & Hduration).
  exists message. split; [reflexivity|].
  pose proof (storeVideoFile_rejected _ _ _ _ _ _ _ _ _ Hput) as Hkept.
  destruct (handleSubmit_accepted (Some u) b w Hrej) as (u' & video' & [= <-] & Hfile' & ->).
  rewrite Hfile in Hfile'. injection Hfile' as <-.
  destruct w as [m s c ef]. cbn [modal store catalog effects] in *.
  unfold thumbnailOutcome in Hthumb.
  assert (Hfailed : forall w0,
            uploadFailed (JsError message) w0
            = emit (ToastError ("Upload failed: " +:+ message)) w0).
  { intros w0. unfold uploadFailed.
    now rewrite Hquota, Hstorage, Hthumbnail, Hduration. }
  destruct (thumbnailFile m) as [image|]; run.
  - destruct (readAsDataURL b image) as [dataUrl|e1|];
      [injection Hthumb as <-|discriminate..].
    run. rewrite Hdur. run. rewrite Hput. rewrite Hfailed. run.
    split; [apply last_snoc|]. split; [reflexivity|exact Hkept].
  - destruct (generateVideoThumbnail b video);
      [injection Hthumb as <-..|discriminate]; run; rewrite Hdur; run; rewrite Hput;
      rewrite Hfailed; run;
      (split; [apply last_snoc|]; split; [reflexivity|exact Hkept]).
Qed.

End UploadReports.

(* ===================================================================== *)
(** ** The player: resolving a playback reference *)
(* ===================================================================== *)

Section Player.

Import IndexedDBStorageService VideoUploadModal VideoPlayer.
Context `{VideoUtils}.

Lemma dropChars_app pattern s : dropChars (String.length pattern) (pattern +:+ s) = s.
Proof. induction pattern as [|c pattern IH]; [reflexivity|exact IH]. Qed.

Lemma prefix_app pattern s : String.prefix pattern (pattern +:+ s) = true.
Proof.
  induction pattern as [|c pattern IH]; [now destruct s|].
  change (String c pattern +:+ s) with (String c (pattern +:+ s)).
  cbn [String.prefix]. destruct (ascii_dec c c); [exact IH|congruence].
Qed.

(** Taking the scheme off a reference gives back the id it was built from. *)
Lemma removeFirst_prefix pattern s : removeFirst (pattern +:+ s) pattern = s.
Proof.
  destruct pattern as [|c pattern]; [now destruct s|].
  change (String c pattern +:+ s) with (String c (pattern +:+ s)).
  unfold removeFirst; fold removeFirst.
  change (String c (pattern +:+ s)) with (String c pattern +:+ s).
  rewrite prefix_app. apply dropChars_app.
Qed.

Lemma getVideoUrl_stored b videoId s :
  getVideoUrl b ("stored://" +:+ videoId) s =
    let '(r, s') := getStoredVideoUrl (player_idb b) videoId s in
    (match r with
     | Resolved blobUrl => Resolved (VideoService.field_or blobUrl firstSample)
     | Rejected e => Rejected e
     | Pending => Pending
     end, s').
Proof.
  unfold getVideoUrl.
  replace (startsWith ("stored://" +:+ videoId) "stored://") with true
    by (symmetry; apply prefix_app).
  rewrite removeFirst_prefix. unfold bind, resolve.
  now destruct (getStoredVideoUrl (player_idb b) videoId s) as [[blobUrl|e|] s'].
Qed.

(** The player's lookup settles, as every request to the database does. *)
Lemma getVideoUrl_settles b videoUrl s : fst (getVideoUrl b videoUrl s) <> Pending.
Proof.
  unfold getVideoUrl.
  destruct (startsWith videoUrl "stored://").
  - unfold bind. rewrite getStoredVideoUrl_outcome.
    destruct (negb (db s) && negb (idb_open_ok (player_idb b))); [discriminate|].
    destruct (idb_request_ok (player_idb b)); discriminate.
  - destruct (startsWith videoUrl "blob:"); [discriminate|].
    destruct (startsWith videoUrl "http"); discriminate.
Qed.

(** X14. The reference an upload writes plays the uploaded file. After a put
    that resolved with an id, the player resolves "stored://" followed by
    that id to the object URL the browser makes for the very file that was
    stored, provided the read request succeeds. *)
Theorem getVideoUrl_of_uploaded_reference
    b file title description duration thumbnail s videoId s' pb :
  storeVideoFile b file title description duration thumbnail s = (Resolved videoId, s') ->
  idb_request_ok (player_idb pb) = true ->
  createObjectURL (player_idb pb) file <> "" ->
  getVideoUrl pb ("stored://" +:+ videoId) s'
    = (Resolved (createObjectURL (player_idb pb) file), s').
Proof.
  intros Hput Hreq Hurl. rewrite getVideoUrl_stored.
  rewrite (getStoredVideoUrl_stored _ _ _ _ _ _ _ _ _ Hput), Hreq.
  unfold VideoService.field_or, or_else. cbn.
  now destruct (createObjectURL (player_idb pb) file).
Qed.

(** X15. [resolveVideoUrl] always settles on a URL and never fails. A
    reference to a stored video that the store does not hold, or that cannot
    be read, falls back to the first sample video; a blob: or http URL is
    used as it is; anything else gets one of the six sample videos. The
    store's records are not touched. *)
Theorem resolveVideoUrl_always_settles b videoUrl p :
  fst (resolveVideoUrl b videoUrl p) = Resolved tt /\
  videos (service (snd (resolveVideoUrl b videoUrl p))) = videos (service p) /\
  (forall videoId,
     videoUrl = "stored://" +:+ videoId ->
     videos (service p) !! videoId = None \/
     (exists e s', getStoredVideoUrl (player_idb b) videoId (service p) = (Rejected e, s')) ->
     resolvedVideoUrl (snd (resolveVideoUrl b videoUrl p)) = firstSample) /\
  (startsWith videoUrl "stored://" = false ->
   startsWith videoUrl "blob:" = true \/ startsWith videoUrl "http" = true ->
   resolvedVideoUrl (snd (resolveVideoUrl b videoUrl p)) = videoUrl) /\
  (startsWith videoUrl "stored://" = false ->
   startsWith videoUrl "blob:" = false ->
   startsWith videoUrl "http" = false ->
   In (resolvedVideoUrl (snd (resolveVideoUrl b videoUrl p))) sampleVideos).
Proof.
  destruct p as [url loading s].
  unfold resolveVideoUrl, bind, try_catch, setIsLoading, onService, setResolvedVideoUrl.
  cbn [resolvedVideoUrl isLoading service].
  split; [|split; [|split; [|split]]].
  - pose proof (getVideoUrl_settles b videoUrl s) as Hsettles.
    destruct (getVideoUrl b videoUrl s) as [[r|e|] s'];
      [reflexivity..|now destruct Hsettles].
  - assert (Hkept : videos (snd (getVideoUrl b videoUrl s)) = videos s).
    { unfold getVideoUrl.
      destruct (startsWith videoUrl "stored://").
      - unfold bind, resolve.
        pose proof (reads_leave_the_records (player_idb b)
                      (removeFirst videoUrl "stored://") s) as (_ & _ & Hurl & _).
        now destruct (getStoredVideoUrl (player_idb b) _ s) as [[r|e|] s'].
      - destruct (startsWith videoUrl "blob:"); [reflexivity|].
        now destruct (startsWith videoUrl "http"). }
    now destruct (getVideoUrl b videoUrl s) as [[r|e|] s'].
  - intros videoId -> [Hnone | (e & s' & Hfails)]; rewrite getVideoUrl_stored.
    + rewrite getStoredVideoUrl_outcome.
      destruct (negb (db s) && negb (idb_open_ok (player_idb b))); [reflexivity|].
      destruct (idb_request_ok (player_idb b)); [|reflexivity].
      now rewrite Hnone.
    + cbn [service] in Hfails. now rewrite Hfails.
  - intros Hstored Hdirect. unfold getVideoUrl. rewrite Hstored.
    destruct (startsWith videoUrl "blob:"); [reflexivity|].
    destruct Hdirect as [Hblob | ->]; [discriminate|reflexivity].
  - intros Hstored Hblob Hhttp. unfold getVideoUrl. rewrite Hstored, Hblob, Hhttp.
    cbn [fst snd resolve resolvedVideoUrl].
    assert (Hlt : (random_sample b mod 6 < 6)%nat) by (apply Nat.mod_upper_bound; lia).
    unfold resolve. cbn [resolvedVideoUrl].
    destruct (random_sample b mod 6)%nat as [|[|[|[|[|[|n]]]]]]; cbn; auto 10. lia.
Qed.

End Player.

(* ===================================================================== *)
(** ** More on the lists kept by UserService *)
(* ===================================================================== *)

Section UserListsMore.

Import UserService.

Lemma without_absent (x : string) l : x ∉ l -> without x l = l.
Proof.
  induction l as [|y l IH]; intros Hnotin; [reflexivity|].
  unfold without in *. cbn.
  destruct (String.eqb_spec y x) as [->|Hne].
  - exfalso. apply Hnotin. constructor.
  - cbn. rewrite IH; [reflexivity|]. intros Hin. apply Hnotin. now constructor.
Qed.

Lemma without_push (x : string) l : x ∉ l -> without x (l ++ [x]) = l.
Proof.
  intros Hnotin. unfold without. rewrite List.filter_app. cbn.
  rewrite String.eqb_refl. cbn. rewrite app_nil_r. now apply without_absent.
Qed.

Lemma wishlist_key_inj a b : "wishlist_" +:+ a = "wishlist_" +:+ b -> a = b.
Proof. intros Heq. now injection Heq. Qed.

Lemma history_key_inj a b : "watchHistory_" +:+ a = "watchHistory_" +:+ b -> a = b.
Proof. intros Heq. now injection Heq. Qed.

Lemma wishlist_key_not_history_key a b : "wishlist_" +:+ a <> "watchHistory_" +:+ b.
Proof. intros Heq. discriminate Heq. Qed.

Lemma storedHistory_insert_wishlist other userId l (ls : LocalStorage) :
  storedHistory other (<["wishlist_" +:+ userId := l]> ls) = storedHistory other ls.
Proof.
  unfold storedHistory. rewrite lookup_insert_ne; [reflexivity|].
  apply wishlist_key_not_history_key.
Qed.

Lemma storedWishlist_insert_history other userId l (ls : LocalStorage) :
  storedWishlist other (<["watchHistory_" +:+ userId := l]> ls) = storedWishlist other ls.
Proof.
  unfold storedWishlist. rewrite lookup_insert_ne; [reflexivity|].
  intros Heq. symmetry in Heq. revert Heq. apply wishlist_key_not_history_key.
Qed.

Lemma storedWishlist_insert_other other userId l (ls : LocalStorage) :
  other <> userId ->
  storedWishlist other (<["wishlist_" +:+ userId := l]> ls) = storedWishlist other ls.
Proof.
  intros Hother. unfold storedWishlist. rewrite lookup_insert_ne; [reflexivity|].
  intros Heq. apply wishlist_key_inj in Heq. congruence.
Qed.

Lemma storedHistory_insert_other other userId l (ls : LocalStorage) :
  other <> userId ->
  storedHistory other (<["watchHistory_" +:+ userId := l]> ls) = storedHistory other ls.
Proof.
  intros Hother. unfold storedHistory. rewrite lookup_insert_ne; [reflexivity|].
  intros Heq. apply history_key_inj in Heq. congruence.
Qed.

(** X16. [removeFromWishlist], once resolved, has taken the id out of the
    stored wishlist and nothing else: every other id is on the list exactly
    if it was, in the same order. Adding an id that was not on the list and
    removing it again gives back the list as it was. *)
Theorem removeFromWishlist_takes_out_only_that_id ok userId videoId (ls ls' : LocalStorage) :
  removeFromWishlist ok userId videoId ls = (Resolved tt, ls') ->
  storedWishlist userId ls' = without videoId (storedWishlist userId ls) /\
  (videoId ∉ storedWishlist userId ls') /\
  (forall other, other <> videoId ->
     (other ∈ storedWishlist userId ls' <-> other ∈ storedWishlist userId ls)) /\
  (forall ok' earlier,
     videoId ∉ storedWishlist userId earlier ->
     UserService.addToWishlist ok' userId videoId earlier = (Resolved tt, ls) ->
     storedWishlist userId ls' = storedWishlist userId earlier).
Proof.
  intros Hremove. rewrite removeFromWishlist_outcome in Hremove.
  destruct ok; [|discriminate]. injection Hremove as <-.
  assert (Hafter : storedWishlist userId
                     (<["wishlist_" +:+ userId := without videoId (storedWishlist userId ls)]> ls)
                   = without videoId (storedWishlist userId ls)).
  { unfold storedWishlist at 1. now rewrite lookup_insert_eq. }
  rewrite Hafter. split; [reflexivity|]. split; [|split].
  - rewrite elem_of_without. now intros [_ Hne].
  - intros other Hother. rewrite elem_of_without. tauto.
  - intros ok' earlier Hnotin Hadd. rewrite addToWishlist_outcome in Hadd.
    rewrite bool_decide_eq_false_2 in Hadd by exact Hnotin.
    destruct ok'; [|discriminate]. injection Hadd as <-.
    unfold storedWishlist at 1. rewrite lookup_insert_eq. cbn.
    now apply without_push.
Qed.

(** X17. The lists do not interfere. A wishlist call for one user leaves
    every watch history and every other user's wishlist as it was, and a
    watch-history call for one user leaves every wishlist and every other
    user's history as it was. *)
Theorem lists_do_not_interfere ok userId videoId (ls : LocalStorage) other :
  (storedHistory other (snd (UserService.addToWishlist ok userId videoId ls))
     = storedHistory other ls /\
   storedHistory other (snd (removeFromWishlist ok userId videoId ls))
     = storedHistory other ls /\
   storedWishlist other (snd (UserService.addToWatchHistory ok userId videoId ls))
     = storedWishlist other ls) /\
  (other <> userId ->
   storedWishlist other (snd (UserService.addToWishlist ok userId videoId ls))
     = storedWishlist other ls /\
   storedWishlist other (snd (removeFromWishlist ok userId videoId ls))
     = storedWishlist other ls /\
   storedHistory other (snd (UserService.addToWatchHistory ok userId videoId ls))
     = storedHistory other ls).
Proof.
  rewrite addToWishlist_outcome, removeFromWishlist_outcome, addToWatchHistory_outcome.
  split; [|intros Hother];
    case_bool_decide; destruct ok; cbn [snd]; repeat split;
    try reflexivity;
    auto using storedHistory_insert_wishlist, storedWishlist_insert_history,
      storedWishlist_insert_other, storedHistory_insert_other.
Qed.

(** A write that localStorage refuses changes nothing: each of the
    three writing calls then rejects with its own message and leaves
    localStorage exactly as it was. (Adding an id already on the wishlist
    writes nothing and so cannot fail.) *)
Theorem refused_write_changes_nothing userId videoId (ls : LocalStorage) :
  (videoId ∉ storedWishlist userId ls ->
   UserService.addToWishlist false userId videoId ls
     = (Rejected (JsError "Failed to add to wishlist"), ls)) /\
  removeFromWishlist false userId videoId ls
    = (Rejected (JsError "Failed to remove from wishlist"), ls) /\
  UserService.addToWatchHistory false userId videoId ls
    = (Rejected (JsError "Failed to add to watch history"), ls) /\
  (videoId ∈ storedWishlist userId ls ->
   UserService.addToWishlist false userId videoId ls = (Resolved tt, ls)).
Proof.
  rewrite addToWishlist_outcome, removeFromWishlist_outcome, addToWatchHistory_outcome.
  repeat split.
  - intros Hnotin. now rewrite bool_decide_eq_false_2.
  - intros Hin. now rewrite bool_decide_eq_true_2.
Qed.

(** X18. [UserService.addToWatchHistory], once resolved, has put the id at
    the head of the stored history, which has at most 50 entries, all of
    them the id or earlier entries. An id that was not in the history pushes
    the earlier entries down one place, and what lay in the 50th place is
    dropped. *)
Theorem addToWatchHistory_most_recent_first ok userId videoId (ls ls' : LocalStorage) :
  UserService.addToWatchHistory ok userId videoId ls = (Resolved tt, ls') ->
  head (storedHistory userId ls') = Some videoId /\
  (length (storedHistory userId ls') <= 50)%nat /\
  (forall other, other ∈ storedHistory userId ls' ->
     other = videoId \/ other ∈ storedHistory userId ls) /\
  (NoDup (storedHistory userId ls) -> NoDup (storedHistory userId ls')) /\
  (videoId ∉ storedHistory userId ls ->
   storedHistory userId ls' = videoId :: take 49 (storedHistory userId ls)).
Proof.
  intros Hadd. rewrite addToWatchHistory_outcome in Hadd.
  destruct ok; [|discriminate].
  apply (f_equal snd) in Hadd. cbn [snd] in Hadd. subst ls'.
  assert (Hafter : storedHistory userId
                     (<["watchHistory_" +:+ userId :=
                          take 50 (videoId :: without videoId (storedHistory userId ls))]> ls)
                   = take 50 (videoId :: without videoId (storedHistory userId ls))).
  { unfold storedHistory at 1. now rewrite lookup_insert_eq. }
  rewrite Hafter. split; [reflexivity|]. split; [apply length_front|]. split; [|split].
  - intros other Hin. apply (fun H => elem_of_sublist _ _ _ H (sublist_take _ _)) in Hin.
    apply elem_of_cons in Hin as [-> | Hin]; [now left|].
    right. now apply elem_of_without in Hin as [Hin _].
  - apply NoDup_front.
  - intros Hnotin. now rewrite without_absent.
Qed.

End UserListsMore.

(* ===================================================================== *)
(** ** More on useVideoDatabase: the lists in memory and the lists stored *)
(* ===================================================================== *)

Section HookLists.

Import UserService useVideoDatabase.

(** The toggle of a logged-in user, case by case. *)
Lemma addToWishlistFrom_outcome shown a u ok videoId wl wh ls ts :
  user a = Some u -> isAuthenticated a = true ->
  addToWishlistFrom shown a ok videoId
    {| wishlist := wl; watchHistory := wh; localStorage := ls; toasts := ts |} =
    (Resolved tt,
     if array_includes shown videoId
     then if ok
          then {| wishlist := without videoId wl; watchHistory := wh;
                  localStorage :=
                    <["wishlist_" +:+ user_id u :=
                        without videoId (storedWishlist (user_id u) ls)]> ls;
                  toasts := ts ++ [(false, "Removed from wishlist")] |}
          else {| wishlist := wl; watchHistory := wh; localStorage := ls;
                  toasts := ts ++ [(true, "Failed to update wishlist")] |}
     else if bool_decide (videoId ∈ storedWishlist (user_id u) ls)
          then {| wishlist := wl ++ [videoId]; watchHistory := wh; localStorage := ls;
                  toasts := ts ++ [(false, "Added to wishlist")] |}
          else if ok
               then {| wishlist := wl ++ [videoId]; watchHistory := wh;
                       localStorage :=
                         <["wishlist_" +:+ user_id u :=
                             storedWishlist (user_id u) ls ++ [videoId]]> ls;
                       toasts := ts ++ [(false, "Added to wishlist")] |}
               else {| wishlist := wl; watchHistory := wh; localStorage := ls;
                       toasts := ts ++ [(true, "Failed to update wishlist")] |}).
Proof.
  intros Hu Hauth. unfold addToWishlistFrom. rewrite Hu, Hauth. cbn [negb].
  destruct (array_includes shown videoId);
    cbv beta iota zeta delta
      [try_catch bind onUserService setWishlist toast resolve
       wishlist watchHistory localStorage toasts snd].
  - rewrite removeFromWishlist_outcome. destruct ok; reflexivity.
  - rewrite addToWishlist_outcome.
    case_bool_decide; [reflexivity|]. destruct ok; reflexivity.
Qed.

(** The hook's [addToWishlist] for a logged-in user, case by case. *)
Lemma addToWishlist_outcome_hook a u ok videoId wl wh ls ts :
  user a = Some u -> isAuthenticated a = true ->
  useVideoDatabase.addToWishlist a ok videoId
    {| wishlist := wl; watchHistory := wh; localStorage := ls; toasts := ts |} =
    (Resolved tt,
     if array_includes wl videoId
     then if ok
          then {| wishlist := without videoId wl; watchHistory := wh;
                  localStorage :=
                    <["wishlist_" +:+ user_id u :=
                        without videoId (storedWishlist (user_id u) ls)]> ls;
                  toasts := ts ++ [(false, "Removed from wishlist")] |}
          else {| wishlist := wl; watchHistory := wh; localStorage := ls;
                  toasts := ts ++ [(true, "Failed to update wishlist")] |}
     else if bool_decide (videoId ∈ storedWishlist (user_id u) ls)
          then {| wishlist := wl ++ [videoId]; watchHistory := wh; localStorage := ls;
                  toasts := ts ++ [(false, "Added to wishlist")] |}
          else if ok
               then {| wishlist := wl ++ [videoId]; watchHistory := wh;
                       localStorage :=
                         <["wishlist_" +:+ user_id u :=
                             storedWishlist (user_id u) ls ++ [videoId]]> ls;
                       toasts := ts ++ [(false, "Added to wishlist")] |}
               else {| wishlist := wl; watchHistory := wh; localStorage := ls;
                       toasts := ts ++ [(true, "Failed to update wishlist")] |}).
Proof. apply addToWishlistFrom_outcome. Qed.

(** Without a logged-in user the toggle only shows the login toast. *)
Lemma addToWishlist_logged_out a ok videoId h :
  user a = None \/ isAuthenticated a = false ->
  useVideoDatabase.addToWishlist a ok videoId h =
    (Resolved tt,
     {| wishlist := wishlist h; watchHistory := watchHistory h;
        localStorage := localStorage h;
        toasts := toasts h ++ [(true, "Please login to add videos to wishlist")] |}).
Proof.
  intros Hout. unfold useVideoDatabase.addToWishlist, addToWishlistFrom.
  destruct (user a) as [u|]; [|reflexivity].
  destruct Hout as [Hu | ->]; [discriminate|reflexivity].
Qed.

(** What [authEffect] leaves behind. *)
Lemma authEffect_outcome a h :
  authEffect a h =
    (Resolved tt,
     match user a with
     | Some u =>
         if isAuthenticated a
         then {| wishlist := storedWishlist (user_id u) (localStorage h);
                 watchHistory := storedHistory (user_id u) (localStorage h);
                 localStorage := localStorage h; toasts := toasts h |}
         else {| wishlist := []; watchHistory := [];
                 localStorage := localStorage h; toasts := toasts h |}
     | None => {| wishlist := []; watchHistory := [];
                  localStorage := localStorage h; toasts := toasts h |}
     end).
Proof.
  unfold authEffect, loadUserData, loadUserDataFrom.
  destruct (user a) as [u|]; [|reflexivity].
  destruct (isAuthenticated a); reflexivity.
Qed.

Lemma array_includes_true l x : array_includes l x = true <-> x ∈ l.
Proof. unfold array_includes. apply bool_decide_eq_true. Qed.

Lemma array_includes_false l x : array_includes l x = false <-> x ∉ l.
Proof. unfold array_includes. apply bool_decide_eq_false. Qed.

Lemma NoDup_wishlist_addToWishlist a ok videoId h :
  NoDup (wishlist h) ->
  NoDup (wishlist (snd (useVideoDatabase.addToWishlist a ok videoId h))).
Proof.
  intros Hnodup.
  destruct (user a) as [u|] eqn:Hu;
    [destruct (isAuthenticated a) eqn:Hauth|];
    [|rewrite addToWishlist_logged_out by auto; exact Hnodup ..].
  destruct h as [wl wh ls ts]. rewrite (addToWishlist_outcome_hook a u) by assumption.
  cbn [wishlist snd] in *.
  destruct (array_includes wl videoId) eqn:Hin.
  - destruct ok; [now apply NoDup_without|exact Hnodup].
  - apply array_includes_false in Hin.
    case_bool_decide; [now apply NoDup_push|].
    destruct ok; [now apply NoDup_push|exact Hnodup].
Qed.

(** X19. The wishlist in memory can come to hold an id twice. The handler
    tests the wishlist of the render it was made in, so of two toggles of an
    id that is on neither list, the second made before the first has
    returned, each adds the id to the list in memory, while [UserService]
    stores it once: the state reached has the id twice in memory and once
    in localStorage. The stored list has no duplicates in any state
    reached, and a toggle made while no other is under way leaves a list
    without duplicates without them. *)
Theorem wishlist_in_memory_can_hold_duplicates a u videoId h :
  user a = Some u -> isAuthenticated a = true ->
  reachable h ->
  videoId ∉ wishlist h ->
  videoId ∉ storedWishlist (user_id u) (localStorage h) ->
  let first := snd (addToWishlistFrom (wishlist h) a true videoId h) in
  let second := snd (addToWishlistFrom (wishlist h) a true videoId first) in
  reachable second /\
  wishlist second = wishlist h ++ [videoId; videoId] /\
  ~ NoDup (wishlist second) /\
  storedWishlist (user_id u) (localStorage second)
    = storedWishlist (user_id u) (localStorage h) ++ [videoId] /\
  NoDup (storedWishlist (user_id u) (localStorage second)) /\
  (forall ok,
     NoDup (wishlist h) ->
     NoDup (wishlist (snd (useVideoDatabase.addToWishlist a ok videoId h)))).
Proof.
  intros Hu Hauth Hreach Hmemory Hstored first second.
  assert (Hsecond : reachable second).
  { apply reachable_toggle_late; [exact Hreach|].
    exact (reachable_step h (ToggleWishlist a true videoId) Hreach). }
  split; [exact Hsecond|].
  assert (Hlists : wishlist second = wishlist h ++ [videoId; videoId] /\
                   storedWishlist (user_id u) (localStorage second)
                   = storedWishlist (user_id u) (localStorage h) ++ [videoId]).
  { subst first second. destruct h as [wl wh ls ts].
    cbn [wishlist localStorage] in *.
    rewrite (addToWishlistFrom_outcome wl a u) by assumption.
    apply array_includes_false in Hmemory. rewrite Hmemory.
    rewrite bool_decide_eq_false_2 by exact Hstored. cbn [snd].
    rewrite (addToWishlistFrom_outcome wl a u) by assumption. rewrite Hmemory.
    assert (Hnow : storedWishlist (user_id u)
                     (<["wishlist_" +:+ user_id u :=
                          storedWishlist (user_id u) ls ++ [videoId]]> ls)
                   = storedWishlist (user_id u) ls ++ [videoId]).
    { unfold storedWishlist at 1. now rewrite lookup_insert_eq. }
    rewrite Hnow.
    rewrite bool_decide_eq_true_2
      by (apply elem_of_app; right; now apply list_elem_of_singleton).
    cbn [snd wishlist localStorage]. split; [now rewrite <- app_assoc|exact Hnow]. }
  destruct Hlists as [Hmem Hsto]. split; [exact Hmem|]. split; [|split; [exact Hsto|split]].
  - rewrite Hmem. intros Hnodup. apply NoDup_app in Hnodup as (_ & _ & Htwice).
    apply NoDup_cons in Htwice as [Hnotin _]. apply Hnotin. apply list_elem_of_here.
  - apply allNoDup_stored, wellKept_allNoDup.
    now destruct (reachable_kept _ Hsecond) as (_ & _ & Hls).
  - intros ok. apply NoDup_wishlist_addToWishlist.
Qed.

(** X20. For a logged-in user whose wishlist in memory is the stored one,
    a toggle that localStorage takes flips the id and nothing else: the id
    is on the list afterwards exactly if it was not before, every other id
    stays as it was, the list in memory is again the stored one, and one
    success toast is added. Toggling an id that was not on the list twice
    gives back the list as it was. *)
Theorem addToWishlist_toggles a u videoId h :
  user a = Some u -> isAuthenticated a = true ->
  wishlist h = storedWishlist (user_id u) (localStorage h) ->
  let h' := snd (useVideoDatabase.addToWishlist a true videoId h) in
  (videoId ∈ wishlist h' <-> videoId ∉ wishlist h) /\
  (forall other, other <> videoId -> (other ∈ wishlist h' <-> other ∈ wishlist h)) /\
  wishlist h' = storedWishlist (user_id u) (localStorage h') /\
  toasts h' = toasts h ++ [(false, if array_includes (wishlist h) videoId
                                   then "Removed from wishlist"
                                   else "Added to wishlist")] /\
  (videoId ∉ wishlist h ->
   wishlist (snd (useVideoDatabase.addToWishlist a true videoId h')) = wishlist h).
Proof.
  intros Hu Hauth Hsync h'. subst h'.
  destruct h as [wl wh ls ts]. cbn [wishlist localStorage toasts] in *.
  rewrite (addToWishlist_outcome_hook a u) by assumption. cbn [snd].
  destruct (array_includes wl videoId) eqn:Hin.
  - apply array_includes_true in Hin. cbn [wishlist localStorage toasts].
    split; [|split; [|split; [|split]]].
    + rewrite elem_of_without. tauto.
    + intros other Hother. rewrite elem_of_without. tauto.
    + unfold storedWishlist at 1. rewrite lookup_insert_eq. cbn. now rewrite Hsync.
    + reflexivity.
    + intros Hnotin. now destruct Hnotin.
  - apply array_includes_false in Hin.
    rewrite bool_decide_eq_false_2 by (rewrite <- Hsync; exact Hin).
    cbn [wishlist localStorage toasts].
    split; [|split; [|split; [|split]]].
    + rewrite elem_of_app, list_elem_of_singleton. tauto.
    + intros other Hother. rewrite elem_of_app, list_elem_of_singleton. tauto.
    + unfold storedWishlist at 1. rewrite lookup_insert_eq. cbn. now rewrite Hsync.
    + reflexivity.
    + intros _. rewrite (addToWishlist_outcome_hook a u) by assumption.
      assert (Hnow : array_includes (wl ++ [videoId]) videoId = true).
      { apply array_includes_true, elem_of_app. right. now apply list_elem_of_singleton. }
      rewrite Hnow. cbn [snd wishlist]. now apply without_push.
Qed.

(** X21. A toggle that cannot go through changes no list. Without a
    logged-in user the hook only shows the login toast; for a logged-in user
    whose write localStorage refuses (the id being on the list in memory, or
    not on the stored list) it only shows the failure toast. In both cases
    the wishlist in memory, the watch history and localStorage are as they
    were. *)
Theorem addToWishlist_refused_changes_no_list a ok videoId h :
  let h' := snd (useVideoDatabase.addToWishlist a ok videoId h) in
  (user a = None \/ isAuthenticated a = false ->
   wishlist h' = wishlist h /\ watchHistory h' = watchHistory h /\
   localStorage h' = localStorage h /\
   toasts h' = toasts h ++ [(true, "Please login to add videos to wishlist")]) /\
  (forall u,
     user a = Some u -> isAuthenticated a = true -> ok = false ->
     array_includes (wishlist h) videoId = true \/
       videoId ∉ storedWishlist (user_id u) (localStorage h) ->
     wishlist h' = wishlist h /\ watchHistory h' = watchHistory h /\
     localStorage h' = localStorage h /\
     toasts h' = toasts h ++ [(true, "Failed to update wishlist")]).
Proof.
  intros h'. subst h'. split.
  - intros Hout. rewrite addToWishlist_logged_out by exact Hout. now cbn.
  - intros u Hu Hauth -> Hcase. destruct h as [wl wh ls ts].
    rewrite (addToWishlist_outcome_hook a u) by assumption.
    cbn [snd wishlist watchHistory localStorage toasts] in *.
    destruct (array_includes wl videoId); [now cbn|].
    destruct Hcase as [Hcase | Hcase]; [discriminate|].
    rewrite bool_decide_eq_false_2 by exact Hcase. now cbn.
Qed.

(** X22. When the auth context changes, the hook takes its two lists from
    what is stored for the user, or empties them when nobody is logged in;
    localStorage is not written. So logging out and in again brings back
    the lists that were stored. *)
Theorem authEffect_loads_or_clears a h :
  localStorage (snd (authEffect a h)) = localStorage h /\
  (forall u, user a = Some u -> isAuthenticated a = true ->
     wishlist (snd (authEffect a h)) = storedWishlist (user_id u) (localStorage h) /\
     watchHistory (snd (authEffect a h)) = storedHistory (user_id u) (localStorage h)) /\
  (user a = None \/ isAuthenticated a = false ->
     wishlist (snd (authEffect a h)) = [] /\ watchHistory (snd (authEffect a h)) = []) /\
  (forall u,
     let back := snd (authEffect (loggedIn u) (snd (authEffect anonymous h))) in
     wishlist back = storedWishlist (user_id u) (localStorage h) /\
     watchHistory back = storedHistory (user_id u) (localStorage h)).
Proof.
  rewrite !authEffect_outcome. cbn [snd].
  split; [|split; [|split]].
  - destruct (user a) as [u|]; [|reflexivity]. destruct (isAuthenticated a); reflexivity.
  - intros u -> ->. now cbn.
  - intros [-> | ->]; [now cbn|]. destruct (user a); now cbn.
  - intros u. cbv zeta. rewrite ?authEffect_outcome. now cbn.
Qed.

(** X23. The history in memory follows the stored one: when the two are
    equal for the logged-in user, they are equal again after
    [addToWatchHistory], whether localStorage takes the write or not. *)
Theorem addToWatchHistory_keeps_memory_and_storage_equal a u ok videoId h :
  user a = Some u -> isAuthenticated a = true ->
  watchHistory h = storedHistory (user_id u) (localStorage h) ->
  let h' := snd (useVideoDatabase.addToWatchHistory a ok videoId h) in
  watchHistory h' = storedHistory (user_id u) (localStorage h') /\
  wishlist h' = wishlist h /\
  storedWishlist (user_id u) (localStorage h') = storedWishlist (user_id u) (localStorage h).
Proof.
  intros Hu Hauth Hsync h'. subst h'.
  rewrite addToWatchHistory_outcome_hook, Hu, Hauth. cbn [andb].
  destruct ok; cbn [snd]; [|now split].
  cbn [watchHistory localStorage wishlist].
  rewrite addToWatchHistory_outcome. cbn [snd].
  split; [|split; [reflexivity|apply storedWishlist_insert_history]].
  unfold storedHistory at 1. rewrite lookup_insert_eq. cbn. now rewrite Hsync.
Qed.

End HookLists.

(* ===================================================================== *)
(** ** VideoService: reading the catalog *)
(* ===================================================================== *)

Section Catalog.

Context `{VideoUtils}.

Import VideoService.

Lemma insertSorted_Permutation compare video sorted :
  Permutation (insertSorted compare video sorted) (video :: sorted).
Proof.
  induction sorted as [|other rest IH]; cbn; [reflexivity|].
  destruct (compare video other <=? 0); [reflexivity|].
  rewrite IH. apply perm_swap.
Qed.

Lemma sort_Permutation compare array : Permutation (sort compare array) array.
Proof.
  induction array as [|video rest IH]; cbn; [reflexivity|].
  rewrite insertSorted_Permutation. now constructor.
Qed.

Lemma insertSorted_byViews video sorted :
  StronglySorted (fun a b => views b <= views a) sorted ->
  StronglySorted (fun a b => views b <= views a) (insertSorted byViews video sorted).
Proof.
  induction 1 as [|other rest Hsorted IH Hall]; cbn.
  - repeat constructor.
  - unfold byViews at 1. destruct (Z.leb_spec (views other - views video) 0) as [Hle|Hgt].
    + constructor; [now constructor|].
      constructor; [lia|].
      rewrite List.Forall_forall in *. intros x Hx. specialize (Hall x Hx). lia.
    + constructor; [exact IH|].
      rewrite (insertSorted_Permutation byViews video rest).
      constructor; [lia|exact Hall].
Qed.

Lemma sort_byViews array :
  StronglySorted (fun a b => views b <= views a) (sort byViews array).
Proof.
  induction array as [|video rest IH]; cbn; [constructor|].
  now apply insertSorted_byViews.
Qed.


(** X25. [getTrendingVideos] gives the most viewed videos, most viewed
    first: its answer, followed by the videos it leaves out, is a
    rearrangement of the catalog in which no video has more views than one
    before it. The answer has 6 entries, or the whole catalog when that is
    smaller, and the catalog itself is left in its order. *)
Theorem getTrendingVideos_most_viewed_first mockVideos :
  exists top rest,
    getTrendingVideos mockVideos = (Resolved top, mockVideos) /\
    length top = Nat.min 6 (length mockVideos) /\
    Permutation (top ++ rest) mockVideos /\
    StronglySorted (fun a b => views b <= views a) (top ++ rest).
Proof.
  exists (take 6 (sort byViews mockVideos)), (drop 6 (sort byViews mockVideos)).
  split; [reflexivity|]. rewrite take_drop. split; [|split].
  - rewrite length_take. now rewrite (Permutation_length (sort_Permutation _ _)).
  - apply sort_Permutation.
  - apply sort_byViews.
Qed.

End Catalog.

(* ===================================================================== *)
(** ** The video list and the catalog objects it shares *)
(* ===================================================================== *)

Section SharedObjects.

Import useVideoDatabase VideoList.

Lemma increment_exact n : 0 <= n < 2 ^ 53 - 1 -> increment n = n + 1.
Proof.
  intros Hn. unfold increment, IndexedDBStorageService.roundToDouble.
  rewrite Z.sgn_pos, Z.abs_eq by lia.
  assert (Hlog : Z.log2 (n + 1) < 53) by (apply Z.log2_lt_pow2; lia).
  cbv zeta. rewrite (proj2 (Z.leb_le _ _)) by lia. lia.
Qed.

Lemma find_first {A} (p : A -> bool) (l : list A) place x :
  l !! place = Some x -> p x = true ->
  (forall earlier y, (earlier < place)%nat -> l !! earlier = Some y -> p y = false) ->
  List.find p l = Some x.
Proof.
  revert place. induction l as [|y l IH]; intros [|place] Hx Hp Hfirst; try discriminate.
  - cbn in Hx. injection Hx as ->. cbn. now rewrite Hp.
  - cbn. rewrite (Hfirst 0%nat y) by (reflexivity || lia).
    apply (IH place Hx Hp). intros earlier z Hlt Hz.
    apply (Hfirst (S earlier) z); [lia|exact Hz].
Qed.

(** The heap only grows under [mapCopy]. *)
Lemma mapCopy_grows videoId copy refs objs :
  exists fresh, snd (mapCopy videoId copy refs objs) = objs ++ fresh.
Proof.
  revert objs. induction refs as [|r refs IH]; intros objs; cbn.
  - exists []. now rewrite app_nil_r.
  - destruct (objs !! r) as [video|].
    + destruct (video_id video =? videoId)%string.
      * destruct (IH (objs ++ [copy video])) as [fresh Hfresh].
        destruct (mapCopy videoId copy refs (objs ++ [copy video])) as [refs' objs'].
        cbn in *. exists (copy video :: fresh). now rewrite Hfresh, <- app_assoc.
      * destruct (IH objs) as [fresh Hfresh].
        destruct (mapCopy videoId copy refs objs) as [refs' objs'].
        cbn in *. now exists fresh.
    + destruct (IH objs) as [fresh Hfresh].
      destruct (mapCopy videoId copy refs objs) as [refs' objs'].
      cbn in *. now exists fresh.
Qed.

Lemma mapCopy_keeps videoId copy refs objs r video :
  objs !! r = Some video -> snd (mapCopy videoId copy refs objs) !! r = Some video.
Proof.
  intros Hr. destruct (mapCopy_grows videoId copy refs objs) as [fresh ->].
  now apply lookup_app_l_Some.
Qed.

(** What [mapCopy] leaves in a place that held an object with the id: a
    new object, the copy. *)
Lemma mapCopy_copied videoId copy refs objs place r video :
  refs !! place = Some r -> objs !! r = Some video -> video_id video = videoId ->
  exists r',
    fst (mapCopy videoId copy refs objs) !! place = Some r' /\
    (length objs <= r')%nat /\
    snd (mapCopy videoId copy refs objs) !! r' = Some (copy video).
Proof.
  revert objs place. induction refs as [|r0 refs IH]; intros objs [|place] Hplace Hr Hid;
    try discriminate.
  - cbn in Hplace. injection Hplace as ->. cbn. rewrite Hr.
    rewrite (proj2 (String.eqb_eq _ _) Hid).
    pose proof (mapCopy_keeps videoId copy refs (objs ++ [copy video]) (length objs)
                  (copy video)) as Hkept.
    destruct (mapCopy videoId copy refs (objs ++ [copy video])) as [refs' objs'].
    exists (length objs). cbn in *. split; [reflexivity|]. split; [lia|].
    apply Hkept. rewrite lookup_app_r by lia. now rewrite Nat.sub_diag.
  - cbn in Hplace. cbn.
    destruct (objs !! r0) as [video0|] eqn:Hr0.
    + destruct (video_id video0 =? videoId)%string.
      * destruct (IH (objs ++ [copy video0]) place Hplace
                    (lookup_app_l_Some _ _ _ _ Hr) Hid) as (r' & Hr' & Hfresh & Hcopy).
        destruct (mapCopy videoId copy refs (objs ++ [copy video0])) as [refs' objs'].
        exists r'. cbn in *. rewrite length_app in Hfresh. cbn in Hfresh.
        split; [exact Hr'|]. split; [lia|exact Hcopy].
      * destruct (IH objs place Hplace Hr Hid) as (r' & Hr' & Hfresh & Hcopy).
        destruct (mapCopy videoId copy refs objs) as [refs' objs'].
        exists r'. cbn in *. auto.
    + destruct (IH objs place Hplace Hr Hid) as (r' & Hr' & Hfresh & Hcopy).
      destruct (mapCopy videoId copy refs objs) as [refs' objs'].
      exists r'. cbn in *. auto.
Qed.

Lemma loadVideos_outcome w :
  loadVideos w =
    (Resolved tt,
     {| objects := objects w; mockVideos := mockVideos w; videos := ServiceArray;
        loading := false; toasts := toasts w |}).
Proof. destruct w. reflexivity. Qed.

(** The two writes of the hook's [likeVideo], for a logged-in user and an
    id the catalog has. *)
Lemma likeVideo_outcome a u videoId objs refs array flag ts r :
  user a = Some u -> isAuthenticated a = true ->
  List.find (hasId objs videoId) refs = Some r ->
  likeVideo a videoId
    {| objects := objs; mockVideos := refs; videos := array; loading := flag;
       toasts := ts |} =
    let objs1 := alter (fun video => withLikes (increment (likes video)) video) r objs in
    let copied :=
      mapCopy videoId (fun video => withLikes (increment (likes video)) video)
        (match array with ServiceArray => refs | OwnArray own => own end) objs1 in
    (Resolved tt,
     {| objects := snd copied; mockVideos := refs; videos := OwnArray (fst copied);
        loading := flag; toasts := ts ++ [(false, "Video liked!")] |}).
Proof.
  intros Hu Hauth Hfind. unfold likeVideo. rewrite Hu, Hauth. cbn [negb].
  cbv beta iota zeta delta
    [try_catch bind Service.likeVideo setObjects setVideosMap toast items
     objects mockVideos videos loading toasts].
  rewrite Hfind.
  destruct (mapCopy _ _ _ _) as [refs' objs']. reflexivity.
Qed.

Lemma incrementViews_outcome videoId objs refs array flag ts r :
  List.find (hasId objs videoId) refs = Some r ->
  incrementViews videoId
    {| objects := objs; mockVideos := refs; videos := array; loading := flag;
       toasts := ts |} =
    let objs1 := alter (fun video => withViews (increment (views video)) video) r objs in
    let copied :=
      mapCopy videoId (fun video => withViews (increment (views video)) video)
        (match array with ServiceArray => refs | OwnArray own => own end) objs1 in
    (Resolved tt,
     {| objects := snd copied; mockVideos := refs; videos := OwnArray (fst copied);
        loading := flag; toasts := ts |}).
Proof.
  intros Hfind. unfold incrementViews.
  cbv beta iota zeta delta
    [try_catch bind Service.incrementViews setObjects setVideosMap resolve items
     objects mockVideos videos loading toasts].
  rewrite Hfind.
  destruct (mapCopy _ _ _ _) as [refs' objs']. reflexivity.
Qed.

(** After a write through the catalog and a copying [map] over an array that
    is the catalog's own, the place holds the object written twice and the
    catalog the object written once. *)
Lemma written_twice videoId (write : Video -> Video) objs refs place r video :
  (forall v, video_id (write v) = video_id v) ->
  refs !! place = Some r -> objs !! r = Some video -> video_id video = videoId ->
  let copied := mapCopy videoId write refs (alter write r objs) in
  (r' ← fst copied !! place; snd copied !! r') = Some (write (write video)) /\
  snd copied !! r = Some (write video).
Proof.
  intros Hid Hplace Hr Hvideo copied. subst copied.
  assert (Hwritten : alter write r objs !! r = Some (write video)).
  { rewrite list_lookup_alter_eq. now rewrite Hr. }
  destruct (mapCopy_copied videoId write refs (alter write r objs) place r (write video)
              Hplace Hwritten) as (r' & Hr' & _ & Hcopy).
  { now rewrite Hid. }
  split.
  - rewrite Hr'. exact Hcopy.
  - now apply mapCopy_keeps.
Qed.

(** X26. The hook's list shares its objects with the catalog, so the first
    like or view after the list was loaded is counted twice in the list: for
    a logged-in user and the first video of the catalog with the id (its
    counts being below 2^53 - 2), [likeVideo] leaves the catalog's entry with
    one like more and the entry the list shows with two likes more, and
    [incrementViews] does the same with the views. *)
Theorem first_like_after_load_counts_twice a u videoId w place r video :
  user a = Some u -> isAuthenticated a = true ->
  mockVideos w !! place = Some r -> objects w !! r = Some video ->
  video_id video = videoId ->
  (forall earlier r', (earlier < place)%nat -> mockVideos w !! earlier = Some r' ->
     hasId (objects w) videoId r' = false) ->
  0 <= likes video < 2 ^ 53 - 2 -> 0 <= views video < 2 ^ 53 - 2 ->
  let loaded := snd (loadVideos w) in
  let liked := snd (likeVideo a videoId loaded) in
  let viewed := snd (incrementViews videoId loaded) in
  shown loaded place = Some video /\
  inCatalog liked place = Some (withLikes (likes video + 1) video) /\
  shown liked place = Some (withLikes (likes video + 2) video) /\
  inCatalog viewed place = Some (withViews (views video + 1) video) /\
  shown viewed place = Some (withViews (views video + 2) video).
Proof.
  intros Hu Hauth Hplace Hr Hid Hfirst Hlikes Hviews loaded liked viewed.
  subst loaded liked viewed. rewrite loadVideos_outcome. cbn [snd].
  assert (Hfind : List.find (hasId (objects w) videoId) (mockVideos w) = Some r).
  { apply (find_first _ _ place); [exact Hplace| |exact Hfirst].
    unfold hasId. rewrite Hr. now apply String.eqb_eq. }
  rewrite (likeVideo_outcome a u videoId _ _ _ _ _ r Hu Hauth Hfind).
  rewrite (incrementViews_outcome videoId _ _ _ _ _ r Hfind).
  cbv zeta. unfold shown, inCatalog, items.
  cbn [snd objects mockVideos videos]. rewrite Hplace. cbn [mbind option_bind].
  destruct (written_twice videoId (fun v => withLikes (increment (likes v)) v)
              (objects w) (mockVideos w) place r video (fun _ => eq_refl) Hplace Hr Hid)
    as [Hshown Hcatalog].
  destruct (written_twice videoId (fun v => withViews (increment (views v)) v)
              (objects w) (mockVideos w) place r video (fun _ => eq_refl) Hplace Hr Hid)
    as [Hshown' Hcatalog'].
  cbv zeta in Hshown, Hshown'.
  split; [exact Hr|]. split; [|split; [|split]].
  - rewrite Hcatalog. now rewrite increment_exact by lia.
  - rewrite Hshown. unfold withLikes at 1 2. cbn [likes].
    rewrite (increment_exact (likes video)) by lia.
    rewrite increment_exact by lia. unfold withLikes. cbn. do 2 f_equal. lia.
  - rewrite Hcatalog'. now rewrite increment_exact by lia.
  - rewrite Hshown'. unfold withViews at 1 2. cbn [views].
    rewrite (increment_exact (views video)) by lia.
    rewrite increment_exact by lia. unfold withViews. cbn. do 2 f_equal. lia.
Qed.

End SharedObjects.

(* ===================================================================== *)
(** ** Signing in: AuthService, the AuthContext provider and AuthModal *)
(* ===================================================================== *)

Section SignIn.

Import AuthService AuthContext.



(** [AuthService.login], case by case. *)
Lemma login_outcome {S} p credentials (s : S) :
  AuthService.login p credentials s =
    if String.eqb (email credentials) "demo@streamflix.com"
       && String.eqb (password credentials) "demo123"
    then (Resolved {| user_id := "1"; user_name := "Demo User";
                      user_email := email credentials;
                      user_avatar := Some demoAvatar;
                      user_token := generateMockToken p |}, s)
    else if includes (email credentials) "@"
            && Nat.leb 6 (string_length (password credentials))
    then (Resolved {| user_id := toString (Z.of_N (now p));
                      user_name := localPart (email credentials);
                      user_email := email credentials;
                      user_avatar :=
                        Some (generatedAvatar p (localPart (email credentials)));
                      user_token := generateMockToken p |}, s)
    else (Rejected (JsError "Invalid email or password"), s).
Proof.
  unfold AuthService.login, try_catch, rethrow, resolve, reject.
  destruct (_ && _); [reflexivity|]. destruct (_ && _); reflexivity.
Qed.

(** [AuthService.register], case by case. *)
Lemma register_outcome {S} p credentials (s : S) :
  AuthService.register p credentials s =
    if negb (String.eqb (r_password credentials) (confirmPassword credentials))
    then (Rejected (JsError "Passwords do not match"), s)
    else if Nat.ltb (string_length (r_password credentials)) 6
    then (Rejected (JsError "Password must be at least 6 characters long"), s)
    else if negb (includes (r_email credentials) "@")
    then (Rejected (JsError "Please enter a valid email address"), s)
    else (Resolved {| user_id := toString (Z.of_N (now p));
                      user_name := r_name credentials;
                      user_email := r_email credentials;
                      user_avatar := Some (generatedAvatar p (r_name credentials));
                      user_token := generateMockToken p |}, s).
Proof.
  unfold AuthService.register, try_catch, rethrow, resolve, reject.
  destruct (negb _); [reflexivity|]. destruct (Nat.ltb _ _); [reflexivity|].
  destruct (negb _); reflexivity.
Qed.

(** [validateToken] resolves only with a user that carries the token. *)
Lemma validateToken_token {S} p token (s s' : S) u :
  validateToken p token s = (Resolved u, s') -> user_token u = token /\ s' = s.
Proof.
  unfold validateToken, decodeToken, try_catch, resolve, reject.
  destruct (negb (truthy token) || String.eqb token "invalid"); [discriminate|].
  destruct (payloadUserId p token); [|discriminate].
  intros Heq. inversion Heq. now split.
Qed.




(** The provider's [login] and [register], by what the service and
    localStorage answer. *)
Lemma signIn_outcome (attempt : Async Provider AuthUser) greeting fallback refused st tok ts :
  (forall q, attempt q = (fst (attempt q), q)) ->
  (forall q, fst (attempt q) <> Pending) ->
  (dispatch AUTH_START ;;;
   try_catch
     (u <- attempt ;;
      setItem refused (user_token u) ;;;
      dispatch (AUTH_SUCCESS u) ;;;
      toast false (greeting u))
     (fun thrown =>
        let errorMessage := messageOf thrown fallback in
        dispatch (AUTH_ERROR errorMessage) ;;;
        toast true errorMessage))
    {| state := st; authToken := tok; toasts := ts |} =
    (Resolved tt,
     match fst (attempt {| state := authReducer st AUTH_START; authToken := tok;
                           toasts := ts |}), refused with
     | Resolved u, None =>
         {| state := authReducer (authReducer st AUTH_START) (AUTH_SUCCESS u);
            authToken := Some (user_token u);
            toasts := ts ++ [(false, greeting u)] |}
     | Resolved _, Some thrown =>
         {| state := authReducer (authReducer st AUTH_START)
                       (AUTH_ERROR (messageOf thrown fallback));
            authToken := tok;
            toasts := ts ++ [(true, messageOf thrown fallback)] |}
     | Rejected thrown, _ =>
         {| state := authReducer (authReducer st AUTH_START)
                       (AUTH_ERROR (messageOf thrown fallback));
            authToken := tok;
            toasts := ts ++ [(true, messageOf thrown fallback)] |}
     | Pending, _ =>
         {| state := authReducer st AUTH_START; authToken := tok; toasts := ts |}
     end).
Proof.
  intros Hpure Hsettles.
  cbv beta iota zeta delta
    [bind try_catch dispatch setItem toast state authToken toasts].
  rewrite Hpure.
  match goal with |- context [fst (attempt ?q)] => specialize (Hsettles q) end.
  destruct (fst (attempt _)) as [u|thrown|]; [|reflexivity|now destruct Hsettles].
  destruct refused; reflexivity.
Qed.

Lemma login_pure p credentials (q : Provider) :
  AuthService.login p credentials q = (fst (AuthService.login p credentials q), q).
Proof.
  rewrite login_outcome.
  destruct (_ && _); [reflexivity|]. destruct (_ && _); reflexivity.
Qed.

Lemma register_pure p credentials (q : Provider) :
  AuthService.register p credentials q
    = (fst (AuthService.register p credentials q), q).
Proof.
  rewrite register_outcome.
  destruct (negb _); [reflexivity|]. destruct (Nat.ltb _ _); [reflexivity|].
  destruct (negb _); reflexivity.
Qed.

Lemma login_settles p credentials (q : Provider) :
  fst (AuthService.login p credentials q) <> Pending.
Proof.
  rewrite login_outcome.
  destruct (_ && _); [discriminate|]. destruct (_ && _); discriminate.
Qed.

Lemma register_settles p credentials (q : Provider) :
  fst (AuthService.register p credentials q) <> Pending.
Proof.
  rewrite register_outcome.
  destruct (negb _); [discriminate|]. destruct (Nat.ltb _ _); [discriminate|].
  destruct (negb _); discriminate.
Qed.



(** Who is signed in, is marked so, has the token in localStorage, and sees
    no error. *)
Lemma signIn_consistent (attempt : Async Provider AuthUser) greeting fallback refused q :
  (forall q, attempt q = (fst (attempt q), q)) ->
  (forall q, fst (attempt q) <> Pending) ->
  let q' := snd ((dispatch AUTH_START ;;;
                  try_catch
                    (u <- attempt ;;
                     setItem refused (user_token u) ;;;
                     dispatch (AUTH_SUCCESS u) ;;;
                     toast false (greeting u))
                    (fun thrown =>
                       let errorMessage := messageOf thrown fallback in
                       dispatch (AUTH_ERROR errorMessage) ;;;
                       toast true errorMessage)) q) in
  (isAuthenticated (state q') = true <-> is_Some (user (state q'))) /\
  (forall u, user (state q') = Some u -> authToken q' = Some (user_token u)) /\
  (is_Some (error (state q')) -> user (state q') = None).
Proof.
  intros Hpure Hsettles q'. subst q'. destruct q as [st tok ts].
  rewrite (signIn_outcome attempt greeting fallback refused st tok ts Hpure Hsettles).
  cbn [snd].
  match goal with |- context [fst (attempt ?q)] => specialize (Hsettles q) end.
  destruct (fst (attempt _)) as [u|thrown|]; [destruct refused| |now destruct Hsettles];
    cbn [state authToken authReducer user isAuthenticated error];
    (split; [split; [discriminate || (intros _; now eexists)
                    |discriminate || (now intros [? [=]]) || reflexivity]
            |split; [now intros ? [= <-] || discriminate|]]);
    try reflexivity; try (now intros [? [=]]).
Qed.

(** [validateToken], case by case. *)
Lemma validateToken_outcome {S} p token (s : S) :
  validateToken p token s =
    if negb (truthy token) || String.eqb token "invalid"
    then (Rejected (JsError "Token validation failed"), s)
    else match payloadUserId p token with
         | Some userId =>
             (Resolved {| user_id := VideoService.field_or userId "1";
                          user_name := "Demo User";
                          user_email := "demo@streamflix.com";
                          user_avatar := Some demoAvatar;
                          user_token := token |}, s)
         | None => (Rejected (JsError "Token validation failed"), s)
         end.
Proof.
  unfold validateToken, decodeToken, try_catch, resolve, reject.
  destruct (negb (truthy token) || String.eqb token "invalid"); [reflexivity|].
  destruct (payloadUserId p token); reflexivity.
Qed.

(** [initAuth], case by case. *)
Lemma initAuth_outcome p st tok ts :
  initAuth p {| state := st; authToken := tok; toasts := ts |} =
    (Resolved tt,
     match tok with
     | Some token =>
         if truthy token
         then if negb (truthy token) || String.eqb token "invalid"
              then {| state := authReducer st AUTH_LOGOUT; authToken := None;
                      toasts := ts |}
              else match payloadUserId p token with
                   | Some userId =>
                       {| state :=
                            authReducer st
                              (AUTH_SUCCESS
                                 {| user_id := VideoService.field_or userId "1";
                                    user_name := "Demo User";
                                    user_email := "demo@streamflix.com";
                                    user_avatar := Some demoAvatar;
                                    user_token := token |});
                          authToken := tok; toasts := ts |}
                   | None =>
                       {| state := authReducer st AUTH_LOGOUT; authToken := None;
                          toasts := ts |}
                   end
         else {| state := authReducer st AUTH_LOGOUT; authToken := tok; toasts := ts |}
     | None => {| state := authReducer st AUTH_LOGOUT; authToken := tok; toasts := ts |}
     end).
Proof.
  unfold initAuth.
  cbv beta iota zeta delta [try_catch bind dispatch removeItem state authToken toasts].
  destruct tok as [token|]; [|reflexivity].
  destruct (truthy token) eqn:Htruthy; [|reflexivity].
  rewrite validateToken_outcome, Htruthy.
  destruct (negb true || String.eqb token "invalid"); [reflexivity|].
  destruct (payloadUserId p token); reflexivity.
Qed.

Lemma consistent_signed_out st tok ts :
  user st = None -> isAuthenticated st = false ->
  consistent {| state := st; authToken := tok; toasts := ts |}.
Proof.
  intros Huser Hauth. unfold consistent. cbn [state authToken]. rewrite Huser, Hauth.
  split; [split; [discriminate|now intros [? [=]]]|]. split; [discriminate|reflexivity].
Qed.

Lemma consistent_initAuth p q : consistent (snd (initAuth p q)).
Proof.
  destruct q as [st tok ts]. rewrite initAuth_outcome. cbn [snd].
  destruct tok as [token|]; [|now apply consistent_signed_out].
  destruct (truthy token); [|now apply consistent_signed_out].
  destruct (negb true || String.eqb token "invalid"); [now apply consistent_signed_out|].
  destruct (payloadUserId p token); [|now apply consistent_signed_out].
  unfold consistent. cbn.
  split; [split; [now eexists|reflexivity]|]. split; [now intros ? [= <-]|].
  now intros [? [=]].
Qed.

Lemma consistent_handle e q : consistent q -> consistent (snd (handle e q)).
Proof.
  intros Hq. destruct e as [p|p refused credentials|p refused credentials| |]; cbn [handle].
  - apply consistent_initAuth.
  - apply (signIn_consistent (AuthService.login p credentials)
             (fun u => "Welcome back, " +:+ user_name u +:+ "!") "Login failed").
    + intros q0. apply login_pure.
    + intros q0. apply login_settles.
  - apply (signIn_consistent (AuthService.register p credentials)
             (fun u => "Welcome to SlimeTube, " +:+ user_name u +:+ "!")
             "Registration failed").
    + intros q0. apply register_pure.
    + intros q0. apply register_settles.
  - destruct q as [st tok ts]. now apply consistent_signed_out.
  - destruct q as [st tok ts]. destruct Hq as (Hauth & Htoken & _).
    unfold consistent. cbn in *. split; [exact Hauth|]. split; [exact Htoken|].
    now intros [? [=]].
Qed.

Lemma reachable_consistent q : reachable q -> consistent q.
Proof.
  induction 1 as [token|q e _ IH].
  - now apply consistent_signed_out.
  - now apply consistent_handle.
Qed.

(** X28. Through the mount, any logins, registrations, logouts and
    clearings of the error, the provider stays consistent: a user is present
    exactly when [isAuthenticated] is set, the token in localStorage is then
    that user's, and an error is never shown beside a user. So for
    [useVideoDatabase], which tests both, "not authenticated" and "no user"
    are the same condition. *)
Theorem provider_stays_consistent q :
  reachable q ->
  (isAuthenticated (state q) = true <-> is_Some (user (state q))) /\
  (forall u, user (state q) = Some u -> authToken q = Some (user_token u)) /\
  (is_Some (error (state q)) -> user (state q) = None) /\
  (useVideoDatabase.isAuthenticated (useAuth q) = false
   <-> useVideoDatabase.user (useAuth q) = None).
Proof.
  intros Hreach. destruct (reachable_consistent q Hreach) as (Hauth & Htoken & Herror).
  split; [exact Hauth|]. split; [exact Htoken|]. split; [exact Herror|].
  cbn. destruct (isAuthenticated (state q)), (user (state q)) as [u|]; split;
    try reflexivity; try discriminate; intros _.
  - destruct Hauth as [Hauth _]. now destruct (Hauth eq_refl).
  - destruct Hauth as [_ Hauth]. discriminate Hauth. now eexists.
Qed.





End SignIn.

Section SubmittingTheForm.

Import AuthService AuthContext AuthModal.




End SubmittingTheForm.

(* ===================================================================== *)
(** ** The further theorems at sample inputs *)
(* ===================================================================== *)

Section MoreWitnesses.

Import IndexedDBStorageService VideoUploadModal UserService useVideoDatabase Sample.

(** Clearing the store that holds the clip. *)
Lemma clearAllVideos_empties_store_witness :
  exists s',
    clearAllVideos browser after_put = (Resolved tt, s') /\
    getAllStoredVideos browser s' = (Resolved [], s').
Proof.
  destruct (clearAllVideos_empties_store browser after_put) as [Hresolves Hempty].
  destruct (Hresolves (or_intror eq_refl) eq_refl) as [s' Hs'].
  exists s'. split; [exact Hs'|].
  destruct (Hempty s' Hs') as [_ Hall].
  exact (proj1 (Hall browser eq_refl)).
Defined.

(** Storing the clip into the fresh store. *)
Lemma storeVideoFile_adds_exactly_one_witness :
  storeVideoFile browser clip "Test" "" (0 # 1)%Q "/default-thumbnail.jpg" fresh
    = (Resolved clip_id, after_put) /\
  forall other, other <> clip_id -> videos after_put !! other = videos fresh !! other.
Proof.
  assert (Hput : storeVideoFile browser clip "Test" "" (0 # 1)%Q "/default-thumbnail.jpg"
                   fresh = (Resolved clip_id, after_put)) by (vm_compute; reflexivity).
  split; [exact Hput|].
  exact (proj1 (storeVideoFile_adds_exactly_one
                  browser clip "Test" "" (0 # 1)%Q "/default-thumbnail.jpg" fresh
                  clip_id after_put Hput)).
Defined.

(** The 200MB film does not fit in a quota of 1000 bytes. *)
Lemma storeVideoFile_rejected_writes_nothing_witness :
  overQuota film (availableSpace (Some 1000) (Some 0)) = true /\
  exists s',
    storeVideoFile browser_full film "Test" "" (0 # 1)%Q "/default-thumbnail.jpg" fresh
      = (Rejected (JsError (quotaMessage film (availableSpace (Some 1000) (Some 0)))), s').
Proof.
  split; [vm_compute; reflexivity|].
  destruct (storeVideoFile_rejected_writes_nothing
              browser_full film "Test" "" (0 # 1)%Q "/default-thumbnail.jpg" fresh)
    as (_ & Hquota & _).
  apply Hquota; [right; reflexivity|reflexivity|vm_compute; reflexivity].
Defined.

(** Deleting the clip from the store that holds it. *)
Lemma deleteStoredVideo_only_that_id_witness :
  exists s',
    deleteStoredVideo browser clip_id after_put = (Resolved tt, s') /\
    forall other, other <> clip_id -> videos s' !! other = videos after_put !! other.
Proof.
  exists (snd (deleteStoredVideo browser clip_id after_put)).
  assert (Hdelete : deleteStoredVideo browser clip_id after_put
                    = (Resolved tt, snd (deleteStoredVideo browser clip_id after_put)))
    by (vm_compute; reflexivity).
  split; [exact Hdelete|].
  exact (proj1 (deleteStoredVideo_only_that_id browser clip_id after_put _ Hdelete)).
Defined.

(** The clip, once stored, has a URL. *)
Lemma getStoredVideoUrl_after_put_witness :
  storeVideoFile browser clip "Test" "" (0 # 1)%Q "/default-thumbnail.jpg" fresh
    = (Resolved clip_id, after_put) /\
  getStoredVideoUrl browser clip_id after_put
    = (Resolved (Some "blob:http://localhost/0"), after_put).
Proof.
  assert (Hput : storeVideoFile browser clip "Test" "" (0 # 1)%Q "/default-thumbnail.jpg"
                   fresh = (Resolved clip_id, after_put)) by (vm_compute; reflexivity).
  split; [exact Hput|].
  exact (getStoredVideoUrl_after_put
           browser clip "Test" "" (0 # 1)%Q "/default-thumbnail.jpg" fresh
           clip_id after_put Hput browser).
Defined.

(** With an estimate that fails, the clip is refused and nothing is stored. *)
Lemma estimate_failure_swallowed_by_stats_not_by_put_witness :
  storage browser_no_estimate = EstimateRejects JsOther /\
  exists s',
    storeVideoFile browser_no_estimate clip "Test" "" (0 # 1)%Q "/default-thumbnail.jpg"
      fresh = (Rejected JsOther, s') /\
    videos s' = videos fresh.
Proof.
  split; [reflexivity|].
  apply (proj2 (estimate_failure_swallowed_by_stats_not_by_put
                  browser_no_estimate clip "Test" "" (0 # 1)%Q "/default-thumbnail.jpg"
                  fresh JsOther eq_refl (or_intror eq_refl))).
Defined.

(** With the database closed, every call fails in the same way. *)
Lemma lazy_open_failure_and_reuse_witness :
  db fresh = false /\ idb_open_ok browser_closed = false /\
  getStoredVideo browser_closed clip_id fresh
    = (Rejected (JsError "Failed to open IndexedDB"), fresh).
Proof.
  split; [reflexivity|]. split; [reflexivity|].
  destruct (proj1 (lazy_open_failure_and_reuse
                     browser_closed clip "Test" "" (0 # 1)%Q "/default-thumbnail.jpg"
                     clip_id fresh) eq_refl eq_refl) as (_ & Hget & _).
  exact Hget.
Defined.

(** Submitting the 200MB film resolves and leaves the dialog as it was;
    submitting the clip to a media element that never answers does not
    settle and leaves the dialog uploading. *)
Lemma handleSubmit_never_rejects_witness :
  rejection (Some demo) (modal (app_with film))
    = Some "Video file is too large. Maximum size is 100MB." /\
  modal (snd (handleSubmit (Some demo) upload_ok (app_with film))) = modal (app_with film) /\
  rejection (Some demo) (modal app) = None /\
  stalls upload_stalled clip (thumbnailFile (modal app)) = true /\
  fst (handleSubmit (Some demo) upload_stalled app) = Pending /\
  isUploading (modal (snd (handleSubmit (Some demo) upload_stalled app))) = true.
Proof.
  assert (Hlarge : rejection (Some demo) (modal (app_with film))
                   = Some "Video file is too large. Maximum size is 100MB.")
    by (vm_compute; reflexivity).
  assert (Hvalid : rejection (Some demo) (modal app) = None) by (vm_compute; reflexivity).
  split; [exact Hlarge|].
  split.
  { destruct (handleSubmit_never_rejects (Some demo) upload_ok (app_with film))
      as (_ & Hsame & _).
    exact (proj2 (Hsame _ Hlarge)). }
  split; [exact Hvalid|]. split; [reflexivity|].
  assert (Hstalled :
            fst (handleSubmit (Some demo) upload_stalled app) = Pending /\
            isUploading (modal (snd (handleSubmit (Some demo) upload_stalled app))) = true /\
            store (snd (handleSubmit (Some demo) upload_stalled app)) = store app /\
            catalog (snd (handleSubmit (Some demo) upload_stalled app)) = catalog app)
    by exact (proj2 (proj2 (handleSubmit_never_rejects (Some demo) upload_stalled app))
                clip Hvalid eq_refl).
  split; [exact (proj1 Hstalled)|exact (proj1 (proj2 Hstalled))].
Defined.

(** The upload of the clip goes through. *)
Lemma handleSubmit_upload_goes_through_witness :
  rejection (Some demo) (modal app) = None /\
  videoFile (modal app) = Some clip /\
  thumbnailOutcome upload_ok clip (thumbnailFile (modal app))
    = Some "data:image/jpeg;base64,BBBB" /\
  getVideoDuration upload_ok clip = Resolved (65 # 1)%Q /\
  storeVideoFile browser clip "Test" "" (65 # 1)%Q "data:image/jpeg;base64,BBBB" fresh
    = (Resolved clip_id, after_upload) /\
  store (snd (handleSubmit (Some demo) upload_ok app)) = after_upload.
Proof.
  assert (Hvalid : rejection (Some demo) (modal app) = None) by (vm_compute; reflexivity).
  assert (Hput : storeVideoFile browser clip "Test" "" (65 # 1)%Q
                   "data:image/jpeg;base64,BBBB" fresh = (Resolved clip_id, after_upload))
    by (vm_compute; reflexivity).
  split; [exact Hvalid|]. split; [reflexivity|]. split; [reflexivity|].
  split; [reflexivity|]. split; [exact Hput|].
  rewrite (proj1 (handleSubmit_upload_goes_through
                    demo upload_ok app clip "data:image/jpeg;base64,BBBB" (65 # 1)%Q
                    clip_id after_upload Hvalid eq_refl eq_refl eq_refl Hput)).
  reflexivity.
Defined.

(** With a poster chosen, the frame sampled earlier is the only one. *)
Lemma handleSubmit_custom_thumbnail_samples_no_frame_witness :
  thumbnailFile (modal app_with_poster) = Some poster /\
  In (GenerateVideoThumbnail clip)
    (effects (snd (handleSubmit (Some demo) upload_ok app_with_poster))) /\
  In (GenerateVideoThumbnail clip) (effects app_with_poster).
Proof.
  split; [reflexivity|].
  assert (Hafter : In (GenerateVideoThumbnail clip)
                     (effects (snd (handleSubmit (Some demo) upload_ok app_with_poster))))
    by (vm_compute; left; reflexivity).
  split; [exact Hafter|].
  exact (handleSubmit_custom_thumbnail_samples_no_frame
           (Some demo) upload_ok app_with_poster poster clip eq_refl Hafter).
Defined.

(** The 200MB film is taken by the dialog and refused on submission. *)
Lemma dialog_accepts_what_submit_refuses_witness :
  startsWith (file_type film) "video/" = true /\
  (maxSize < file_size film)%N /\
  (file_size film <= dialogMaxSize)%N /\
  truthy (trim (title (formData (modal app)))) = true /\
  exists w1,
    handleVideoFileChange (Some film) app = (Resolved tt, w1) /\
    videoFile (modal w1) = Some film.
Proof.
  assert (Hfits : (file_size film <= dialogMaxSize)%N) by (vm_compute; discriminate).
  split; [reflexivity|]. split; [reflexivity|]. split; [exact Hfits|].
  split; [reflexivity|].
  destruct (dialog_accepts_what_submit_refuses demo upload_ok app film
              eq_refl eq_refl Hfits eq_refl)
    as (w1 & Hchange & Hfile & _).
  exists w1. split; assumption.
Defined.

(** The tags " cats, ,dogs " come out as two clean tags. *)
Lemma handleSubmit_entry_tags_clean_witness :
  exists entry,
    catalog (snd (handleSubmit (Some demo) upload_ok app_tagged))
      = entry :: catalog app_tagged /\
    video_tags entry = ["cats"; "dogs"].
Proof.
  exists (entryOf demo upload_ok (formData (modal app_tagged)) clip_id
            "data:image/jpeg;base64,BBBB" (65 # 1)%Q).
  assert (Hcatalog : catalog (snd (handleSubmit (Some demo) upload_ok app_tagged))
                     = entryOf demo upload_ok (formData (modal app_tagged)) clip_id
                         "data:image/jpeg;base64,BBBB" (65 # 1)%Q :: catalog app_tagged)
    by (vm_compute; reflexivity).
  split; [exact Hcatalog|].
  rewrite (proj1 (handleSubmit_entry_tags_clean (Some demo) upload_ok app_tagged _
                    Hcatalog)).
  vm_compute; reflexivity.
Defined.

(** With the database closed, the upload of the clip is reported as failed. *)
Lemma store_failure_shown_as_upload_failed_witness :
  rejection (Some demo) (modal app) = None /\
  videoFile (modal app) = Some clip /\
  storeVideoFile browser_closed clip "Test" "" (65 # 1)%Q "data:image/jpeg;base64,BBBB" fresh
    = (Rejected (JsError "Failed to open IndexedDB"), fresh) /\
  exists message,
    JsError "Failed to open IndexedDB" = JsError message /\
    last (effects (snd (handleSubmit (Some demo) upload_store_closed app)))
      = Some (ToastError ("Upload failed: " +:+ message)).
Proof.
  assert (Hvalid : rejection (Some demo) (modal app) = None) by (vm_compute; reflexivity).
  assert (Hput : storeVideoFile browser_closed clip "Test" "" (65 # 1)%Q
                   "data:image/jpeg;base64,BBBB" fresh
                 = (Rejected (JsError "Failed to open IndexedDB"), fresh))
    by (vm_compute; reflexivity).
  assert (Hestimate : forall e0, storage (idb upload_store_closed) <> EstimateRejects e0)
    by (intros e0; discriminate).
  split; [exact Hvalid|]. split; [reflexivity|]. split; [exact Hput|].
  destruct (store_failure_shown_as_upload_failed
              demo upload_store_closed app clip "data:image/jpeg;base64,BBBB" (65 # 1)%Q
              (JsError "Failed to open IndexedDB") fresh
              Hvalid eq_refl eq_refl eq_refl Hput Hestimate)
    as (message & Hmessage & Hlast & _).
  exists message. split; assumption.
Defined.

(** The reference of the stored clip resolves to its blob URL. *)
Lemma getVideoUrl_of_uploaded_reference_witness :
  storeVideoFile browser clip "Test" "" (0 # 1)%Q "/default-thumbnail.jpg" fresh
    = (Resolved clip_id, after_put) /\
  VideoPlayer.getVideoUrl player_browser ("stored://" +:+ clip_id) after_put
    = (Resolved "blob:http://localhost/0", after_put).
Proof.
  assert (Hput : storeVideoFile browser clip "Test" "" (0 # 1)%Q "/default-thumbnail.jpg"
                   fresh = (Resolved clip_id, after_put)) by (vm_compute; reflexivity).
  split; [exact Hput|].
  apply (getVideoUrl_of_uploaded_reference
           browser clip "Test" "" (0 # 1)%Q "/default-thumbnail.jpg" fresh
           clip_id after_put player_browser Hput eq_refl).
  discriminate.
Defined.

(** A reference to a video the store does not hold gives the first sample. *)
Lemma resolveVideoUrl_always_settles_witness :
  videos (VideoPlayer.service player) !! "gone" = None /\
  VideoPlayer.resolvedVideoUrl
    (snd (VideoPlayer.resolveVideoUrl player_browser ("stored://" +:+ "gone") player))
    = VideoPlayer.firstSample.
Proof.
  split; [vm_compute; reflexivity|].
  destruct (resolveVideoUrl_always_settles player_browser ("stored://" +:+ "gone") player)
    as (_ & _ & Hmissing & _).
  apply (Hmissing "gone" eq_refl). left. vm_compute; reflexivity.
Defined.

(** Taking video "7" off the wishlist of user "1". *)
Lemma removeFromWishlist_takes_out_only_that_id_witness :
  removeFromWishlist true "1" "7" wished
    = (Resolved tt, snd (removeFromWishlist true "1" "7" wished)) /\
  storedWishlist "1" (snd (removeFromWishlist true "1" "7" wished)) = [].
Proof.
  assert (Hremove : removeFromWishlist true "1" "7" wished
                    = (Resolved tt, snd (removeFromWishlist true "1" "7" wished)))
    by (vm_compute; reflexivity).
  split; [exact Hremove|].
  rewrite (proj1 (removeFromWishlist_takes_out_only_that_id true "1" "7" wished _ Hremove)).
  vm_compute; reflexivity.
Defined.

(** What user "1" puts on the wishlist does not reach user "2". *)
Lemma lists_do_not_interfere_witness :
  "2" <> "1" /\
  storedWishlist "2" (snd (UserService.addToWishlist true "1" "9" wished))
    = storedWishlist "2" wished.
Proof.
  assert (Hother : "2" <> "1") by discriminate.
  split; [exact Hother|].
  exact (proj1 (proj2 (lists_do_not_interfere true "1" "9" wished "2") Hother)).
Defined.

(** Video "9" watched by user "1". *)
Lemma addToWatchHistory_most_recent_first_witness :
  UserService.addToWatchHistory true "1" "9" wished
    = (Resolved tt, snd (UserService.addToWatchHistory true "1" "9" wished)) /\
  head (storedHistory "1" (snd (UserService.addToWatchHistory true "1" "9" wished)))
    = Some "9".
Proof.
  assert (Hadd : UserService.addToWatchHistory true "1" "9" wished
                 = (Resolved tt, snd (UserService.addToWatchHistory true "1" "9" wished)))
    by (vm_compute; reflexivity).
  split; [exact Hadd|].
  exact (proj1 (addToWatchHistory_most_recent_first true "1" "9" wished _ Hadd)).
Defined.

(** Two toggles of video "7" by user "1" on the hook as first rendered,
    the second made before the first has returned. *)
Lemma wishlist_in_memory_can_hold_duplicates_witness :
  reachable initial /\
  ("7" ∉ wishlist initial) /\
  ("7" ∉ storedWishlist (user_id demo) (localStorage initial)) /\
  wishlist
    (snd (addToWishlistFrom (wishlist initial) (loggedIn demo) true "7"
            (snd (addToWishlistFrom (wishlist initial) (loggedIn demo) true "7" initial))))
    = ["7"; "7"].
Proof.
  assert (Hmemory : "7" ∉ wishlist initial) by (intros Hin; inversion Hin).
  assert (Hstored : "7" ∉ storedWishlist (user_id demo) (localStorage initial))
    by (intros Hin; inversion Hin).
  split; [constructor|]. split; [exact Hmemory|]. split; [exact Hstored|].
  destruct (wishlist_in_memory_can_hold_duplicates (loggedIn demo) demo "7" initial
              eq_refl eq_refl reachable_initial Hmemory Hstored) as (_ & Htwice & _).
  exact Htwice.
Defined.

(** User "1" toggles video "7", which is on the list, and video "9", which
    is not. *)
Lemma addToWishlist_toggles_witness :
  wishlist hook_wished = storedWishlist (user_id demo) (localStorage hook_wished) /\
  ("9" ∈ wishlist (snd (useVideoDatabase.addToWishlist (loggedIn demo) true "9" hook_wished))
   <-> "9" ∉ wishlist hook_wished).
Proof.
  assert (Hsync : wishlist hook_wished
                  = storedWishlist (user_id demo) (localStorage hook_wished))
    by (vm_compute; reflexivity).
  split; [exact Hsync|].
  exact (proj1 (addToWishlist_toggles (loggedIn demo) demo "9" hook_wished
                  eq_refl eq_refl Hsync)).
Defined.

(** Nobody is logged in: the toggle only asks to log in. *)
Lemma addToWishlist_refused_changes_no_list_witness :
  user anonymous = None /\
  wishlist (snd (useVideoDatabase.addToWishlist anonymous true "7" hook_wished))
    = wishlist hook_wished.
Proof.
  split; [reflexivity|].
  exact (proj1 (proj1 (addToWishlist_refused_changes_no_list anonymous true "7" hook_wished)
                  (or_introl eq_refl))).
Defined.

(** User "1" logs in over the localStorage that holds the wishlist. *)
Lemma authEffect_loads_or_clears_witness :
  user (loggedIn demo) = Some demo /\ isAuthenticated (loggedIn demo) = true /\
  wishlist (snd (authEffect (loggedIn demo) hook_wished))
    = storedWishlist (user_id demo) (localStorage hook_wished).
Proof.
  split; [reflexivity|]. split; [reflexivity|].
  destruct (authEffect_loads_or_clears (loggedIn demo) hook_wished) as (_ & Hloads & _).
  exact (proj1 (Hloads demo eq_refl eq_refl)).
Defined.

(** User "1" watches video "9". *)
Lemma addToWatchHistory_keeps_memory_and_storage_equal_witness :
  watchHistory hook_wished = storedHistory (user_id demo) (localStorage hook_wished) /\
  watchHistory (snd (useVideoDatabase.addToWatchHistory (loggedIn demo) true "9" hook_wished))
    = storedHistory (user_id demo)
        (localStorage
           (snd (useVideoDatabase.addToWatchHistory (loggedIn demo) true "9" hook_wished))).
Proof.
  assert (Hsync : watchHistory hook_wished
                  = storedHistory (user_id demo) (localStorage hook_wished))
    by (vm_compute; reflexivity).
  split; [exact Hsync|].
  exact (proj1 (addToWatchHistory_keeps_memory_and_storage_equal
                  (loggedIn demo) demo true "9" hook_wished eq_refl eq_refl Hsync)).
Defined.


(** The first like of the tutorial, second in the catalog, after the list
    was loaded. *)
Lemma first_like_after_load_counts_twice_witness :
  VideoList.mockVideos world !! 1%nat = Some 1%nat /\
  VideoList.objects world !! 1%nat = Some tutorial /\
  0 <= likes tutorial < 2 ^ 53 - 2 /\
  VideoList.shown
    (snd (VideoList.likeVideo (loggedIn demo) "2" (snd (VideoList.loadVideos world))))
    1%nat
    = Some (VideoList.withLikes 67893 tutorial).
Proof.
  assert (Hlikes : 0 <= likes tutorial < 2 ^ 53 - 2)
    by (split; [discriminate|reflexivity]).
  assert (Hviews : 0 <= views tutorial < 2 ^ 53 - 2)
    by (split; [discriminate|reflexivity]).
  assert (Hfirst : forall earlier r', (earlier < 1)%nat ->
                     VideoList.mockVideos world !! earlier = Some r' ->
                     VideoList.hasId (VideoList.objects world) "2" r' = false).
  { intros [|earlier] r' Hlt Hr'; [|lia]. injection Hr' as <-. reflexivity. }
  split; [reflexivity|]. split; [reflexivity|]. split; [exact Hlikes|].
  destruct (first_like_after_load_counts_twice (loggedIn demo) demo "2" world 1%nat 1%nat
              tutorial eq_refl eq_refl eq_refl eq_refl eq_refl Hfirst Hlikes Hviews)
    as (_ & _ & Hshown & _).
  exact Hshown.
Defined.

End MoreWitnesses.

Section SignInWitnesses.

Import AuthService AuthContext AuthModal Sample.


(** The provider after a login of the demo account. *)
Lemma provider_stays_consistent_witness :
  reachable (snd (handle (Login platform None demo_login) (started None))) /\
  (isAuthenticated (state (snd (handle (Login platform None demo_login) (started None))))
     = true
   <-> is_Some (user (state (snd (handle (Login platform None demo_login)
                                    (started None)))))).
Proof.
  assert (Hreach : reachable (snd (handle (Login platform None demo_login) (started None))))
    by (apply reachable_handled, reachable_started).
  split; [exact Hreach|].
  exact (proj1 (provider_stays_consistent _ Hreach)).
Defined.



End SignInWitnesses.

(* ===================================================================== *)
(** ** Text outside ASCII *)
(* ===================================================================== *)

Section BeyondAscii.

Import IndexedDBStorageService VideoUploadModal Sample.

(** [trim] takes off the no-break and the ideographic space as it does the
    ASCII blanks, at both ends. *)
Lemma trim_wide_blank :
  trim wide_blank = "" /\
  trim (wide_blank +:+ "a b" +:+ wide_blank) = "a b" /\
  trim (e_acute +:+ " ") = e_acute.
Proof. repeat split. Qed.

(** [length] counts UTF-16 code units, not bytes. *)
Lemma string_length_code_units :
  string_length "demo123" = 7%nat /\
  string_length e_acute = 1%nat /\ String.length e_acute = 2%nat /\
  string_length grinning_face = 2%nat /\ String.length grinning_face = 4%nat /\
  string_length (AuthService.password accented_login) = 5%nat.
Proof. repeat split. Qed.

(** A title of wide blanks is no title. *)
Lemma handleSubmit_wide_blank_title :
  handleSubmit (Some demo) upload_ok app_wide_blank_title
  = emit (ToastError "Please enter a video title") app_wide_blank_title.
Proof. reflexivity. Qed.

(** A password of five characters is refused, many bytes or not. *)
Lemma login_accented_password :
  AuthService.login platform accented_login tt
  = (Rejected (JsError "Invalid email or password"), tt).
Proof. reflexivity. Qed.

End BeyondAscii.
